(** * Keyword extraction and resume scoring (textProcessing)

    A shallow embedding of the heuristic engine of the candidate-profiling
    application: [extractKeywords] and [analyzeResume] with every helper
    they call, and the pure functions of their callers (the capability
    cards and interview questions of the application, the truncation of
    the prompt payloads), followed by the properties stated for them.

    Modelling conventions.
    - A JavaScript string is a list of code units.  The development covers
      texts whose code units are below 256 (Latin-1), so a code unit is an
      [ascii]; [toLowerCase], [\s] and [trim] are the ECMAScript ones
      restricted to that range.
    - A JavaScript number is modelled at two levels.  Counts are integers
      ([Z], [nat]).  For the properties that rest on the order and the
      sign of the numbers or on the shape of the data, a number is an
      exact rational ([Q]) and [toFixed] and [Math.round] round the exact
      value.  For the properties about the value itself (the importance
      formula, the range of the score) a number is a binary64 value
      ([double]): not-a-number, an infinity, or a finite value that every
      operation rounds to the format ([round64]: 53 bits, ties to even,
      gradual underflow, overflow to infinity); the engine is embedded
      once more on these numbers in [Module Binary64].
    - A [Map] is an association list in insertion order, a [Set] a
      duplicate-free list in insertion order, as [Array.from] sees them. *)

From Stdlib Require Import List Bool Arith ZArith QArith Qminmax Qround Qpower.
From Stdlib Require Import Lia Lqa.
From Stdlib Require SpecFloat.
From Stdlib Require Import Ascii String DecimalString Permutation Sorted.
Import ListNotations.

Set Implicit Arguments.

(* ================================================================== *)
(** ** Code units and strings *)

Definition jsstring := list ascii.

Definition str (s : string) : jsstring := list_ascii_of_string s.

Definition code (c : ascii) : N := N_of_ascii c.

Definition inRange (lo hi : N) (c : ascii) : bool :=
  (N.leb lo (code c) && N.leb (code c) hi)%bool.

Definition isCode (n : N) (c : ascii) : bool := N.eqb (code c) n.

(** [String.prototype.toLowerCase] on one code unit below 256. *)
Definition lowerChar (c : ascii) : ascii :=
  if inRange 65 90 c then ascii_of_N (code c + 32)
  else if (inRange 192 222 c && negb (isCode 215 c))%bool
       then ascii_of_N (code c + 32)
       else c.

Definition toLowerCase (s : jsstring) : jsstring := map lowerChar s.

(** White space and line terminators: what [\s] matches and [trim] strips. *)
Definition isSpace (c : ascii) : bool :=
  (inRange 9 13 c || isCode 32 c || isCode 160 c)%bool.

Fixpoint dropWhile (A : Type) (p : A -> bool) (l : list A) : list A :=
  match l with
  | [] => []
  | x :: l' => if p x then dropWhile p l' else l
  end.

Definition trimStart (s : jsstring) : jsstring := dropWhile isSpace s.
Definition trimEnd (s : jsstring) : jsstring := rev (dropWhile isSpace (rev s)).
Definition trim (s : jsstring) : jsstring := trimEnd (trimStart s).

Fixpoint streqb (a b : jsstring) : bool :=
  match a, b with
  | [], [] => true
  | x :: a', y :: b' => (Ascii.eqb x y && streqb a' b')%bool
  | _, _ => false
  end.

(** Extends the first piece of a split by one code unit on the left. *)
Definition consHead (c : ascii) (ls : list jsstring) : list jsstring :=
  match ls with
  | [] => [[c]]
  | l :: ls' => (c :: l) :: ls'
  end.

Definition LF : ascii := ascii_of_N 10.
Definition CR : ascii := ascii_of_N 13.
Definition SP : ascii := ascii_of_N 32.

(** [text.split(/\r?\n/)]. *)
Fixpoint splitLines (s : jsstring) : list jsstring :=
  match s with
  | [] => [[]]
  | c :: s' =>
      if Ascii.eqb c LF then [] :: splitLines s'
      else if Ascii.eqb c CR then
        match s' with
        | d :: s'' =>
            if Ascii.eqb d LF then [] :: splitLines s''
            else consHead c (splitLines s')
        | [] => consHead c (splitLines s')
        end
      else consHead c (splitLines s')
  end.

(** [s.split(' ')]. *)
Fixpoint splitSpace (s : jsstring) : list jsstring :=
  match s with
  | [] => [[]]
  | c :: s' =>
      if Ascii.eqb c SP then [] :: splitSpace s'
      else consHead c (splitSpace s')
  end.

(** [parts.join(' ')]. *)
Fixpoint joinSpace (parts : list jsstring) : jsstring :=
  match parts with
  | [] => []
  | [p] => p
  | p :: rest => p ++ SP :: joinSpace rest
  end.

(** Truthiness of a string: non-empty. *)
Definition truthy (s : jsstring) : bool :=
  match s with [] => false | _ => true end.

(** Code-unit order, the default order of [Array.prototype.sort]. *)
Fixpoint strGt (a b : jsstring) : bool :=
  match a, b with
  | [], _ => false
  | _ :: _, [] => true
  | x :: a', y :: b' =>
      if N.ltb (code y) (code x) then true
      else if N.ltb (code x) (code y) then false
      else strGt a' b'
  end.

(* ================================================================== *)
(** ** Numbers *)

Definition Qltb (x y : Q) : bool := negb (Qle_bool y x).
Definition Qgeb (x y : Q) : bool := Qle_bool y x.

(** [Math.round]: the nearest integer, halves going up. *)
Definition mathRound (x : Q) : Z := Qfloor (x + (1 # 2)).

(** [Number(x.toFixed(3))]: the nearest multiple of 1/1000, halves going
    away from zero. *)
Definition toFixed3 (x : Q) : Q :=
  if Qltb x 0 then - (Qfloor ((- x) * 1000 + (1 # 2)) # 1000)
  else Qfloor (x * 1000 + (1 # 2)) # 1000.

Definition QofNat (n : nat) : Q := inject_Z (Z.of_nat n).

(* ================================================================== *)
(** ** Stable sorting, [Map] and [Set] *)

Section Sorting.
Variable A : Type.
(** [gt a b] holds when the comparator is positive on [(a, b)], that is
    when [a] must come after [b]. *)
Variable gt : A -> A -> bool.

Fixpoint insertSorted (x : A) (l : list A) : list A :=
  match l with
  | [] => [x]
  | y :: l' => if gt x y then y :: insertSorted x l' else x :: l
  end.

(** [Array.prototype.sort] is stable: equal elements keep their order. *)
Fixpoint stableSort (l : list A) : list A :=
  match l with
  | [] => []
  | x :: l' => insertSorted x (stableSort l')
  end.
End Sorting.

Module JsMap.
Section Defs.
Variable V : Type.
Definition t := list (jsstring * V).

Fixpoint get (m : t) (k : jsstring) : option V :=
  match m with
  | [] => None
  | (k', v) :: m' => if streqb k' k then Some v else get m' k
  end.

Definition has (m : t) (k : jsstring) : bool :=
  match get m k with Some _ => true | None => false end.

(** [set] keeps the position of a key that is already there. *)
Fixpoint set (m : t) (k : jsstring) (v : V) : t :=
  match m with
  | [] => [(k, v)]
  | (k', v') :: m' =>
      if streqb k' k then (k', v) :: m' else (k', v') :: set m' k v
  end.

Definition keys (m : t) : list jsstring := map fst m.
Definition values (m : t) : list V := map snd m.
End Defs.
End JsMap.

Definition setHas (s : list jsstring) (x : jsstring) : bool :=
  existsb (streqb x) s.

Definition setAdd (s : list jsstring) (x : jsstring) : list jsstring :=
  if setHas s x then s else s ++ [x].

Definition idAdd (s : list nat) (x : nat) : list nat :=
  if existsb (Nat.eqb x) s then s else s ++ [x].

(* ================================================================== *)
(** ** Data model *)

Inductive RequirementTier := core | responsibility | preferred | general.
Inductive KeywordSource := term | phrase.

Definition tierEqb (a b : RequirementTier) : bool :=
  match a, b with
  | core, core | responsibility, responsibility
  | preferred, preferred | general, general => true
  | _, _ => false
  end.

Record KeywordInsight := mkKeywordInsight {
  canonical : jsstring;
  label : jsstring;
  occurrences : Z;
  importance : Q;
  section : RequirementTier;
  source : KeywordSource;
  variants : list jsstring;
  coverage : Q
}.

Record SectionFragment := mkFragment {
  fragId : nat;
  content : jsstring;
  fragSection : RequirementTier
}.

(** [Record<RequirementTier, number>], its keys in creation order. *)
Record TierWeights := mkTierWeights {
  wCore : Q;
  wResponsibility : Q;
  wPreferred : Q;
  wGeneral : Q
}.

Record KeywordStats := mkStats {
  stCanonical : jsstring;
  stOccurrences : Z;
  weightedOccurrences : Q;
  sectionWeights : TierWeights;
  stSource : KeywordSource;
  stVariants : list jsstring;
  surfaces : JsMap.t Z;
  fragmentIds : list nat
}.

Record SynonymInfo := mkSynonym {
  synCanonical : jsstring;
  synVariants : list jsstring
}.

Record KeywordMatch := mkMatch {
  mCanonical : jsstring;
  mLabel : jsstring;
  jdOccurrences : Z;
  resumeHits : Z;
  mImportance : Q;
  mSection : RequirementTier;
  mSource : KeywordSource
}.

Inductive SuggestionType := add | expand.

Record SuggestionInsight := mkSuggestion {
  sgCanonical : jsstring;
  sgLabel : jsstring;
  priority : RequirementTier;
  weight : Z;
  sgType : SuggestionType;
  action : jsstring;
  detail : jsstring
}.

Record ResumeAnalysis := mkAnalysis {
  score : Z;
  matchedKeywords : list KeywordMatch;
  missingKeywords : list KeywordMatch;
  summary : jsstring;
  suggestions : list SuggestionInsight
}.

(* ================================================================== *)
(** ** Word lists and tables *)

Definition STOP_WORDS : list jsstring := map str
  [ "and"; "the"; "for"; "with"; "that"; "have"; "this"; "from"; "your";
    "will"; "are"; "you"; "our"; "per"; "who"; "any"; "all"; "but"; "its";
    "was"; "were"; "has"; "had"; "can"; "may"; "must"; "into"; "able";
    "make"; "made"; "than"; "over"; "each"; "via"; "very"; "much"; "also";
    "ever"; "every"; "then"; "once"; "keep"; "kept"; "been"; "being";
    "through"; "within"; "between"; "among"; "upon"; "onto" ]%string.

Definition CONNECTOR_WORDS : list jsstring := map str
  [ "and"; "or"; "to"; "of"; "in"; "on"; "for"; "with" ]%string.

Definition GENERIC_TERMS : list jsstring := map str
  [ "job"; "jobs"; "description"; "descriptions"; "sample"; "company";
    "companies"; "organization"; "organizations"; "department";
    "departments"; "team"; "teams"; "employee"; "employees"; "employment";
    "human"; "resource"; "resources"; "information"; "detail"; "details";
    "participation"; "participate"; "candidate"; "candidates"; "applicant";
    "applicants"; "intern"; "interns"; "internship"; "role"; "roles";
    "position"; "positions"; "title"; "titles"; "sample job";
    "job description"; "job title"; "reports"; "report"; "gain" ]%string.

Definition SECTION_WEIGHTS (tier : RequirementTier) : Q :=
  match tier with
  | core => 12 # 10
  | responsibility => 1
  | preferred => 8 # 10
  | general => 7 # 10
  end.

Definition SYNONYM_GROUPS : list (list jsstring) := map (map str)
  [ [ "project management"; "program management"; "project manager"; "pm" ];
    [ "stakeholder management"; "stakeholder engagement" ];
    [ "change management"; "organizational change" ];
    [ "people management"; "team leadership"; "direct reports" ];
    [ "react"; "react.js"; "reactjs"; "react native" ];
    [ "node"; "node.js"; "nodejs" ];
    [ "customer success"; "client success"; "account management" ];
    [ "business development"; "sales development"; "bd" ];
    [ "data analysis"; "data analytics"; "data analyst" ];
    [ "machine learning"; "ml"; "ml ops"; "mlops" ];
    [ "artificial intelligence"; "ai" ];
    [ "product management"; "product manager"; "pm (product)" ];
    [ "user experience"; "ux" ];
    [ "user interface"; "ui" ];
    [ "quality assurance"; "qa"; "software testing" ];
    [ "search engine optimization"; "seo" ];
    [ "pay per click"; "ppc" ];
    [ "human resources"; "hr" ];
    [ "talent acquisition"; "technical recruiting"; "recruitment" ] ]%string.

(* ================================================================== *)
(** ** Regular expressions of the section patterns *)

Inductive regex :=
| Eps
| Chr (c : ascii)
| Cls (p : ascii -> bool)
| Cat (r1 r2 : regex)
| Alt (r1 r2 : regex)
| Opt (r : regex)
| WordB.

(** [\w] *)
Definition isWordChar (c : ascii) : bool :=
  (inRange 97 122 c || inRange 65 90 c || inRange 48 57 c || isCode 95 c)%bool.

Definition isWordOpt (o : option ascii) : bool :=
  match o with Some c => isWordChar c | None => false end.

(** Equality of code units under the [i] flag (the patterns are written in
    lower case). *)
Definition ciEqb (x c : ascii) : bool :=
  Ascii.eqb (if inRange 65 90 x then lowerChar x else x) c.

(** Backtracking match of [r] at the front of [s]; [prev] is the code unit
    before [s], [k] receives what is left. *)
Fixpoint rmatch (r : regex) (prev : option ascii) (s : jsstring)
    (k : option ascii -> jsstring -> bool) : bool :=
  match r with
  | Eps => k prev s
  | Chr c =>
      match s with
      | x :: s' => (ciEqb x c && k (Some x) s')%bool
      | [] => false
      end
  | Cls p =>
      match s with
      | x :: s' => (p x && k (Some x) s')%bool
      | [] => false
      end
  | Cat r1 r2 => rmatch r1 prev s (fun p' s' => rmatch r2 p' s' k)
  | Alt r1 r2 => (rmatch r1 prev s k || rmatch r2 prev s k)%bool
  | Opt r1 => (rmatch r1 prev s k || k prev s)%bool
  | WordB =>
      if xorb (isWordOpt prev) (isWordOpt (hd_error s)) then k prev s
      else false
  end.

Fixpoint testFrom (r : regex) (prev : option ascii) (s : jsstring) : bool :=
  (rmatch r prev s (fun _ _ => true)
   || match s with
      | [] => false
      | c :: s' => testFrom r (Some c) s'
      end)%bool.

(** [regex.test(line)] *)
Definition test (r : regex) (line : jsstring) : bool := testFrom r None line.

Fixpoint lit (s : jsstring) : regex :=
  match s with
  | [] => Eps
  | c :: s' => Cat (Chr c) (lit s')
  end.

Definition L (s : string) : regex := lit (str s).

Fixpoint alts (rs : list regex) : regex :=
  match rs with
  | [] => Cls (fun _ => false)
  | [r] => r
  | r :: rs' => Alt r (alts rs')
  end.

(** [[-\s]] *)
Definition dashOrSpace : regex := Cls (fun c => (isCode 45 c || isSpace c)%bool).

Definition HEADING_PATTERNS : list (regex * RequirementTier) :=
  [ (alts [ Cat (L "must") (Cat (Opt dashOrSpace) (L "have"));
            Cat (L "requirement") (Opt (L "s"));
            Cat (L "qualification") (Opt (L "s"));
            L "skills" ], core);
    (alts [ L "responsibilit";
            L "what you will do";
            Cat (L "day") (Cat (Opt dashOrSpace)
              (Cat (L "to") (Cat (Opt dashOrSpace) (L "day")))) ],
     responsibility);
    (alts [ L "preferred"; L "nice to have"; L "bonus"; L "good to have" ],
     preferred) ].

Definition INLINE_PRIORITY_PATTERNS : list (regex * RequirementTier) :=
  [ (Cat WordB (Cat (alts [ L "must"; L "required"; L "required experience" ])
       WordB), core);
    (Cat WordB (Cat (alts [ L "preferred"; L "nice to have"; L "bonus" ])
       WordB), preferred) ].

Fixpoint firstMatch (ps : list (regex * RequirementTier)) (line : jsstring)
    : option RequirementTier :=
  match ps with
  | [] => None
  | (r, tier) :: ps' => if test r line then Some tier else firstMatch ps' line
  end.

Definition detectHeadingSection (line : jsstring) : option RequirementTier :=
  if Nat.ltb 80 (List.length line) then None
  else firstMatch HEADING_PATTERNS line.

Definition detectInlinePriority (line : jsstring) : option RequirementTier :=
  firstMatch INLINE_PRIORITY_PATTERNS line.

(* ================================================================== *)
(** ** Segmentation *)

(** The [forEach] of [splitIntoFragments]: [st] holds the fragments so far,
    the active section and the fragment counter. *)
Definition fragmentStep
    (st : list SectionFragment * RequirementTier * nat) (line : jsstring)
    : list SectionFragment * RequirementTier * nat :=
  let '(fragments, activeSection, fragmentCounter) := st in
  match detectHeadingSection line with
  | Some headingSection => (fragments, headingSection, fragmentCounter)
  | None =>
      let inlineSection := detectInlinePriority line in
      (fragments ++
         [ mkFragment fragmentCounter line
             (match inlineSection with Some s => s | None => activeSection end) ],
       activeSection, S fragmentCounter)
  end.

Definition splitIntoFragments (text : jsstring) : list SectionFragment :=
  let lines := filter truthy (map trim (splitLines text)) in
  fst (fst (fold_left fragmentStep lines ([], general, 0%nat))).

(* ================================================================== *)
(** ** Tokens *)

(** [[a-z0-9+#]] *)
Definition tokenStart (c : ascii) : bool :=
  (inRange 97 122 c || inRange 48 57 c || isCode 43 c || isCode 35 c)%bool.

(** [[a-z0-9+#\-\/]] *)
Definition tokenChar (c : ascii) : bool :=
  (tokenStart c || isCode 45 c || isCode 47 c)%bool.

(** All matches of [/[a-z0-9+#][a-z0-9+#\-\/]*/g], left to right; [cur] is
    the match being extended. *)
Fixpoint scanTokens (cur : option jsstring) (s : jsstring) : list jsstring :=
  match s with
  | [] => match cur with Some w => [w] | None => [] end
  | c :: s' =>
      match cur with
      | Some w =>
          if tokenChar c then scanTokens (Some (w ++ [c])) s'
          else w :: scanTokens None s'
      | None =>
          if tokenStart c then scanTokens (Some [c]) s'
          else scanTokens None s'
      end
  end.

Definition tokenize (text : jsstring) : list jsstring :=
  scanTokens None (toLowerCase text).

(** [s.replace(/C+/g, ' ')] for a class [C] of code units. *)
Fixpoint replaceRuns (p : ascii -> bool) (inRun : bool) (s : jsstring)
    : jsstring :=
  match s with
  | [] => []
  | c :: s' =>
      if p c then
        if inRun then replaceRuns p true s' else SP :: replaceRuns p true s'
      else c :: replaceRuns p false s'
  end.

Definition normalizeTerm (t : jsstring) : jsstring :=
  trim
    (replaceRuns isSpace false
       (replaceRuns (fun c => negb (tokenChar c || isSpace c)) false
          (toLowerCase t))).

(* ================================================================== *)
(** ** Synonyms *)

Definition uniqueStrings (l : list jsstring) : list jsstring :=
  fold_left setAdd l [].

Definition addGroup (lookup : JsMap.t SynonymInfo) (group : list jsstring)
    : JsMap.t SynonymInfo :=
  let normalizedGroup := filter truthy (map normalizeTerm group) in
  match normalizedGroup with
  | [] => lookup
  | canonical0 :: _ =>
      let uniqueVariants := uniqueStrings normalizedGroup in
      let info := mkSynonym canonical0 uniqueVariants in
      fold_left (fun lk variant => JsMap.set lk variant info)
        uniqueVariants lookup
  end.

Definition buildSynonymMap : JsMap.t SynonymInfo :=
  fold_left addGroup SYNONYM_GROUPS [].

Definition SYNONYM_LOOKUP : JsMap.t SynonymInfo :=
  Eval vm_compute in buildSynonymMap.

Definition getCanonicalKey (t : jsstring) : jsstring :=
  let normalized := normalizeTerm t in
  if truthy normalized then
    match JsMap.get SYNONYM_LOOKUP normalized with
    | Some info => synCanonical info
    | None => normalized
    end
  else [].

(* ================================================================== *)
(** ** Filler words, generic terms and phrases *)

Definition isFillerWord (token : jsstring) : bool :=
  if JsMap.has SYNONYM_LOOKUP token then false
  else (setHas STOP_WORDS token || setHas GENERIC_TERMS token
        || setHas CONNECTOR_WORDS token)%bool.

Definition shouldKeepToken (token : jsstring) : bool :=
  if Nat.ltb (List.length token) 3 then false
  else if isFillerWord token then false
  else true.

Definition isGenericTerm (t : jsstring) : bool :=
  let tokens := filter truthy (splitSpace t) in
  match tokens with
  | [] => true
  | _ =>
      let joined := joinSpace tokens in
      if JsMap.has SYNONYM_LOOKUP joined then false
      else if setHas GENERIC_TERMS joined then true
      else
        let fillerCount := List.length (filter isFillerWord tokens) in
        if Nat.eqb fillerCount (List.length tokens) then true
        else if (Nat.ltb 1 (List.length tokens)
                 && Qgeb (QofNat fillerCount / QofNat (List.length tokens))
                      (6 # 10))%bool
        then true
        else false
  end.

(** [tokens.slice(start, start + length)] *)
Definition sliceTokens (tokens : list jsstring) (start len : nat)
    : list jsstring :=
  firstn len (skipn start tokens).

Definition buildPhrase (tokens : list jsstring) (start len : nat)
    : option jsstring :=
  let slice := sliceTokens tokens start len in
  if Nat.ltb (List.length slice) len then None
  else if (isFillerWord (nth 0 slice [])
           || isFillerWord (nth (List.length slice - 1) slice []))%bool
  then None
  else
    let meaningfulTokens :=
      filter (fun token => negb (isFillerWord token)) slice in
    let requiredMeaningful := if Nat.eqb len 2 then 1%nat else Nat.min 2 len in
    if (Nat.eqb (List.length meaningfulTokens) 0
        || Nat.ltb (List.length meaningfulTokens) requiredMeaningful)%bool
    then None
    else if forallb (fun token =>
                 (setHas STOP_WORDS token
                  && negb (setHas CONNECTOR_WORDS token))%bool) slice
    then None
    else Some (trim (joinSpace slice)).

(* ================================================================== *)
(** ** Recording occurrences *)

Definition zeroWeights : TierWeights := mkTierWeights 0 0 0 0.

Definition addWeight (w : TierWeights) (tier : RequirementTier) (x : Q)
    : TierWeights :=
  match tier with
  | core => mkTierWeights (wCore w + x) (wResponsibility w) (wPreferred w) (wGeneral w)
  | responsibility =>
      mkTierWeights (wCore w) (wResponsibility w + x) (wPreferred w) (wGeneral w)
  | preferred =>
      mkTierWeights (wCore w) (wResponsibility w) (wPreferred w + x) (wGeneral w)
  | general =>
      mkTierWeights (wCore w) (wResponsibility w) (wPreferred w) (wGeneral w + x)
  end.

Definition orPhrase (a b : KeywordSource) : KeywordSource :=
  match a, b with
  | term, term => term
  | _, _ => phrase
  end.

Definition recordTerm (t : jsstring) (src : KeywordSource)
    (tier : RequirementTier) (w : Q) (fragmentId : nat)
    (statsMap : JsMap.t KeywordStats) : JsMap.t KeywordStats :=
  let normalized := normalizeTerm t in
  if (negb (truthy normalized) || Nat.ltb (List.length normalized) 3)%bool
  then statsMap
  else if isGenericTerm normalized then statsMap
  else
    let synonymInfo := JsMap.get SYNONYM_LOOKUP normalized in
    let canonical0 :=
      match synonymInfo with Some i => synCanonical i | None => normalized end in
    let variants0 :=
      setAdd (uniqueStrings
                (match synonymInfo with
                 | Some i => synVariants i
                 | None => [canonical0]
                 end)) normalized in
    let stats :=
      match JsMap.get statsMap canonical0 with
      | Some existing => existing
      | None => mkStats canonical0 0 0 zeroWeights src [] [] []
      end in
    JsMap.set statsMap canonical0
      (mkStats (stCanonical stats)
         (stOccurrences stats + 1)
         (weightedOccurrences stats + w)
         (addWeight (sectionWeights stats) tier w)
         (orPhrase (stSource stats) src)
         (fold_left setAdd variants0 (stVariants stats))
         (JsMap.set (surfaces stats) t
            (match JsMap.get (surfaces stats) t with
             | Some n => n | None => 0 end + 1)%Z)
         (idAdd (fragmentIds stats) fragmentId)).

Definition collectTokens (tokens : list jsstring) (tier : RequirementTier)
    (fragmentId : nat) (statsMap : JsMap.t KeywordStats)
    : JsMap.t KeywordStats :=
  let w := SECTION_WEIGHTS tier in
  fold_left
    (fun m token =>
       if shouldKeepToken token then recordTerm token term tier w fragmentId m
       else m)
    tokens statsMap.

Definition collectPhrases (tokens : list jsstring) (tier : RequirementTier)
    (fragmentId : nat) (statsMap : JsMap.t KeywordStats)
    : JsMap.t KeywordStats :=
  let w := SECTION_WEIGHTS tier in
  fold_left
    (fun m index =>
       let m1 :=
         match buildPhrase tokens index 2 with
         | Some bigram =>
             recordTerm bigram phrase tier (w * (11 # 10)) fragmentId m
         | None => m
         end in
       match buildPhrase tokens index 3 with
       | Some trigram =>
           recordTerm trigram phrase tier (w * (115 # 100)) fragmentId m1
       | None => m1
       end)
    (seq 0 (List.length tokens)) statsMap.

(* ================================================================== *)
(** ** Ranking *)

(** [Object.entries(sectionWeights)] *)
Definition tierEntries (w : TierWeights) : list (RequirementTier * Q) :=
  [ (core, wCore w); (responsibility, wResponsibility w);
    (preferred, wPreferred w); (general, wGeneral w) ].

Definition getDominantSection (w : TierWeights) : RequirementTier :=
  match stableSort (fun a b => Qltb 0 (snd b - snd a)) (tierEntries w) with
  | e :: _ => fst e
  | [] => general
  end.

Definition selectDisplayLabel (stats : KeywordStats) : jsstring :=
  let sorted :=
    stableSort (fun a b => Z.ltb 0 (snd b - snd a)) (surfaces stats) in
  let label0 :=
    match sorted with
    | e :: _ => fst e
    | [] => stCanonical stats
    end in
  replaceRuns isSpace false label0.

(** The 25th and other percentiles by linear interpolation; [values] is
    sorted in increasing order. *)
Definition computePercentile (values : list Q) (percentile : Q) : Q :=
  match values with
  | [] => 0
  | _ =>
      let index := QofNat (List.length values - 1) * percentile in
      let lower := Qfloor index in
      let upper := Qceiling index in
      if Z.eqb lower upper then nth (Z.to_nat lower) values 0
      else
        let wgt := index - inject_Z lower in
        nth (Z.to_nat lower) values 0 * (1 - wgt)
        + nth (Z.to_nat upper) values 0 * wgt
  end.

(** [l.slice(0, limit)] *)
Definition sliceTo (A : Type) (l : list A) (limit : Z) : list A :=
  let len := Z.of_nat (List.length l) in
  let k := if Z.ltb limit 0 then Z.max (len + limit) 0 else Z.min limit len in
  firstn (Z.to_nat k) l.

(* ================================================================== *)
(** ** extractKeywords *)

Definition collectFragment (statsMap : JsMap.t KeywordStats)
    (fragment : SectionFragment) : JsMap.t KeywordStats :=
  let tokens := tokenize (content fragment) in
  match tokens with
  | [] => statsMap
  | _ =>
      collectPhrases tokens (fragSection fragment) (fragId fragment)
        (collectTokens tokens (fragSection fragment) (fragId fragment)
           statsMap)
  end.

(** The accumulators after all fragments have been visited. *)
Definition collectStats (text : jsstring) : JsMap.t KeywordStats :=
  fold_left collectFragment (splitIntoFragments text) [].

(** [Math.max(x, ...xs)] *)
Definition mathMax (x : Q) (xs : list Q) : Q := fold_left Qmax xs x.

Definition phraseBoost (src : KeywordSource) : Q :=
  match src with phrase => 105 # 100 | term => 1 end.

Definition importanceOf (maxWeighted : Q) (stat : KeywordStats) : Q :=
  toFixed3
    (Qmin
       (weightedOccurrences stat / maxWeighted
        * SECTION_WEIGHTS (getDominantSection (sectionWeights stat))
        * phraseBoost (stSource stat))
       1).

Definition toInsight (totalFragments : nat) (maxWeighted : Q)
    (stat : KeywordStats) : KeywordInsight :=
  mkKeywordInsight
    (stCanonical stat)
    (selectDisplayLabel stat)
    (stOccurrences stat)
    (importanceOf maxWeighted stat)
    (getDominantSection (sectionWeights stat))
    (stSource stat)
    (stableSort strGt (stVariants stat))
    (QofNat (List.length (fragmentIds stat)) / QofNat totalFragments).

Definition byImportanceDesc (a b : KeywordInsight) : bool :=
  Qltb 0 (importance b - importance a).

(** The mapped and sorted [keywords] array, before refinement. *)
Definition rankKeywords (totalFragments : nat)
    (statsArray : list KeywordStats) : list KeywordInsight :=
  match statsArray with
  | [] => []
  | s0 :: rest =>
      let maxWeighted :=
        mathMax (weightedOccurrences s0) (map weightedOccurrences rest) in
      stableSort byImportanceDesc
        (map (toInsight totalFragments maxWeighted) statsArray)
  end.

Definition coverageThreshold : Q := 45 # 100.

Definition coverageKeep (keyword : KeywordInsight) : bool :=
  (Qle_bool (coverage keyword) coverageThreshold
   || Qgeb (importance keyword) (4 # 10))%bool.

Definition coverageStage (keywords : list KeywordInsight)
    : list KeywordInsight :=
  if Nat.ltb 10 (List.length keywords) then
    let coverageFiltered := filter coverageKeep keywords in
    if Nat.leb 5 (List.length coverageFiltered) then coverageFiltered
    else keywords
  else keywords.

Definition importanceThresholdOf (refined : list KeywordInsight) : Q :=
  let importanceValues :=
    stableSort (fun a b => Qltb 0 (a - b)) (map importance refined) in
  let percentileFloor := computePercentile importanceValues (25 # 100) in
  Qmax percentileFloor (25 # 100).

Definition percentileStage (refined : list KeywordInsight)
    : list KeywordInsight :=
  if Nat.ltb 12 (List.length refined) then
    let importanceThreshold := importanceThresholdOf refined in
    let percentileFiltered :=
      filter (fun kw => Qgeb (importance kw) importanceThreshold) refined in
    if Nat.leb 5 (List.length percentileFiltered) then percentileFiltered
    else refined
  else refined.

Definition refineKeywords (keywords : list KeywordInsight)
    : list KeywordInsight :=
  let refined := percentileStage (coverageStage keywords) in
  match refined with
  | [] => keywords
  | _ => refined
  end.

Definition candidateKeywords (text : jsstring) : list KeywordInsight :=
  let fragments := splitIntoFragments text in
  let totalFragments := Nat.max (List.length fragments) 1 in
  rankKeywords totalFragments (JsMap.values (collectStats text)).

Definition extractKeywords (text : jsstring) (limit : Z)
    : list KeywordInsight :=
  match JsMap.values (collectStats text) with
  | [] => []
  | _ => sliceTo (refineKeywords (candidateKeywords text)) limit
  end.

Definition defaultLimit : Z := 28.

(* ================================================================== *)
(** ** analyzeResume *)

Definition bump (counts : JsMap.t Z) (key : jsstring) : JsMap.t Z :=
  JsMap.set counts key
    (match JsMap.get counts key with Some n => n | None => 0 end + 1)%Z.

Definition ngramStep (tokens : list jsstring) (size : nat)
    (counts : JsMap.t Z) (index : nat) : JsMap.t Z :=
  let slice := sliceTokens tokens index size in
  if (Nat.eqb size 1 && negb (shouldKeepToken (nth 0 slice [])))%bool
  then counts
  else if Nat.ltb 1 size then
    match buildPhrase tokens index size with
    | None => counts
    | Some ph => bump counts (getCanonicalKey ph)
    end
  else bump counts (getCanonicalKey (nth 0 slice [])).

Definition buildNgramCounts (tokens : list jsstring) (size : nat)
    : JsMap.t Z :=
  fold_left (ngramStep tokens size)
    (seq 0 (List.length tokens + 1 - size)) [].

Definition hitsOf (unigramCounts bigramCounts trigramCounts : JsMap.t Z)
    (kw : KeywordInsight) : Z :=
  let tokenLength := List.length (splitSpace (canonical kw)) in
  let sourceCounts :=
    if Nat.eqb tokenLength 1 then unigramCounts
    else if Nat.eqb tokenLength 2 then bigramCounts
    else trigramCounts in
  match JsMap.get sourceCounts (canonical kw) with
  | Some n => n
  | None => 0%Z
  end.

Definition toMatch (unigramCounts bigramCounts trigramCounts : JsMap.t Z)
    (kw : KeywordInsight) : KeywordMatch :=
  mkMatch (canonical kw) (label kw) (occurrences kw)
    (hitsOf unigramCounts bigramCounts trigramCounts kw)
    (importance kw) (section kw) (source kw).

Definition keywordMatchesOf (resumeText : jsstring)
    (keywords : list KeywordInsight) : list KeywordMatch :=
  let resumeTokens := tokenize resumeText in
  map (toMatch (buildNgramCounts resumeTokens 1)
         (buildNgramCounts resumeTokens 2)
         (buildNgramCounts resumeTokens 3)) keywords.

Definition isMatched (m : KeywordMatch) : bool := Z.ltb 0 (resumeHits m).
Definition isMissing (m : KeywordMatch) : bool := Z.eqb (resumeHits m) 0.

Definition sumQ (l : list Q) : Q := fold_left Qplus l 0.

(** [x || 1] *)
Definition orOne (x : Q) : Q := if Qeq_bool x 0 then 1 else x.

Definition totalImportanceOf (keywords : list KeywordInsight) : Q :=
  orOne (sumQ (map importance keywords)).

Definition coverageScoreOf (keywords : list KeywordInsight)
    (matched : list KeywordMatch) : Q :=
  sumQ (map mImportance matched) / totalImportanceOf keywords.

Definition densityTerm (m : KeywordMatch) : Q :=
  Qmin (inject_Z (resumeHits m) / inject_Z (Z.max (jdOccurrences m) 1)) 1.

Definition densityScoreOf (keywords : list KeywordInsight)
    (matched : list KeywordMatch) : Q :=
  sumQ (map densityTerm matched)
  / QofNat (Nat.max (List.length keywords) 1).

Definition breadthScoreOf (keywords : list KeywordInsight)
    (matched : list KeywordMatch) : Q :=
  QofNat (List.length matched) / QofNat (Nat.max (List.length keywords) 1).

Definition finalScoreOf (coverageScore densityScore breadthScore : Q) : Z :=
  mathRound
    ((coverageScore * (6 # 10) + densityScore * (3 # 10)
      + breadthScore * (1 # 10)) * 100).

Definition showZ (z : Z) : jsstring :=
  str (DecimalString.NilEmpty.string_of_int (Z.to_int z)).

Definition buildSummary (coverageScore densityScore breadthScore : Q)
    : jsstring :=
  let coveragePct := mathRound (coverageScore * 100) in
  let densityPct := mathRound (densityScore * 100) in
  let breadthPct := mathRound (breadthScore * 100) in
  str "Coverage " ++ showZ coveragePct ++ str "%, depth " ++ showZ densityPct
  ++ str "%, breadth " ++ showZ breadthPct ++ str "% vs JD priorities.".

Definition describePriority (tier : RequirementTier) : jsstring :=
  match tier with
  | core => str "Must-have"
  | responsibility => str "Role scope"
  | preferred => str "Preferred"
  | general => str "General"
  end.

(** The two message templates.  The middle dot of [detail] is the code
    unit 183; the dash of the second [action], which is outside Latin-1,
    is kept as the bytes of the source file.  The weight rounds the exact
    product; no statement of this file is about its value or about the
    text of a message. *)
Definition suggestionOf (kind : SuggestionType) (m : KeywordMatch)
    : SuggestionInsight :=
  let w := mathRound (mImportance m * 100) in
  mkSuggestion (mCanonical m) (mLabel m) (mSection m) w kind
    (match kind with
     | add =>
         str "Add proof points for " ++ mLabel m
         ++ str " covering scope, systems/tools, stakeholders, and measurable HR impact."
     | expand =>
         str "Deepen the story for " ++ mLabel m
         ++ str " to mirror JD emphasis—mention scope, HR tech stack, and outcomes."
     end)
    (describePriority (mSection m) ++ str " priority "
     ++ ascii_of_N 183 :: str " JD weight " ++ showZ w ++ str "%").

Definition buildSuggestions (missing matched : list KeywordMatch)
    : list SuggestionInsight :=
  let prioritizedMissing :=
    sliceTo
      (stableSort (fun a b => Qltb 0 (mImportance b - mImportance a)) missing)
      5 in
  let enrichmentTargets :=
    sliceTo
      (filter (fun m => (Z.ltb 0 (resumeHits m)
                         && Z.ltb (resumeHits m) (jdOccurrences m))%bool)
         matched)
      2 in
  map (suggestionOf add) prioritizedMissing
  ++ map (suggestionOf expand) enrichmentTargets.

Definition analyzeResume (resumeText : jsstring)
    (keywords : list KeywordInsight) : ResumeAnalysis :=
  let keywordMatches := keywordMatchesOf resumeText keywords in
  let matched := filter isMatched keywordMatches in
  let missing := filter isMissing keywordMatches in
  let coverageScore := coverageScoreOf keywords matched in
  let densityScore := densityScoreOf keywords matched in
  let breadthScore := breadthScoreOf keywords matched in
  let finalScore := finalScoreOf coverageScore densityScore breadthScore in
  mkAnalysis (Z.min finalScore 100) matched missing
    (buildSummary coverageScore densityScore breadthScore)
    (buildSuggestions missing matched).

(* ================================================================== *)
(** ** Prompt payloads: truncateForModel *)

Definition defaultMaxChars : Z := 3500.

Definition truncateForModel (text : jsstring) (maxChars : Z) : jsstring :=
  if Z.leb (Z.of_nat (List.length text)) maxChars then text
  else sliceTo text maxChars ++ str "... [truncated]".

(* ================================================================== *)
(** ** The application: interview questions *)

Record InterviewQuestion := mkQuestion {
  question : jsstring;
  answer : jsstring
}.

Definition PRIORITY_DESCRIPTIONS (tier : RequirementTier) : jsstring :=
  match tier with
  | core => str "must-have"
  | responsibility => str "role scope"
  | preferred => str "preferred"
  | general => str "baseline"
  end.

(** [templates[index % templates.length](keyword)]; punctuation outside
    Latin-1 is kept as the bytes of the source file. *)
Definition templateAt (index : nat) (keyword : KeywordInsight)
    : InterviewQuestion :=
  match Nat.modulo index 4 with
  | 0%nat =>
      mkQuestion
        (str "Walk me through a project where " ++ label keyword
         ++ str " was central to the outcome.")
        (str "Expect end-to-end storytelling that proves depth in "
         ++ label keyword ++ str " — a "
         ++ PRIORITY_DESCRIPTIONS (section keyword)
         ++ str " priority in the JD — including stakeholders, systems, and measurable results.")
  | 1%nat =>
      mkQuestion
        (str "How do you ensure " ++ label keyword
         ++ str " stays aligned with secure and scalable engineering practices?")
        (str "Listen for patterns, design reviews, or governance tied to "
         ++ label keyword ++ str " that mirror JD expectations.")
  | 2%nat =>
      mkQuestion
        (str "Describe a time you troubleshot a critical issue involving "
         ++ label keyword ++ str ".")
        (str "Look for root-cause rigor, cross-team coordination, and resolution speed.")
  | _ =>
      mkQuestion
        (str "What metrics do you monitor to prove success with "
         ++ label keyword ++ str "?")
        (str "Candidate should cite dashboards, SLAs, or adoption metrics anchored to JD priorities.")
  end.

Definition generalPrompts : list InterviewQuestion :=
  [ mkQuestion
      (str "How do you keep requirements, agile commitments, and stakeholders aligned during delivery?")
      (str "Expect a playbook covering prioritization, sprint rituals, and escalation paths tied to the JD context.");
    mkQuestion
      (str "Share an example of mentoring or elevating team capability in a distributed environment.")
      (str "Look for structured coaching, documentation, or enablement moments aligned to leadership expectations.");
    mkQuestion
      (str "What is your approach to documenting architecture decisions and technical debt pay-down?")
      (str "Answers should mention ADRs, backlog hygiene, and quantifiable impact on release quality.");
    mkQuestion
      (str "How do you evaluate third-party tools or platforms before adopting them for the team?")
      (str "Candidates should outline ROI analysis, security/compliance checks, and rollout strategies.") ].

Definition currencyQuestion (keyword : KeywordInsight) : InterviewQuestion :=
  mkQuestion
    (str "How do you keep your " ++ label keyword ++ str " expertise current?")
    (str "Listen for continuous learning tied to " ++ label keyword
     ++ str ", such as certifications, labs, or mentoring.").

(** [prioritized.forEach((keyword, index) => ...)] *)
Fixpoint templateQuestions (index : nat) (prioritized : list KeywordInsight)
    : list InterviewQuestion :=
  match prioritized with
  | [] => []
  | keyword :: rest =>
      templateAt index keyword :: templateQuestions (S index) rest
  end.

(** The [while (questions.length < 10)] loop, at most [fuel] rounds;
    [k0] stands for an index out of range, which does not occur. *)
Fixpoint fillQuestions (fuel : nat) (k0 : KeywordInsight)
    (keywords : list KeywordInsight) (questions : list InterviewQuestion)
    : list InterviewQuestion :=
  match fuel with
  | O => questions
  | S fuel' =>
      if Nat.ltb (List.length questions) 10 then
        fillQuestions fuel' k0 keywords
          (questions ++
             [ currencyQuestion
                 (nth (Nat.modulo (List.length questions)
                         (List.length keywords)) keywords k0) ])
      else questions
  end.

Definition interviewQuestionsWithin (fuel : nat)
    (keywords : list KeywordInsight) : list InterviewQuestion :=
  match keywords with
  | [] => []
  | k0 :: _ =>
      let prioritized := sliceTo keywords 6 in
      let questions := templateQuestions 0 prioritized ++ generalPrompts in
      sliceTo (fillQuestions fuel k0 keywords questions) 10
  end.

Definition buildFallbackInterviewQuestions (keywords : list KeywordInsight)
    : list InterviewQuestion :=
  interviewQuestionsWithin 10 keywords.

(* ================================================================== *)
(** ** The application: capability cards *)

Inductive CapabilityId := technical | delivery | communication.

Definition capEqb (a b : CapabilityId) : bool :=
  match a, b with
  | technical, technical | delivery, delivery
  | communication, communication => true
  | _, _ => false
  end.

Record CapabilityInsight := mkCapability {
  capId : CapabilityId;
  capTitle : jsstring;
  capScore : Q;
  capSummary : jsstring;
  strengths : list jsstring;
  gaps : list jsstring
}.

Definition DELIVERY_HINTS : list jsstring := map str
  [ "delivery"; "deliver"; "execution"; "execute"; "agile"; "scrum";
    "sprint"; "project"; "jira"; "deployment"; "ci/cd"; "system";
    "operations"; "ops"; "monitoring"; "automation"; "process";
    "documentation" ]%string.

Definition COMMUNICATION_HINTS : list jsstring := map str
  [ "communicat"; "stakeholder"; "lead"; "mentor"; "collaborat"; "team";
    "presentation"; "coaching"; "partner"; "relationship";
    "cross-functional"; "facilitat"; "manager" ]%string.

Definition CAPABILITY_METADATA : list (CapabilityId * jsstring) :=
  [ (technical, str "Technical & Engineering Expertise");
    (delivery, str "Delivery, Execution & Systems Knowledge");
    (communication, str "Communication, Leadership & Collaboration") ].

Fixpoint startsWith (s p : jsstring) : bool :=
  match p, s with
  | [], _ => true
  | _ :: _, [] => false
  | y :: p', x :: s' => (Ascii.eqb x y && startsWith s' p')%bool
  end.

(** [s.includes(p)] *)
Fixpoint includes (s p : jsstring) : bool :=
  (startsWith s p
   || match s with
      | [] => false
      | _ :: s' => includes s' p
      end)%bool.

Definition hasHint (hints : list jsstring) (normalized : jsstring) : bool :=
  existsb (fun hint => includes normalized hint) hints.

Definition mapMatchToCapability (m : KeywordMatch) : CapabilityId :=
  let normalized := toLowerCase (mLabel m ++ SP :: mCanonical m) in
  if (hasHint COMMUNICATION_HINTS normalized
      || tierEqb (mSection m) general)%bool
  then communication
  else if (hasHint DELIVERY_HINTS normalized
           || tierEqb (mSection m) responsibility)%bool
  then delivery
  else technical.

Definition categorizeTextCapability (text : jsstring) : CapabilityId :=
  let normalized := toLowerCase text in
  if hasHint COMMUNICATION_HINTS normalized then communication
  else if hasHint DELIVERY_HINTS normalized then delivery
  else technical.

Definition summarizeCapabilityScore (score : Q) (title : jsstring)
    : jsstring :=
  if Qgeb score 70 then
    str "Resume strongly supports " ++ toLowerCase title ++ str "."
  else if Qgeb score 40 then
    str "Partial coverage for " ++ toLowerCase title
    ++ str " — expand with JD specifics."
  else if Qltb 0 score then
    str "Only light signals for " ++ toLowerCase title ++ str " found."
  else
    str "No evidence of " ++ toLowerCase title ++ str " detected in the resume.".

Record Bucket := mkBucket {
  bTotal : Q;
  bMatched : Q;
  bStrengths : list jsstring;
  bGaps : list jsstring
}.

Record Tracker := mkTracker {
  trTechnical : Bucket;
  trDelivery : Bucket;
  trCommunication : Bucket
}.

Definition bucketOf (tr : Tracker) (id : CapabilityId) : Bucket :=
  match id with
  | technical => trTechnical tr
  | delivery => trDelivery tr
  | communication => trCommunication tr
  end.

Definition setBucket (tr : Tracker) (id : CapabilityId) (b : Bucket)
    : Tracker :=
  match id with
  | technical => mkTracker b (trDelivery tr) (trCommunication tr)
  | delivery => mkTracker (trTechnical tr) b (trCommunication tr)
  | communication => mkTracker (trTechnical tr) (trDelivery tr) b
  end.

(** [if (list.length < bound && !list.includes(text)) list.push(text)] *)
Definition pushBounded (bound : nat) (l : list jsstring) (text : jsstring)
    : list jsstring :=
  if (Nat.ltb (List.length l) bound && negb (setHas l text))%bool
  then l ++ [text] else l.

Definition trackMatched (tr : Tracker) (m : KeywordMatch) : Tracker :=
  let id := mapMatchToCapability m in
  let b := bucketOf tr id in
  setBucket tr id
    (mkBucket (bTotal b + mImportance m) (bMatched b + mImportance m)
       (pushBounded 3 (bStrengths b)
          (mLabel m ++ str " (" ++ showZ (resumeHits m) ++ str " hits)"))
       (bGaps b)).

Definition trackMissing (tr : Tracker) (m : KeywordMatch) : Tracker :=
  let id := mapMatchToCapability m in
  let b := bucketOf tr id in
  setBucket tr id
    (mkBucket (bTotal b + mImportance m) (bMatched b) (bStrengths b)
       (pushBounded 3 (bGaps b) (mLabel m))).

Definition emptyBucket : Bucket := mkBucket 0 0 [] [].

Definition trackAnalysis (analysis : ResumeAnalysis) : Tracker :=
  fold_left trackMissing (missingKeywords analysis)
    (fold_left trackMatched (matchedKeywords analysis)
       (mkTracker emptyBucket emptyBucket emptyBucket)).

Definition bucketScore (data : Bucket) : Q :=
  if Qeq_bool (bTotal data) 0 then 0
  else inject_Z (mathRound (bMatched data / bTotal data * 100)).

Definition buildFallbackCapabilities (analysis : ResumeAnalysis)
    : list CapabilityInsight :=
  let tracker := trackAnalysis analysis in
  map (fun meta =>
         let data := bucketOf tracker (fst meta) in
         let score0 := bucketScore data in
         mkCapability (fst meta) (snd meta) score0
           (summarizeCapabilityScore score0 (snd meta))
           (bStrengths data) (bGaps data))
    CAPABILITY_METADATA.

(* ================================================================== *)
(** ** Binary64 numbers *)

(** A JavaScript number as the format has it: not-a-number, the two
    infinities, or a finite value.  A finite value is carried as the exact
    rational it denotes, in lowest terms; the sign of a zero is not
    represented (no operation modelled here divides by a zero that an
    earlier operation could have made negative). *)
Inductive double := NaN | PInf | NInf | Fin (q : Q).

Definition pow2 (k : Z) : Q := 2 ^ k.

(** The integer nearest to [s], halves going to the even neighbour. *)
Definition rne (s : Q) : Z :=
  let f := Qfloor s in
  match Qcompare (s - inject_Z f) (1 # 2) with
  | Lt => f
  | Gt => (f + 1)%Z
  | Eq => if Z.even f then f else (f + 1)%Z
  end.

(** For [0 < q], the exponent [e] with [2 ^ e <= q < 2 ^ (e + 1)]. *)
Definition ilog2 (q : Q) : Z :=
  let k := (Z.log2 (Qnum q) - Z.log2 (Zpos (Qden q)))%Z in
  if Qle_bool (pow2 k) q then k else (k - 1)%Z.

(** Rounding of a positive real to the format: 53 significant bits, the
    unit in the last place never below [2 ^ -1074], ties to even, and
    infinity from [2 ^ 1024] on. *)
Definition roundPos (q : Q) : double :=
  let u := Z.max (ilog2 q - 52) (-1074) in
  let v := inject_Z (rne (q / pow2 u)) * pow2 u in
  if Qle_bool (pow2 1024) v then PInf else Fin (Qred v).

Definition fneg (x : double) : double :=
  match x with
  | NaN => NaN
  | PInf => NInf
  | NInf => PInf
  | Fin q => Fin (- q)
  end.

(** The number nearest to the real [q]; also the value of a decimal
    literal and of [Number(s)] for a decimal string [s]. *)
Definition round64 (q : Q) : double :=
  match Qcompare q 0 with
  | Eq => Fin 0
  | Gt => roundPos q
  | Lt => fneg (roundPos (- q))
  end.

(** A count (an array length, a [Map] value that is incremented by one)
    enters the arithmetic exactly: it is below [2 ^ 32]. *)
Definition ofZ (z : Z) : double := Fin (inject_Z z).
Definition ofNat (n : nat) : double := ofZ (Z.of_nat n).

(** [x + y] *)
Definition fadd (x y : double) : double :=
  match x, y with
  | NaN, _ | _, NaN => NaN
  | PInf, NInf | NInf, PInf => NaN
  | PInf, _ | _, PInf => PInf
  | NInf, _ | _, NInf => NInf
  | Fin a, Fin b => round64 (a + b)
  end.

(** [x - y] *)
Definition fsub (x y : double) : double := fadd x (fneg y).

(** [x * y] *)
Definition fmul (x y : double) : double :=
  match x, y with
  | NaN, _ | _, NaN => NaN
  | Fin a, Fin b => round64 (a * b)
  | Fin a, PInf | PInf, Fin a =>
      match Qcompare a 0 with Eq => NaN | Gt => PInf | Lt => NInf end
  | Fin a, NInf | NInf, Fin a =>
      match Qcompare a 0 with Eq => NaN | Gt => NInf | Lt => PInf end
  | PInf, PInf | NInf, NInf => PInf
  | PInf, NInf | NInf, PInf => NInf
  end.

(** [x / y] *)
Definition fdiv (x y : double) : double :=
  match x, y with
  | NaN, _ | _, NaN => NaN
  | Fin a, Fin b =>
      match Qcompare b 0 with
      | Eq => match Qcompare a 0 with Eq => NaN | Gt => PInf | Lt => NInf end
      | _ => round64 (a / b)
      end
  | Fin _, _ => Fin 0
  | PInf, Fin b => match Qcompare b 0 with Lt => NInf | _ => PInf end
  | NInf, Fin b => match Qcompare b 0 with Lt => PInf | _ => NInf end
  | _, _ => NaN
  end.

(** [x < y] *)
Definition flt (x y : double) : bool :=
  match x, y with
  | NaN, _ | _, NaN => false
  | _, NInf | PInf, _ => false
  | NInf, _ | _, PInf => true
  | Fin a, Fin b => Qltb a b
  end.

(** [x <= y] *)
Definition fle (x y : double) : bool :=
  match x, y with
  | NaN, _ | _, NaN => false
  | NInf, _ | _, PInf => true
  | _, NInf | PInf, _ => false
  | Fin a, Fin b => Qle_bool a b
  end.

(** [x === y] *)
Definition feq (x y : double) : bool :=
  match x, y with
  | PInf, PInf | NInf, NInf => true
  | Fin a, Fin b => Qeq_bool a b
  | _, _ => false
  end.

(** [Math.min(x, y)] and [Math.max(x, y)] *)
Definition fmin (x y : double) : double :=
  match x, y with
  | NaN, _ | _, NaN => NaN
  | _, _ => if flt y x then y else x
  end.

Definition fmax (x y : double) : double :=
  match x, y with
  | NaN, _ | _, NaN => NaN
  | _, _ => if flt x y then y else x
  end.

(** [Math.floor], [Math.ceil] and [Math.round] (halves going up). *)
Definition ffloor (x : double) : double :=
  match x with Fin q => ofZ (Qfloor q) | _ => x end.

Definition fceil (x : double) : double :=
  match x with Fin q => ofZ (Qceiling q) | _ => x end.

Definition fround (x : double) : double :=
  match x with Fin q => ofZ (Qfloor (q + (1 # 2))) | _ => x end.

(** [Number(x.toFixed(3))]: the decimal with three digits nearest to the
    value of [x], halves going away from zero, read back as a number; from
    [10 ^ 21] on [toFixed] prints the number itself. *)
Definition ffixed3 (x : double) : double :=
  match x with
  | Fin q =>
      if (Qle_bool (inject_Z (10 ^ 21)) q
          || Qle_bool q (inject_Z (- 10 ^ 21)))%bool then x
      else if Qltb q 0
           then fneg (round64 (Qfloor ((- q) * 1000 + (1 # 2)) # 1000))
           else round64 (Qfloor (q * 1000 + (1 # 2)) # 1000)
  | _ => x
  end.

(** The truth value of [x]: zero and not-a-number are falsy. *)
Definition ftruthy (x : double) : bool :=
  match x with
  | NaN => false
  | Fin q => negb (Qeq_bool q 0)
  | _ => true
  end.

(** [x || 1]: zero and not-a-number are falsy. *)
Definition forOne (x : double) : double :=
  match x with
  | NaN => Fin 1
  | Fin q => if Qeq_bool q 0 then Fin 1 else x
  | _ => x
  end.

(** [values.reduce((sum, x) => sum + x, 0)] *)
Definition fsum (l : list double) : double := fold_left fadd l (Fin 0).

(** *** The specification of the Standard Library

    [SpecFloat] specifies the operations of the format on mantissas and
    exponents.  [ofSpec] reads one of its numbers as a [double]; the
    operations above are compared with the specified ones on [samples]. *)
Definition ofSpec (s : SpecFloat.spec_float) : double :=
  match s with
  | SpecFloat.S754_zero _ => Fin 0
  | SpecFloat.S754_infinity false => PInf
  | SpecFloat.S754_infinity true => NInf
  | SpecFloat.S754_nan => NaN
  | SpecFloat.S754_finite neg m e =>
      Fin (Qred ((if neg then - (1) else 1) * inject_Z (Zpos m) * pow2 e))
  end.

(** Mantissa and exponent of 0.1, 0.3, 1.2, 0.8, 0.7, 1.05, 1.15, 0.575,
    0.6125, 0.005, 1, 100, 1e308, the largest number, the smallest number,
    the smallest normal number, 1e-310 and 2 ^ 53. *)
Definition sampleBits : list (Z * Z) :=
  [ (7205759403792794, -56); (5404319552844595, -54);
    (5404319552844595, -52); (7205759403792794, -53);
    (6305039478318694, -53); (4728779608739021, -52);
    (5179139571476070, -52); (5179139571476070, -53);
    (5516909543528858, -53); (5764607523034235, -60);
    (4503599627370496, -52); (7036874417766400, -46);
    (5010420900022432, 971); (9007199254740991, 971); (1, -1074);
    (4503599627370496, -1074); (20240225330731, -1074);
    (4503599627370496, 1) ]%Z.

Definition samples : list SpecFloat.spec_float :=
  SpecFloat.S754_zero false
  :: SpecFloat.S754_infinity false
  :: SpecFloat.S754_nan
  :: SpecFloat.S754_finite true 5404319552844595 (-54)
  :: SpecFloat.S754_finite true 5010420900022432 971
  :: map (fun b => SpecFloat.S754_finite false (Z.to_pos (fst b)) (snd b))
       sampleBits.

Definition sameNumber (x y : double) : bool :=
  match x, y with
  | NaN, NaN | PInf, PInf | NInf, NInf => true
  | Fin a, Fin b => Qeq_bool a b
  | _, _ => false
  end.

(** The second operands: zero, infinity, not-a-number, -0.3, 0.1, 0.7,
    1.05, 1e308 and the smallest number. *)
Definition operands : list SpecFloat.spec_float :=
  firstn 4 samples
  ++ map (fun i => nth i samples SpecFloat.S754_nan) [5; 9; 10; 17; 19]%nat.

Definition agree2
    (spec : Z -> Z -> SpecFloat.spec_float -> SpecFloat.spec_float
            -> SpecFloat.spec_float)
    (model : double -> double -> double) : bool :=
  forallb
    (fun a =>
       forallb
         (fun b =>
            sameNumber (ofSpec (spec 53 1024 a b))%Z
              (model (ofSpec a) (ofSpec b)))
         operands)
    samples.

Definition agreeTest
    (spec : SpecFloat.spec_float -> SpecFloat.spec_float -> bool)
    (model : double -> double -> bool) : bool :=
  forallb
    (fun a =>
       forallb
         (fun b => Bool.eqb (spec a b) (model (ofSpec a) (ofSpec b)))
         operands)
    samples.

(** The literals of the engine. *)
Definition d0_1 : double := Eval vm_compute in round64 (1 # 10).
Definition d0_25 : double := Eval vm_compute in round64 (25 # 100).
Definition d0_3 : double := Eval vm_compute in round64 (3 # 10).
Definition d0_35 : double := Eval vm_compute in round64 (35 # 100).
Definition d0_4 : double := Eval vm_compute in round64 (4 # 10).
Definition d0_45 : double := Eval vm_compute in round64 (45 # 100).
Definition d0_6 : double := Eval vm_compute in round64 (6 # 10).
Definition d0_7 : double := Eval vm_compute in round64 (7 # 10).
Definition d0_8 : double := Eval vm_compute in round64 (8 # 10).
Definition d1_05 : double := Eval vm_compute in round64 (105 # 100).
Definition d1_1 : double := Eval vm_compute in round64 (11 # 10).
Definition d1_15 : double := Eval vm_compute in round64 (115 # 100).
Definition d1_2 : double := Eval vm_compute in round64 (12 # 10).

(* ================================================================== *)
(** ** The engine on binary64 numbers *)

(** [extractKeywords] and the score of [analyzeResume] once more, with the
    arithmetic of the number format in place of exact arithmetic: the same
    control flow over the same strings, maps and sets. *)
Module Binary64.

Record KeywordInsight := mkKeywordInsight {
  canonical : jsstring;
  label : jsstring;
  occurrences : double;
  importance : double;
  section : RequirementTier;
  source : KeywordSource;
  variants : list jsstring;
  coverage : double
}.

Record TierWeights := mkTierWeights {
  wCore : double;
  wResponsibility : double;
  wPreferred : double;
  wGeneral : double
}.

Record KeywordStats := mkStats {
  stCanonical : jsstring;
  stOccurrences : Z;
  weightedOccurrences : double;
  sectionWeights : TierWeights;
  stSource : KeywordSource;
  stVariants : list jsstring;
  surfaces : JsMap.t Z;
  fragmentIds : list nat
}.

Record KeywordMatch := mkMatch {
  mCanonical : jsstring;
  mLabel : jsstring;
  jdOccurrences : double;
  resumeHits : Z;
  mImportance : double;
  mSection : RequirementTier;
  mSource : KeywordSource
}.

Definition SECTION_WEIGHTS (tier : RequirementTier) : double :=
  match tier with
  | core => d1_2
  | responsibility => Fin 1
  | preferred => d0_8
  | general => d0_7
  end.

Definition zeroWeights : TierWeights :=
  mkTierWeights (Fin 0) (Fin 0) (Fin 0) (Fin 0).

Definition addWeight (w : TierWeights) (tier : RequirementTier) (x : double)
    : TierWeights :=
  match tier with
  | core =>
      mkTierWeights (fadd (wCore w) x) (wResponsibility w) (wPreferred w)
        (wGeneral w)
  | responsibility =>
      mkTierWeights (wCore w) (fadd (wResponsibility w) x) (wPreferred w)
        (wGeneral w)
  | preferred =>
      mkTierWeights (wCore w) (wResponsibility w) (fadd (wPreferred w) x)
        (wGeneral w)
  | general =>
      mkTierWeights (wCore w) (wResponsibility w) (wPreferred w)
        (fadd (wGeneral w) x)
  end.

Definition recordTerm (t : jsstring) (src : KeywordSource)
    (tier : RequirementTier) (w : double) (fragmentId : nat)
    (statsMap : JsMap.t KeywordStats) : JsMap.t KeywordStats :=
  let normalized := normalizeTerm t in
  if (negb (truthy normalized) || Nat.ltb (List.length normalized) 3)%bool
  then statsMap
  else if isGenericTerm normalized then statsMap
  else
    let synonymInfo := JsMap.get SYNONYM_LOOKUP normalized in
    let canonical0 :=
      match synonymInfo with Some i => synCanonical i | None => normalized end in
    let variants0 :=
      setAdd (uniqueStrings
                (match synonymInfo with
                 | Some i => synVariants i
                 | None => [canonical0]
                 end)) normalized in
    let stats :=
      match JsMap.get statsMap canonical0 with
      | Some existing => existing
      | None => mkStats canonical0 0 (Fin 0) zeroWeights src [] [] []
      end in
    JsMap.set statsMap canonical0
      (mkStats (stCanonical stats)
         (stOccurrences stats + 1)
         (fadd (weightedOccurrences stats) w)
         (addWeight (sectionWeights stats) tier w)
         (orPhrase (stSource stats) src)
         (fold_left setAdd variants0 (stVariants stats))
         (JsMap.set (surfaces stats) t
            (match JsMap.get (surfaces stats) t with
             | Some n => n | None => 0 end + 1)%Z)
         (idAdd (fragmentIds stats) fragmentId)).

Definition collectTokens (tokens : list jsstring) (tier : RequirementTier)
    (fragmentId : nat) (statsMap : JsMap.t KeywordStats)
    : JsMap.t KeywordStats :=
  let w := SECTION_WEIGHTS tier in
  fold_left
    (fun m token =>
       if shouldKeepToken token then recordTerm token term tier w fragmentId m
       else m)
    tokens statsMap.

Definition collectPhrases (tokens : list jsstring) (tier : RequirementTier)
    (fragmentId : nat) (statsMap : JsMap.t KeywordStats)
    : JsMap.t KeywordStats :=
  let w := SECTION_WEIGHTS tier in
  fold_left
    (fun m index =>
       let m1 :=
         match buildPhrase tokens index 2 with
         | Some bigram =>
             recordTerm bigram phrase tier (fmul w d1_1) fragmentId m
         | None => m
         end in
       match buildPhrase tokens index 3 with
       | Some trigram =>
           recordTerm trigram phrase tier (fmul w d1_15) fragmentId m1
       | None => m1
       end)
    (seq 0 (List.length tokens)) statsMap.

(** [Object.entries(sectionWeights)] *)
Definition tierEntries (w : TierWeights) : list (RequirementTier * double) :=
  [ (core, wCore w); (responsibility, wResponsibility w);
    (preferred, wPreferred w); (general, wGeneral w) ].

(** A comparator [(a, b) => key(b) - key(a)] is positive when the
    difference is; a difference that is not a number counts as zero. *)
Definition descBy (A : Type) (key : A -> double) (a b : A) : bool :=
  flt (Fin 0) (fsub (key b) (key a)).

Definition getDominantSection (w : TierWeights) : RequirementTier :=
  match stableSort (descBy snd) (tierEntries w) with
  | e :: _ => fst e
  | [] => general
  end.

Definition selectDisplayLabel (stats : KeywordStats) : jsstring :=
  let sorted :=
    stableSort (fun a b => Z.ltb 0 (snd b - snd a)) (surfaces stats) in
  let label0 :=
    match sorted with
    | e :: _ => fst e
    | [] => stCanonical stats
    end in
  replaceRuns isSpace false label0.

(** [values[i]] for a number [i]; outside the array the source reads
    [undefined], which its only caller turns into not-a-number. *)
Definition at64 (values : list double) (i : double) : double :=
  match i with
  | Fin q =>
      if (Qeq_bool q (inject_Z (Qfloor q)) && Z.leb 0 (Qfloor q))%bool
      then nth (Z.to_nat (Qfloor q)) values NaN
      else NaN
  | _ => NaN
  end.

Definition computePercentile (values : list double) (percentile : double)
    : double :=
  match values with
  | [] => Fin 0
  | _ =>
      let index := fmul (ofZ (Z.of_nat (List.length values) - 1)) percentile in
      let lower := ffloor index in
      let upper := fceil index in
      if feq lower upper then at64 values lower
      else
        let wgt := fsub index lower in
        fadd (fmul (at64 values lower) (fsub (Fin 1) wgt))
          (fmul (at64 values upper) wgt)
  end.

Definition collectFragment (statsMap : JsMap.t KeywordStats)
    (fragment : SectionFragment) : JsMap.t KeywordStats :=
  let tokens := tokenize (content fragment) in
  match tokens with
  | [] => statsMap
  | _ =>
      collectPhrases tokens (fragSection fragment) (fragId fragment)
        (collectTokens tokens (fragSection fragment) (fragId fragment)
           statsMap)
  end.

Definition collectStats (text : jsstring) : JsMap.t KeywordStats :=
  fold_left collectFragment (splitIntoFragments text) [].

(** [Math.max(x, ...xs)] *)
Definition mathMax (x : double) (xs : list double) : double :=
  fold_left fmax xs x.

Definition phraseBoost (src : KeywordSource) : double :=
  match src with phrase => d1_05 | term => Fin 1 end.

Definition importanceOf (maxWeighted : double) (stat : KeywordStats)
    : double :=
  ffixed3
    (fmin
       (fmul
          (fmul (fdiv (weightedOccurrences stat) maxWeighted)
             (SECTION_WEIGHTS (getDominantSection (sectionWeights stat))))
          (phraseBoost (stSource stat)))
       (Fin 1)).

Definition toInsight (totalFragments : nat) (maxWeighted : double)
    (stat : KeywordStats) : KeywordInsight :=
  mkKeywordInsight
    (stCanonical stat)
    (selectDisplayLabel stat)
    (ofZ (stOccurrences stat))
    (importanceOf maxWeighted stat)
    (getDominantSection (sectionWeights stat))
    (stSource stat)
    (stableSort strGt (stVariants stat))
    (fdiv (ofNat (List.length (fragmentIds stat))) (ofNat totalFragments)).

Definition rankKeywords (totalFragments : nat)
    (statsArray : list KeywordStats) : list KeywordInsight :=
  match statsArray with
  | [] => []
  | s0 :: rest =>
      let maxWeighted :=
        mathMax (weightedOccurrences s0) (map weightedOccurrences rest) in
      stableSort (descBy importance)
        (map (toInsight totalFragments maxWeighted) statsArray)
  end.

Definition coverageThreshold : double := d0_45.

Definition coverageKeep (keyword : KeywordInsight) : bool :=
  (fle (coverage keyword) coverageThreshold
   || fle d0_4 (importance keyword))%bool.

Definition coverageStage (keywords : list KeywordInsight)
    : list KeywordInsight :=
  if Nat.ltb 10 (List.length keywords) then
    let coverageFiltered := filter coverageKeep keywords in
    if Nat.leb 5 (List.length coverageFiltered) then coverageFiltered
    else keywords
  else keywords.

Definition importanceThresholdOf (refined : list KeywordInsight) : double :=
  let importanceValues :=
    stableSort (fun a b => flt (Fin 0) (fsub a b)) (map importance refined) in
  let percentileFloor := computePercentile importanceValues d0_25 in
  fmax percentileFloor d0_25.

Definition percentileStage (refined : list KeywordInsight)
    : list KeywordInsight :=
  if Nat.ltb 12 (List.length refined) then
    let importanceThreshold := importanceThresholdOf refined in
    let percentileFiltered :=
      filter (fun kw => fle importanceThreshold (importance kw)) refined in
    if Nat.leb 5 (List.length percentileFiltered) then percentileFiltered
    else refined
  else refined.

Definition refineKeywords (keywords : list KeywordInsight)
    : list KeywordInsight :=
  let refined := percentileStage (coverageStage keywords) in
  match refined with
  | [] => keywords
  | _ => refined
  end.

Definition candidateKeywords (text : jsstring) : list KeywordInsight :=
  let fragments := splitIntoFragments text in
  let totalFragments := Nat.max (List.length fragments) 1 in
  rankKeywords totalFragments (JsMap.values (collectStats text)).

Definition extractKeywords (text : jsstring) (limit : Z)
    : list KeywordInsight :=
  match JsMap.values (collectStats text) with
  | [] => []
  | _ => sliceTo (refineKeywords (candidateKeywords text)) limit
  end.

(** *** The score of [analyzeResume] *)

Definition hitsOf (unigramCounts bigramCounts trigramCounts : JsMap.t Z)
    (kw : KeywordInsight) : Z :=
  let tokenLength := List.length (splitSpace (canonical kw)) in
  let sourceCounts :=
    if Nat.eqb tokenLength 1 then unigramCounts
    else if Nat.eqb tokenLength 2 then bigramCounts
    else trigramCounts in
  match JsMap.get sourceCounts (canonical kw) with
  | Some n => n
  | None => 0%Z
  end.

Definition toMatch (unigramCounts bigramCounts trigramCounts : JsMap.t Z)
    (kw : KeywordInsight) : KeywordMatch :=
  mkMatch (canonical kw) (label kw) (occurrences kw)
    (hitsOf unigramCounts bigramCounts trigramCounts kw)
    (importance kw) (section kw) (source kw).

Definition keywordMatchesOf (resumeText : jsstring)
    (keywords : list KeywordInsight) : list KeywordMatch :=
  let resumeTokens := tokenize resumeText in
  map (toMatch (buildNgramCounts resumeTokens 1)
         (buildNgramCounts resumeTokens 2)
         (buildNgramCounts resumeTokens 3)) keywords.

Definition isMatched (m : KeywordMatch) : bool := Z.ltb 0 (resumeHits m).
Definition isMissing (m : KeywordMatch) : bool := Z.eqb (resumeHits m) 0.

Definition totalImportanceOf (keywords : list KeywordInsight) : double :=
  forOne (fsum (map importance keywords)).

Definition coverageScoreOf (keywords : list KeywordInsight)
    (matched : list KeywordMatch) : double :=
  fdiv (fsum (map mImportance matched)) (totalImportanceOf keywords).

Definition densityTerm (m : KeywordMatch) : double :=
  fmin (fdiv (ofZ (resumeHits m)) (fmax (jdOccurrences m) (Fin 1))) (Fin 1).

Definition densityScoreOf (keywords : list KeywordInsight)
    (matched : list KeywordMatch) : double :=
  fdiv (fsum (map densityTerm matched))
    (ofNat (Nat.max (List.length keywords) 1)).

Definition breadthScoreOf (keywords : list KeywordInsight)
    (matched : list KeywordMatch) : double :=
  fdiv (ofNat (List.length matched))
    (ofNat (Nat.max (List.length keywords) 1)).

Definition finalScoreOf (coverageScore densityScore breadthScore : double)
    : double :=
  fround
    (fmul
       (fadd (fadd (fmul coverageScore d0_6) (fmul densityScore d0_3))
          (fmul breadthScore d0_1))
       (Fin 100)).

(** The [score] field of [analyzeResume(resumeText, keywords)]. *)
Definition scoreOf (resumeText : jsstring) (keywords : list KeywordInsight)
    : double :=
  let keywordMatches := keywordMatchesOf resumeText keywords in
  let matched := filter isMatched keywordMatches in
  let coverageScore := coverageScoreOf keywords matched in
  let densityScore := densityScoreOf keywords matched in
  let breadthScore := breadthScoreOf keywords matched in
  fmin (finalScoreOf coverageScore densityScore breadthScore) (Fin 100).

(** *** The capability cards *)

Record CapabilityInsight := mkCapability {
  capId : CapabilityId;
  capTitle : jsstring;
  capScore : double;
  capSummary : jsstring;
  strengths : list jsstring;
  gaps : list jsstring
}.

Definition mapMatchToCapability (m : KeywordMatch) : CapabilityId :=
  let normalized := toLowerCase (mLabel m ++ SP :: mCanonical m) in
  if (hasHint COMMUNICATION_HINTS normalized
      || tierEqb (mSection m) general)%bool
  then communication
  else if (hasHint DELIVERY_HINTS normalized
           || tierEqb (mSection m) responsibility)%bool
  then delivery
  else technical.

Definition summarizeCapabilityScore (score : double) (title : jsstring)
    : jsstring :=
  if fle (Fin 70) score then
    str "Resume strongly supports " ++ toLowerCase title ++ str "."
  else if fle (Fin 40) score then
    str "Partial coverage for " ++ toLowerCase title
    ++ str " — expand with JD specifics."
  else if flt (Fin 0) score then
    str "Only light signals for " ++ toLowerCase title ++ str " found."
  else
    str "No evidence of " ++ toLowerCase title ++ str " detected in the resume.".

Record Bucket := mkBucket {
  bTotal : double;
  bMatched : double;
  bStrengths : list jsstring;
  bGaps : list jsstring
}.

Record Tracker := mkTracker {
  trTechnical : Bucket;
  trDelivery : Bucket;
  trCommunication : Bucket
}.

Definition bucketOf (tr : Tracker) (id : CapabilityId) : Bucket :=
  match id with
  | technical => trTechnical tr
  | delivery => trDelivery tr
  | communication => trCommunication tr
  end.

Definition setBucket (tr : Tracker) (id : CapabilityId) (b : Bucket)
    : Tracker :=
  match id with
  | technical => mkTracker b (trDelivery tr) (trCommunication tr)
  | delivery => mkTracker (trTechnical tr) b (trCommunication tr)
  | communication => mkTracker (trTechnical tr) (trDelivery tr) b
  end.

Definition trackMatched (tr : Tracker) (m : KeywordMatch) : Tracker :=
  let id := mapMatchToCapability m in
  let b := bucketOf tr id in
  setBucket tr id
    (mkBucket (fadd (bTotal b) (mImportance m))
       (fadd (bMatched b) (mImportance m))
       (pushBounded 3 (bStrengths b)
          (mLabel m ++ str " (" ++ showZ (resumeHits m) ++ str " hits)"))
       (bGaps b)).

Definition trackMissing (tr : Tracker) (m : KeywordMatch) : Tracker :=
  let id := mapMatchToCapability m in
  let b := bucketOf tr id in
  setBucket tr id
    (mkBucket (fadd (bTotal b) (mImportance m)) (bMatched b) (bStrengths b)
       (pushBounded 3 (bGaps b) (mLabel m))).

Definition emptyBucket : Bucket := mkBucket (Fin 0) (Fin 0) [] [].

(** The tracker after the two loops over [analysis.matchedKeywords] and
    [analysis.missingKeywords], the only fields of the analysis that
    [buildFallbackCapabilities] reads. *)
Definition trackAnalysis (matchedKeywords missingKeywords : list KeywordMatch)
    : Tracker :=
  fold_left trackMissing missingKeywords
    (fold_left trackMatched matchedKeywords
       (mkTracker emptyBucket emptyBucket emptyBucket)).

(** [data.total ? Math.round((data.matched / data.total) * 100) : 0] *)
Definition bucketScore (data : Bucket) : double :=
  if ftruthy (bTotal data)
  then fround (fmul (fdiv (bMatched data) (bTotal data)) (Fin 100))
  else Fin 0.

Definition buildFallbackCapabilities
    (matchedKeywords missingKeywords : list KeywordMatch)
    : list CapabilityInsight :=
  let tracker := trackAnalysis matchedKeywords missingKeywords in
  map (fun meta =>
         let data := bucketOf tracker (fst meta) in
         let score0 := bucketScore data in
         mkCapability (fst meta) (snd meta) score0
           (summarizeCapabilityScore score0 (snd meta))
           (bStrengths data) (bGaps data))
    CAPABILITY_METADATA.

(** *** Blending the semantic themes *)

(** The fields of [SemanticAnalysisResponse] that the blend reads; an
    absent field is [None]. *)
Record SemanticAnalysisResponse := mkSemantic {
  semanticScore : option double;
  alignedThemes : option (list jsstring);
  missingThemes : option (list jsstring)
}.

(** [Map<CapabilityInsight['id'], CapabilityInsight>] in insertion order. *)
Definition CapabilityMap := list (CapabilityId * CapabilityInsight).

Fixpoint capGet (m : CapabilityMap) (id : CapabilityId)
    : option CapabilityInsight :=
  match m with
  | [] => None
  | (id', c) :: m' => if capEqb id' id then Some c else capGet m' id
  end.

Fixpoint capSet (m : CapabilityMap) (id : CapabilityId)
    (c : CapabilityInsight) : CapabilityMap :=
  match m with
  | [] => [(id, c)]
  | (id', c') :: m' =>
      if capEqb id' id then (id', c) :: m' else (id', c') :: capSet m' id c
  end.

Record ThemeCount := mkThemeCount {
  strengthCount : nat;
  gapCount : nat
}.

Record ThemeStats := mkThemeStats {
  tsTechnical : ThemeCount;
  tsDelivery : ThemeCount;
  tsCommunication : ThemeCount
}.

Definition countOf (st : ThemeStats) (id : CapabilityId) : ThemeCount :=
  match id with
  | technical => tsTechnical st
  | delivery => tsDelivery st
  | communication => tsCommunication st
  end.

Definition setCount (st : ThemeStats) (id : CapabilityId) (c : ThemeCount)
    : ThemeStats :=
  match id with
  | technical => mkThemeStats c (tsDelivery st) (tsCommunication st)
  | delivery => mkThemeStats (tsTechnical st) c (tsCommunication st)
  | communication => mkThemeStats (tsTechnical st) (tsDelivery st) c
  end.

Inductive BulletType := strength | gap.

Definition appendBullet (bucket : CapabilityId) (type : BulletType)
    (text : jsstring) (state : CapabilityMap * ThemeStats)
    : CapabilityMap * ThemeStats :=
  let (capabilityMap, stats) := state in
  match capGet capabilityMap bucket with
  | None => state
  | Some entry =>
      let entry' :=
        match type with
        | strength =>
            mkCapability (capId entry) (capTitle entry) (capScore entry)
              (capSummary entry)
              (if (negb (setHas (strengths entry) text)
                   && Nat.ltb (List.length (strengths entry)) 4)%bool
               then strengths entry ++ [text] else strengths entry)
              (gaps entry)
        | gap =>
            mkCapability (capId entry) (capTitle entry) (capScore entry)
              (capSummary entry) (strengths entry)
              (if (negb (setHas (gaps entry) text)
                   && Nat.ltb (List.length (gaps entry)) 4)%bool
               then gaps entry ++ [text] else gaps entry)
        end in
      let c := countOf stats bucket in
      (capSet capabilityMap bucket entry',
       setCount stats bucket
         match type with
         | strength => mkThemeCount (S (strengthCount c)) (gapCount c)
         | gap => mkThemeCount (strengthCount c) (S (gapCount c))
         end)
  end.

(** [themes?.forEach((item) => { if (!item) return; appendBullet(...) })] *)
Definition appendThemes (type : BulletType) (themes : option (list jsstring))
    (state : CapabilityMap * ThemeStats) : CapabilityMap * ThemeStats :=
  match themes with
  | None => state
  | Some items =>
      fold_left
        (fun st item =>
           if truthy item
           then appendBullet (categorizeTextCapability item) type item st
           else st)
        items state
  end.

(** [Math.min(Math.max(x, 0), 100)] *)
Definition clampScore (x : double) : double := fmin (fmax x (Fin 0)) (Fin 100).

(** One round of the scoring [forEach] over [CAPABILITY_METADATA]. *)
Definition rescore (overallScore : double) (stats : ThemeStats)
    (capabilityMap : CapabilityMap) (meta : CapabilityId * jsstring)
    : CapabilityMap :=
  match capGet capabilityMap (fst meta) with
  | None => capabilityMap
  | Some entry =>
      let bucketStats := countOf stats (fst meta) in
      if (Nat.eqb (strengthCount bucketStats) 0
          && Nat.eqb (gapCount bucketStats) 0)%bool
      then capabilityMap
      else
        let ratio :=
          fdiv (ofNat (strengthCount bucketStats))
            (ofNat (Nat.max (strengthCount bucketStats + gapCount bucketStats)
                      1)) in
        let derived :=
          fround
            (fadd (fmul ratio overallScore)
               (fmul (fsub (Fin 1) ratio) (capScore entry))) in
        let score' :=
          if (feq (capScore entry) (Fin 0)
              && Nat.ltb 0 (strengthCount bucketStats))%bool
          then clampScore
                 (fround (fmax (fmul overallScore ratio)
                            (fmul overallScore d0_35)))
          else clampScore derived in
        capSet capabilityMap (fst meta)
          (mkCapability (capId entry) (capTitle entry) score'
             (summarizeCapabilityScore score' (snd meta))
             (strengths entry) (gaps entry))
  end.

(** The returned cards.  The copies that the source puts in its map share
    their [strengths] and [gaps] arrays with the fallback cards, so the
    pushes are also visible there; that effect on the argument is not part
    of this value. *)
Definition blendSemanticSignals (semanticResult : SemanticAnalysisResponse)
    (fallbackCapabilities : list CapabilityInsight)
    : list (option CapabilityInsight) :=
  let capabilityMap :=
    fold_left (fun m capability => capSet m (capId capability) capability)
      fallbackCapabilities [] in
  let stats0 :=
    mkThemeStats (mkThemeCount 0 0) (mkThemeCount 0 0) (mkThemeCount 0 0) in
  let (capabilityMap1, stats) :=
    appendThemes gap (missingThemes semanticResult)
      (appendThemes strength (alignedThemes semanticResult)
         (capabilityMap, stats0)) in
  let overallScore :=
    match semanticScore semanticResult with
    | Some x => x
    | None => Fin 60
    end in
  let capabilityMap2 :=
    fold_left (rescore overallScore stats) CAPABILITY_METADATA capabilityMap1 in
  map (fun meta => capGet capabilityMap2 (fst meta)) CAPABILITY_METADATA.

End Binary64.

(* ================================================================== *)
(** ** Predicates of the statements *)

(** A string of white space only. *)
Definition allSpace (s : jsstring) : Prop := Forall (fun c => isSpace c = true) s.

(** Every count stored in an n-gram table is at least 1. *)
Definition positiveCounts (counts : JsMap.t Z) : Prop :=
  Forall (fun kv => (1 <= snd kv)%Z) counts.

Section Ordered.
Variable A : Type.
Variable gt : A -> A -> bool.

(** Every element of [l] may stay after [x]. *)
Definition headOk (x : A) (l : list A) : Prop :=
  Forall (fun y => gt x y = false) l.

(** No element has to move behind a later one. *)
Inductive ordered : list A -> Prop :=
| ordered_nil : ordered []
| ordered_cons x l : headOk x l -> ordered l -> ordered (x :: l).
End Ordered.

(** The accumulator map of one extraction: its keys are pairwise distinct,
    every accumulator is stored under its own canonical string and has
    received a positive weight. *)
Definition statsInv (m : JsMap.t KeywordStats) : Prop :=
  NoDup (JsMap.keys m)
  /\ Forall (fun kv => stCanonical (snd kv) = fst kv
                       /\ 0 < weightedOccurrences (snd kv)) m.




(** A string of token code units. *)
Definition tokChars (w : jsstring) : Prop :=
  Forall (fun c => tokenChar c = true) w.

(** A string of token code units and plain spaces. *)
Definition phraseChars (w : jsstring) : Prop :=
  Forall (fun c => (tokenChar c || Ascii.eqb c SP)%bool = true) w.

(** The number of plain spaces of a string. *)
Definition countSP (s : jsstring) : nat :=
  List.length (filter (Ascii.eqb SP) s).

(** The entry that [analyzeResume] builds for one keyword. *)
Definition matchFor (resumeText : jsstring) (kw : KeywordInsight)
    : KeywordMatch :=
  toMatch (buildNgramCounts (tokenize resumeText) 1)
    (buildNgramCounts (tokenize resumeText) 2)
    (buildNgramCounts (tokenize resumeText) 3) kw.

(** Every key of a table splits into at most three pieces at spaces. *)
Definition narrowKeys (counts : JsMap.t Z) : Prop :=
  Forall (fun kv => (List.length (splitSpace (fst kv)) <= 3)%nat) counts.

(** A code unit that cannot continue a token once the text is in lower
    case. *)
Definition isDelimiter (c : ascii) : bool := negb (tokenChar (lowerChar c)).

(** The text is empty or starts with a delimiter. *)
Definition startsDelim (s : jsstring) : bool :=
  match s with [] => true | c :: _ => isDelimiter c end.

(** The text is empty or ends with a delimiter. *)
Definition endsDelim (s : jsstring) : bool := startsDelim (rev s).

(** One round of the unigram loop, on the token itself. *)
Definition uniStep (counts : JsMap.t Z) (token : jsstring) : JsMap.t Z :=
  if shouldKeepToken token then bump counts (getCanonicalKey token)
  else counts.

(** [counts.get(key) ?? 0] *)
Definition getOr0 (counts : JsMap.t Z) (key : jsstring) : Z :=
  match JsMap.get counts key with Some n => n | None => 0%Z end.

(** The number of kept tokens whose canonical key is [key]. *)
Definition hitCount (key : jsstring) (tokens : list jsstring) : Z :=
  Z.of_nat
    (List.length
       (filter (fun t => (shouldKeepToken t
                          && streqb (getCanonicalKey t) key)%bool) tokens)).

(** The keyword of the scoring scenario. *)
Definition kwReact : KeywordInsight :=
  mkKeywordInsight (str "react") (str "React") 1 1 core term [str "react"] 1.

(** The job description of the tier scenario: one line, no line break. *)
Definition jdScenario : jsstring :=
  str "Requirements: Must have React experience. Responsibilities: Lead agile ceremonies. Preferred: AWS certification.".

(** The scenario laid out with every heading on a line of its own, and
    without the words "Must have", which would turn the requirement line
    into a heading. *)
Definition jdLayout : jsstring :=
  str "Requirements:" ++ LF :: str "React experience." ++ LF ::
  str "Responsibilities:" ++ LF :: str "Lead agile ceremonies." ++ LF ::
  str "Preferred:" ++ LF :: str "AWS certification.".

(** The tier with which a canonical key is returned, if it is returned. *)
Definition tierOf (key : jsstring) (keywords : list KeywordInsight)
    : option RequirementTier :=
  option_map section (find (fun k => streqb (canonical k) key) keywords).

(** The first keyword returned for a text under the default limit. *)
Definition firstKeyword (text : jsstring) : KeywordInsight :=
  hd kwReact (extractKeywords text defaultLimit).

(** A keyword whose canonical key has four pieces. *)
Definition kwLong : KeywordInsight :=
  mkKeywordInsight (str "site reliability on call") (str "SRE on call")
    1 1 core phrase [] 1.

(** A token as the tokenizer's pattern describes it: a first code unit of
    the start class, then code units of the continuation class. *)
Definition wellFormedToken (w : jsstring) : Prop :=
  exists c rest, w = c :: rest /\ tokenStart c = true /\ tokChars w.


(** The string is empty or does not begin with white space. *)
Definition startsNonSpace (s : jsstring) : Prop :=
  match s with [] => True | d :: _ => isSpace d = false end.

(** No white space is followed by white space. *)
Fixpoint spaced (s : jsstring) : Prop :=
  match s with
  | [] => True
  | c :: s' => (isSpace c = true -> startsNonSpace s') /\ spaced s'
  end.

(** A term in normal form: token code units separated by single plain
    spaces, with no space at either end. *)
Definition normalForm (s : jsstring) : Prop :=
  phraseChars s /\ spaced s /\ trim s = s.

(** The canonical key can be a key of an n-gram table. *)
Definition matchable (key : jsstring) : bool :=
  forallb (fun c => (tokenChar c || Ascii.eqb c SP)%bool) key.

(** What every accumulator records, [ids] being the fragment ids in use:
    distinct fragment ids among [ids], at least one of them, at least one
    occurrence, the canonical string among the variants, and a canonical
    string of three code units or more that is not a generic term. *)
Definition statsFacts (ids : list nat) (m : JsMap.t KeywordStats) : Prop :=
  Forall (fun kv =>
            NoDup (fragmentIds (snd kv))
            /\ incl (fragmentIds (snd kv)) ids
            /\ fragmentIds (snd kv) <> []
            /\ (1 <= stOccurrences (snd kv))%Z
            /\ In (stCanonical (snd kv)) (stVariants (snd kv))
            /\ (3 <= List.length (stCanonical (snd kv)))%nat
            /\ isGenericTerm (stCanonical (snd kv)) = false) m.

(** The state of the segmentation loop is consistent: the counter is the
    number of fragments, the ids count up from 0, and every fragment is a
    trimmed, non-empty line that is not a heading and carries its inline
    tier when it has one. *)
Definition fragmentFacts (f : SectionFragment) : Prop :=
  content f <> []
  /\ trim (content f) = content f
  /\ detectHeadingSection (content f) = None
  /\ forall tier, detectInlinePriority (content f) = Some tier ->
                  fragSection f = tier.


(** A property of all three buckets of a tracker. *)
Definition allBuckets (P : Bucket -> Prop) (tr : Tracker) : Prop :=
  P (trTechnical tr) /\ P (trDelivery tr) /\ P (trCommunication tr).

(** At most three strengths and three gaps, none repeated. *)
Definition bucketShape (b : Bucket) : Prop :=
  (List.length (bStrengths b) <= 3)%nat /\ (List.length (bGaps b) <= 3)%nat
  /\ NoDup (bStrengths b) /\ NoDup (bGaps b).

(** A code unit below 128. *)
Definition plainChar (c : ascii) : bool :=
  match c with Ascii _ _ _ _ _ _ _ high => negb high end.

(** A pattern that cannot tell a text from its lower-case form: its literal
    code units are below 128 and its classes do not depend on case. *)
Fixpoint caseBlind (r : regex) : Prop :=
  match r with
  | Eps | WordB => True
  | Chr c => plainChar c = true
  | Cls p => forall x, p (lowerChar x) = p x
  | Cat r1 r2 | Alt r1 r2 => caseBlind r1 /\ caseBlind r2
  | Opt r1 => caseBlind r1
  end.

(** A fragment with its content in lower case. *)
Definition lowerFragment (f : SectionFragment) : SectionFragment :=
  mkFragment (fragId f) (toLowerCase (content f)) (fragSection f).

(** The spellings that the first heading pattern finds anywhere in a
    line. *)
Definition coreHeadingWords : list jsstring := map str
  [ "must have"; "must-have"; "musthave"; "requirement"; "qualification";
    "skills" ]%string.

(** [Number.isNaN] and [Number.isFinite] *)
Definition isNaN (x : double) : bool :=
  match x with NaN => true | _ => false end.

Definition isFinite (x : double) : bool :=
  match x with Fin _ => true | _ => false end.

(** A number that is zero or more, infinity included. *)
Definition nonneg (x : double) : Prop :=
  match x with Fin q => 0 <= q | PInf => True | _ => False end.

(** A number above zero, infinity included. *)
Definition aboveZero (x : double) : Prop :=
  match x with Fin q => 0 < q | PInf => True | _ => False end.

(** Every finite number of the format is a multiple of [2 ^ -1074]. *)
Definition onGrid (q : Q) : Prop :=
  exists n : Z, q == inject_Z n * pow2 (-1074).

(** What a weight or a sum of weights is: zero or more, on the grid of the
    format, or infinity. *)
Definition good (x : double) : Prop :=
  match x with
  | Fin q => 0 <= q /\ onGrid q
  | PInf => True
  | _ => False
  end.

(** The weight bucket of one tier. *)
Definition tierWeight64 (w : Binary64.TierWeights) (tier : RequirementTier)
    : double :=
  match tier with
  | core => Binary64.wCore w
  | responsibility => Binary64.wResponsibility w
  | preferred => Binary64.wPreferred w
  | general => Binary64.wGeneral w
  end.

(** One occurrence that [recordTerm] files: the canonical key, the tier of
    the fragment and the weight it adds. *)
Record Recording := mkRecording {
  rcKey : jsstring;
  rcTier : RequirementTier;
  rcWeight : double
}.

(** The canonical key under which [recordTerm] files a term; [None] when
    it returns early. *)
Definition recordKey (t : jsstring) : option jsstring :=
  let normalized := normalizeTerm t in
  if (negb (truthy normalized) || Nat.ltb (List.length normalized) 3)%bool
  then None
  else if isGenericTerm normalized then None
  else Some match JsMap.get SYNONYM_LOOKUP normalized with
            | Some i => synCanonical i
            | None => normalized
            end.

Definition recordingOf (t : jsstring) (tier : RequirementTier) (w : double)
    : list Recording :=
  match recordKey t with
  | Some key => [mkRecording key tier w]
  | None => []
  end.

(** The occurrences of one fragment, in the order of the calls: the kept
    tokens, then at every index the bigram and the trigram. *)
Definition tokenRecordings (tokens : list jsstring) (tier : RequirementTier)
    : list Recording :=
  flat_map
    (fun token =>
       if shouldKeepToken token
       then recordingOf token tier (Binary64.SECTION_WEIGHTS tier)
       else [])
    tokens.

Definition phraseRecordings (tokens : list jsstring) (tier : RequirementTier)
    : list Recording :=
  flat_map
    (fun index =>
       match buildPhrase tokens index 2 with
       | Some bigram =>
           recordingOf bigram tier (fmul (Binary64.SECTION_WEIGHTS tier) d1_1)
       | None => []
       end
       ++ match buildPhrase tokens index 3 with
          | Some trigram =>
              recordingOf trigram tier
                (fmul (Binary64.SECTION_WEIGHTS tier) d1_15)
          | None => []
          end)
    (seq 0 (List.length tokens)).

Definition fragmentRecordings (fragment : SectionFragment) : list Recording :=
  tokenRecordings (tokenize (content fragment)) (fragSection fragment)
  ++ phraseRecordings (tokenize (content fragment)) (fragSection fragment).

(** All occurrences of a text, fragment after fragment. *)
Definition recordings (text : jsstring) : list Recording :=
  flat_map fragmentRecordings (splitIntoFragments text).

(** The weights recorded under a key, added up in the order of the
    occurrences; the same for one tier. *)
Definition weightRecorded (key : jsstring) (recs : list Recording) : double :=
  fsum (map rcWeight (filter (fun r => streqb (rcKey r) key) recs)).

Definition tierWeightRecorded (key : jsstring) (tier : RequirementTier)
    (recs : list Recording) : double :=
  fsum (map rcWeight
          (filter (fun r => (streqb (rcKey r) key
                             && tierEqb (rcTier r) tier)%bool) recs)).

(** The accumulator map holds the sums of the occurrences [recs]: every
    accumulator has the recorded weight of its key, in total and per tier,
    and a key without accumulator has no occurrence. *)
Definition tracks (m : JsMap.t Binary64.KeywordStats) (recs : list Recording)
    : Prop :=
  (forall k st, JsMap.get m k = Some st ->
     Binary64.weightedOccurrences st = weightRecorded k recs
     /\ forall tier,
          tierWeight64 (Binary64.sectionWeights st) tier
          = tierWeightRecorded k tier recs)
  /\ (forall k, JsMap.get m k = None ->
                forall r, In r recs -> streqb (rcKey r) k = false).

(** The keys of the accumulator map are pairwise distinct, every
    accumulator is stored under its own canonical string, and its weights
    are sums of weights. *)
Definition statsInv64 (m : JsMap.t Binary64.KeywordStats) : Prop :=
  NoDup (JsMap.keys m)
  /\ Forall (fun kv =>
               Binary64.stCanonical (snd kv) = fst kv
               /\ good (Binary64.weightedOccurrences (snd kv))
               /\ forall tier,
                    good (tierWeight64 (Binary64.sectionWeights (snd kv)) tier))
       m.

(** [M] is the largest weighted occurrence count among [stats]. *)
Definition isMaxWeighted64 (M : double) (stats : list Binary64.KeywordStats)
    : Prop :=
  (exists s, In s stats /\ Binary64.weightedOccurrences s = M)
  /\ forall s, In s stats -> fle (Binary64.weightedOccurrences s) M = true.

(** A finite number between 0 and [M]. *)
Definition boundedBy (M : Q) (x : double) : Prop :=
  exists q, x = Fin q /\ 0 <= q /\ q <= M.

(** A weighted count: at least one half and at most [2 ^ 54]. *)
Definition weightRange (x : double) : Prop :=
  exists q, x = Fin q /\ 1 # 2 <= q /\ q <= inject_Z (2 ^ 54).

(** A weight of one occurrence: between one half and 2. *)
Definition stepRange (x : double) : Prop :=
  exists q, x = Fin q /\ 1 # 2 <= q /\ q <= 2.

(** Every weighted count of the accumulator map is in range. *)
Definition statsRange (m : JsMap.t Binary64.KeywordStats) : Prop :=
  Forall (fun kv => weightRange (Binary64.weightedOccurrences (snd kv))) m.

(** A job description of three lines, the second one a heading. *)
Definition jdThreeLines : jsstring :=
  str "testing" ++ LF :: str "Preferred" ++ LF :: str "lead".

(** A job description that names "kubernetes" on three lines under a
    preferred heading and on two lines under a requirements heading. *)
Definition jdTwoTiers : jsstring :=
  str "Preferred" ++ LF :: str "kubernetes" ++ LF :: str "kubernetes" ++ LF
  :: str "kubernetes" ++ LF :: str "Requirements" ++ LF :: str "kubernetes"
  ++ LF :: str "kubernetes".

(** The keyword returned for a canonical key under the default limit. *)
Definition keywordOf (key : jsstring) (text : jsstring)
    : option Binary64.KeywordInsight :=
  find (fun k => streqb (Binary64.canonical k) key)
    (Binary64.extractKeywords text defaultLimit).

(** The keyword "testing" of [jdThreeLines], its importance the number
    0.612. *)
Definition d0_612 : double := Eval vm_compute in round64 (612 # 1000).

Definition kwTesting : Binary64.KeywordInsight :=
  Binary64.mkKeywordInsight (str "testing") (str "testing") (Fin 1) d0_612
    general term [str "testing"] (Fin (1 # 2)).

(** The keyword of the scoring scenario, with importance 1. *)
Definition kwReact64 : Binary64.KeywordInsight :=
  Binary64.mkKeywordInsight (str "react") (str "React") (Fin 1) (Fin 1) core
    term [str "react"] (Fin 1).

(** The hits of a keyword in a resume, as [analyzeResume] looks them up. *)
Definition hitsIn (resumeText : jsstring) (kw : Binary64.KeywordInsight) : Z :=
  let resumeTokens := tokenize resumeText in
  Binary64.hitsOf (buildNgramCounts resumeTokens 1)
    (buildNgramCounts resumeTokens 2) (buildNgramCounts resumeTokens 3) kw.

(** The number 1. *)
Definition isOne (x : double) : Prop := exists q, x = Fin q /\ q == 1.

(** Two keywords whose importance is 1e308 each. *)
Definition d1e308 : double := Eval vm_compute in round64 (inject_Z (10 ^ 308)).

Definition kwHuge (key : jsstring) : Binary64.KeywordInsight :=
  Binary64.mkKeywordInsight key key (Fin 1) d1e308 core term [key] (Fin 1).

Definition hugeKeywords : list Binary64.KeywordInsight :=
  [kwHuge (str "react"); kwHuge (str "python")].

(** A keyword of importance 1 whose occurrence count is not a number. *)
Definition kwNoCount : Binary64.KeywordInsight :=
  Binary64.mkKeywordInsight (str "react") (str "React") NaN (Fin 1) core term
    [str "react"] (Fin 1).

(** The numbers of a bucket: the matched weight is part of the total
    weight, both are finite, and the total is a number of the format. *)
Definition bucketNumbers (b : Binary64.Bucket) : Prop :=
  exists t m,
    Binary64.bTotal b = Fin t /\ Binary64.bMatched b = Fin m
    /\ 0 <= m /\ m <= t /\ t <= inject_Z (2 ^ 53) /\ round64 t = Fin t.

(** A property of all three buckets of a tracker. *)
Definition allBuckets64 (P : Binary64.Bucket -> Prop) (tr : Binary64.Tracker)
    : Prop :=
  P (Binary64.trTechnical tr) /\ P (Binary64.trDelivery tr)
  /\ P (Binary64.trCommunication tr).

(** A score from 0 to 100. *)
Definition scoreInRange (x : double) : Prop :=
  fle (Fin 0) x = true /\ fle x (Fin 100) = true.

(** A card within range: a score from 0 to 100 and at most four strengths
    and four gaps. *)
Definition cardInRange (c : Binary64.CapabilityInsight) : Prop :=
  scoreInRange (Binary64.capScore c)
  /\ (List.length (Binary64.strengths c) <= 4)%nat
  /\ (List.length (Binary64.gaps c) <= 4)%nat.

(** The card map of the blend: every card is stored under its own id and is
    within range, and the ids of [ids] are present. *)
Definition mapOk (ids : list CapabilityId) (m : Binary64.CapabilityMap)
    : Prop :=
  Forall (fun kv => Binary64.capId (snd kv) = fst kv /\ cardInRange (snd kv)) m
  /\ forall id, In id ids -> Binary64.capGet m id <> None.

(** The semantic score is absent or a finite number. *)
Definition finiteScore (r : Binary64.SemanticAnalysisResponse) : Prop :=
  match Binary64.semanticScore r with
  | Some x => isFinite x = true
  | None => True
  end.

(** A matched keyword and a missing one. *)
Definition matchReact64 : Binary64.KeywordMatch :=
  Binary64.mkMatch (str "react") (str "React") (Fin 1) 2 (Fin 1) core term.

Definition matchTeam64 : Binary64.KeywordMatch :=
  Binary64.mkMatch (str "team leadership") (str "Team leadership") (Fin 1) 0
    d0_8 preferred phrase.

(** The state of the tokenizer after [s]: inside a match or not. *)
Fixpoint insideToken (inside : bool) (s : jsstring) : bool :=
  match s with
  | [] => inside
  | c :: s' => insideToken (if inside then tokenChar c else tokenStart c) s'
  end.

(** The text ends inside a token, which a following token code unit would
    continue. *)
Definition endsInToken (s : jsstring) : bool :=
  insideToken false (toLowerCase s).

(* ================================================================== *)
(** * Properties *)

(** ** Strings *)

Lemma streqb_eq (a b : jsstring) : streqb a b = true <-> a = b.
Proof.
  revert b; induction a as [|x a IH]; intros [|y b]; simpl;
    try (split; [discriminate | congruence]); try tauto.
  rewrite andb_true_iff, Ascii.eqb_eq, IH.
  split; [intros [-> ->]; reflexivity | intros H; inversion H; auto].
Qed.

Lemma streqb_refl (a : jsstring) : streqb a a = true.
Proof. apply streqb_eq; reflexivity. Qed.

Lemma dropWhile_all (A : Type) (p : A -> bool) (l : list A) :
  Forall (fun x => p x = true) l -> dropWhile p l = [].
Proof.
  induction 1 as [|x l Hx _ IH]; simpl; [reflexivity|].
  rewrite Hx; exact IH.
Qed.

Lemma trim_allSpace (s : jsstring) : allSpace s -> trim s = [].
Proof.
  intros H; unfold trim, trimStart, trimEnd.
  rewrite (dropWhile_all _ H); reflexivity.
Qed.

Lemma consHead_allSpace (c : ascii) (ls : list jsstring) :
  isSpace c = true -> Forall allSpace ls -> Forall allSpace (consHead c ls).
Proof.
  intros Hc Hls; destruct ls as [|l ls]; simpl.
  - repeat constructor; exact Hc.
  - inversion Hls; subst; constructor; [constructor|]; assumption.
Qed.

Lemma splitLines_allSpace_aux (n : nat) :
  forall s, (List.length s <= n)%nat -> allSpace s ->
            Forall allSpace (splitLines s).
Proof.
  induction n as [|n IH]; intros [|c s] Hlen Hs; simpl in *;
    try (repeat constructor; fail); try lia.
  inversion Hs as [|? ? Hc Hs']; subst.
  assert (Hrec : Forall allSpace (splitLines s)) by (apply IH; [lia | exact Hs']).
  destruct (Ascii.eqb c LF); [constructor; [constructor | exact Hrec]|].
  destruct (Ascii.eqb c CR); [|apply consHead_allSpace; assumption].
  destruct s as [|d s'']; [apply consHead_allSpace; assumption|].
  destruct (Ascii.eqb d LF); [|apply consHead_allSpace; assumption].
  constructor; [constructor|].
  inversion Hs'; subst.
  apply IH; [simpl in Hlen; lia | assumption].
Qed.

Lemma splitLines_allSpace (s : jsstring) :
  allSpace s -> Forall allSpace (splitLines s).
Proof. apply (splitLines_allSpace_aux (n := List.length s)); lia. Qed.

Lemma no_lines_of_allSpace (ls : list jsstring) :
  Forall allSpace ls -> filter truthy (map trim ls) = [].
Proof.
  induction 1 as [|l ls Hl _ IH]; simpl; [reflexivity|].
  rewrite (trim_allSpace Hl); exact IH.
Qed.

Lemma splitIntoFragments_allSpace (text : jsstring) :
  allSpace text -> splitIntoFragments text = [].
Proof.
  intros H; unfold splitIntoFragments.
  rewrite (no_lines_of_allSpace (splitLines_allSpace H)); reflexivity.
Qed.

(** C8. On the empty string and on every string made of white space only,
    [extractKeywords] returns the empty list, whatever the limit. *)
Theorem extractKeywords_whitespace (text : jsstring) (limit : Z) :
  forallb isSpace text = true -> extractKeywords text limit = [].
Proof.
  intros H.
  assert (Hs : allSpace text) by (apply Forall_forall; apply forallb_forall; exact H).
  unfold extractKeywords, collectStats.
  rewrite (splitIntoFragments_allSpace Hs); reflexivity.
Qed.

Lemma extractKeywords_whitespace_witness :
  forallb isSpace [SP; ascii_of_N 9; CR; LF; ascii_of_N 160; LF] = true
  /\ extractKeywords [SP; ascii_of_N 9; CR; LF; ascii_of_N 160; LF] defaultLimit = [].
Proof.
  split; [reflexivity|].
  apply (extractKeywords_whitespace
           [SP; ascii_of_N 9; CR; LF; ascii_of_N 160; LF] defaultLimit).
  reflexivity.
Defined.

(** ** Maps *)

Lemma get_In (V : Type) (m : JsMap.t V) (k : jsstring) (v : V) :
  JsMap.get m k = Some v -> In (k, v) m.
Proof.
  induction m as [|[k' v'] m IH]; simpl; [discriminate|].
  destruct (streqb k' k) eqn:E.
  - apply streqb_eq in E; intros H; inversion H; subst; left; reflexivity.
  - intros H; right; exact (IH H).
Qed.

Lemma set_Forall (V : Type) (P : jsstring * V -> Prop) (m : JsMap.t V)
    (k : jsstring) (v : V) :
  Forall P m -> P (k, v) -> Forall P (JsMap.set m k v).
Proof.
  intros Hm Hk; induction Hm as [|[k' v'] m Hx Hm IH]; simpl.
  - constructor; [exact Hk | constructor].
  - destruct (streqb k' k) eqn:E.
    + apply streqb_eq in E; subst; constructor; assumption.
    + constructor; assumption.
Qed.

Lemma set_keys_In (V : Type) (m : JsMap.t V) (k : jsstring) (v : V) (x : jsstring) :
  In x (JsMap.keys (JsMap.set m k v)) -> In x (JsMap.keys m) \/ x = k.
Proof.
  induction m as [|[k' v'] m IH]; simpl.
  - intros [H|[]]; right; symmetry; exact H.
  - destruct (streqb k' k) eqn:E; simpl.
    + intros [H|H]; [left; left; exact H | left; right; exact H].
    + intros [H|H]; [left; left; exact H|].
      destruct (IH H) as [H1|H1]; [left; right; exact H1 | right; exact H1].
Qed.

Lemma set_keys_NoDup (V : Type) (m : JsMap.t V) (k : jsstring) (v : V) :
  NoDup (JsMap.keys m) -> NoDup (JsMap.keys (JsMap.set m k v)).
Proof.
  induction m as [|[k' v'] m IH]; simpl; intros H.
  - constructor; [intros [] | constructor].
  - inversion H as [|? ? Hn Hm]; subst.
    destruct (streqb k' k) eqn:E; simpl; [constructor; assumption|].
    constructor; [|exact (IH Hm)].
    intros Hin; apply set_keys_In in Hin; destruct Hin as [Hin| ->];
      [exact (Hn Hin)|].
    rewrite streqb_refl in E; discriminate.
Qed.

(** ** Hit counts *)

Lemma bump_positive (counts : JsMap.t Z) (key : jsstring) :
  positiveCounts counts -> positiveCounts (bump counts key).
Proof.
  intros H; unfold bump; apply set_Forall; [exact H|]; simpl.
  destruct (JsMap.get counts key) as [n|] eqn:E; [|lia].
  apply get_In in E.
  unfold positiveCounts in H; rewrite Forall_forall in H.
  specialize (H _ E); simpl in H; lia.
Qed.

Lemma ngramStep_positive (tokens : list jsstring) (size : nat)
    (counts : JsMap.t Z) (index : nat) :
  positiveCounts counts -> positiveCounts (ngramStep tokens size counts index).
Proof.
  intros H; unfold ngramStep.
  destruct (_ && _)%bool; [exact H|].
  destruct (Nat.ltb 1 size); [|apply bump_positive; exact H].
  destruct (buildPhrase tokens index size); [apply bump_positive|]; exact H.
Qed.

Lemma buildNgramCounts_positive (tokens : list jsstring) (size : nat) :
  positiveCounts (buildNgramCounts tokens size).
Proof.
  unfold buildNgramCounts.
  assert (G : forall idx counts, positiveCounts counts ->
            positiveCounts (fold_left (ngramStep tokens size) idx counts)).
  { induction idx as [|i idx IH]; simpl; intros counts H; [exact H|].
    apply IH, ngramStep_positive, H. }
  apply G; constructor.
Qed.

Lemma hitsOf_nonneg (tokens : list jsstring) (kw : KeywordInsight) :
  (0 <= hitsOf (buildNgramCounts tokens 1) (buildNgramCounts tokens 2)
          (buildNgramCounts tokens 3) kw)%Z.
Proof.
  unfold hitsOf.
  set (tbl := if Nat.eqb _ 1 then _ else _).
  assert (Hp : positiveCounts tbl).
  { unfold tbl; destruct (Nat.eqb _ 1); [|destruct (Nat.eqb _ 2)];
      apply buildNgramCounts_positive. }
  destruct (JsMap.get tbl (canonical kw)) as [n|] eqn:E; [|lia].
  apply get_In in E; unfold positiveCounts in Hp; rewrite Forall_forall in Hp.
  specialize (Hp _ E); simpl in Hp; lia.
Qed.

Lemma keywordMatches_nonneg (resumeText : jsstring) (keywords : list KeywordInsight) :
  Forall (fun m => (0 <= resumeHits m)%Z) (keywordMatchesOf resumeText keywords).
Proof.
  unfold keywordMatchesOf; apply Forall_forall; intros m Hm.
  apply in_map_iff in Hm; destruct Hm as [kw [<- _]]; simpl.
  apply hitsOf_nonneg.
Qed.

Lemma matched_missing_length (l : list KeywordMatch) :
  Forall (fun m => (0 <= resumeHits m)%Z) l ->
  (List.length (filter isMatched l) + List.length (filter isMissing l)
   = List.length l)%nat.
Proof.
  induction 1 as [|m l Hm _ IH]; simpl; [reflexivity|].
  unfold isMatched at 1, isMissing at 1.
  destruct (Z.ltb_spec 0 (resumeHits m)), (Z.eqb_spec (resumeHits m) 0);
    simpl; lia.
Qed.

(** C4. The matched and the missing keywords partition the input: their
    lengths add up to the number of keywords, every matched entry has a
    positive hit count and every missing entry has hit count zero. *)
Theorem analyzeResume_partition (resumeText : jsstring)
    (keywords : list KeywordInsight) :
  let a := analyzeResume resumeText keywords in
  (List.length (matchedKeywords a) + List.length (missingKeywords a)
   = List.length keywords)%nat
  /\ Forall (fun m => (resumeHits m > 0)%Z) (matchedKeywords a)
  /\ Forall (fun m => resumeHits m = 0%Z) (missingKeywords a).
Proof.
  simpl; repeat split.
  - rewrite (matched_missing_length (keywordMatches_nonneg resumeText keywords)).
    unfold keywordMatchesOf; apply length_map.
  - apply Forall_forall; intros m Hm; apply filter_In in Hm.
    destruct Hm as [_ Hm]; unfold isMatched in Hm.
    apply Z.ltb_lt in Hm; lia.
  - apply Forall_forall; intros m Hm; apply filter_In in Hm.
    destruct Hm as [_ Hm]; unfold isMissing in Hm.
    apply Z.eqb_eq in Hm; exact Hm.
Qed.

(** C7. With an empty keyword list no divisor is zero, the coverage,
    density and breadth components are 0, the score is 0, and there are no
    matched keywords, no missing keywords and no suggestions. *)
Theorem analyzeResume_no_keywords (resumeText : jsstring) :
  let a := analyzeResume resumeText [] in
  ~ totalImportanceOf [] == 0
  /\ Nat.max (List.length (@nil KeywordInsight)) 1 <> 0%nat
  /\ coverageScoreOf [] (matchedKeywords a) == 0
  /\ densityScoreOf [] (matchedKeywords a) == 0
  /\ breadthScoreOf [] (matchedKeywords a) == 0
  /\ score a = 0%Z
  /\ matchedKeywords a = []
  /\ missingKeywords a = []
  /\ suggestions a = [].
Proof.
  simpl; repeat split; try reflexivity; try discriminate.
Qed.

(** ** Comparisons on rationals *)

Lemma Qltb_lt (x y : Q) : Qltb x y = true <-> x < y.
Proof.
  unfold Qltb; rewrite negb_true_iff.
  split; intros H.
  - apply Qnot_le_lt; intros Hle; apply Qle_bool_iff in Hle; congruence.
  - destruct (Qle_bool y x) eqn:E; [|reflexivity].
    apply Qle_bool_iff in E; exfalso; exact (Qlt_not_le _ _ H E).
Qed.

Lemma Qltb_ge (x y : Q) : Qltb x y = false <-> y <= x.
Proof.
  unfold Qltb; rewrite negb_false_iff; apply Qle_bool_iff.
Qed.

Lemma Qltb_diff (x y : Q) : Qltb 0 (y - x) = true <-> x < y.
Proof.
  rewrite Qltb_lt; split; intros H.
  - apply (Qplus_lt_l _ _ (- x)); setoid_replace (x + - x) with 0 by ring; exact H.
  - apply (Qplus_lt_l _ _ (- x)) in H; setoid_replace (x + - x) with 0 in H by ring;
      exact H.
Qed.

Lemma Qltb_diff_false (x y : Q) : Qltb 0 (y - x) = false <-> y <= x.
Proof.
  split; intros H.
  - apply Qnot_lt_le; intros Hlt; apply Qltb_diff in Hlt; congruence.
  - destruct (Qltb 0 (y - x)) eqn:E; [|reflexivity].
    apply Qltb_diff in E; exfalso; exact (Qlt_not_le _ _ E H).
Qed.

(** ** Sorting *)

Section SortFacts.
Variable A : Type.
Variable gt : A -> A -> bool.

Lemma insertSorted_perm (x : A) (l : list A) :
  Permutation (insertSorted gt x l) (x :: l).
Proof.
  induction l as [|y l IH]; simpl; [apply Permutation_refl|].
  destruct (gt x y); [|apply Permutation_refl].
  eapply Permutation_trans; [apply perm_skip, IH | apply perm_swap].
Qed.

Lemma stableSort_perm (l : list A) : Permutation (stableSort gt l) l.
Proof.
  induction l as [|x l IH]; simpl; [apply Permutation_refl|].
  eapply Permutation_trans; [apply insertSorted_perm | apply perm_skip, IH].
Qed.

Lemma stableSort_In (l : list A) (x : A) : In x (stableSort gt l) <-> In x l.
Proof.
  split; apply Permutation_in;
    [apply stableSort_perm | apply Permutation_sym, stableSort_perm].
Qed.

Hypothesis gt_trans :
  forall a b c, gt a b = false -> gt b c = false -> gt a c = false.
Hypothesis gt_asym : forall a b, gt a b = true -> gt b a = false.


End SortFacts.


(** ** The accumulator map *)

Lemma fold_left_inv (A B : Type) (P : A -> Prop) (f : A -> B -> A)
    (l : list B) (a : A) :
  (forall a x, P a -> P (f a x)) -> P a -> P (fold_left f l a).
Proof.
  intros Hf; revert a; induction l as [|x l IH]; simpl; intros a Ha;
    [exact Ha | apply IH, Hf, Ha].
Qed.

Lemma SECTION_WEIGHTS_pos (tier : RequirementTier) : 0 < SECTION_WEIGHTS tier.
Proof. destruct tier; reflexivity. Qed.

Lemma recordTerm_inv (t : jsstring) (src : KeywordSource)
    (tier : RequirementTier) (w : Q) (fragmentId : nat)
    (m : JsMap.t KeywordStats) :
  0 < w -> statsInv m -> statsInv (recordTerm t src tier w fragmentId m).
Proof.
  intros Hw [Hnd Hall]; unfold recordTerm.
  destruct (_ || _)%bool; [split; assumption|].
  destruct (isGenericTerm _); [split; assumption|].
  set (key := match JsMap.get SYNONYM_LOOKUP (normalizeTerm t) with
              | Some i => synCanonical i
              | None => normalizeTerm t
              end).
  split; [apply set_keys_NoDup; exact Hnd|].
  apply set_Forall; [exact Hall|]; simpl.
  destruct (JsMap.get m key) as [existing|] eqn:E; simpl.
  - apply get_In in E; rewrite Forall_forall in Hall.
    destruct (Hall _ E) as [Hc Hp]; simpl in Hc, Hp.
    split; [exact Hc|].
    apply Qlt_trans with (0 + w); [rewrite Qplus_0_l; exact Hw|].
    apply Qplus_lt_l; exact Hp.
  - split; [reflexivity | rewrite Qplus_0_l; exact Hw].
Qed.

Lemma collectTokens_inv (tokens : list jsstring) (tier : RequirementTier)
    (fragmentId : nat) (m : JsMap.t KeywordStats) :
  statsInv m -> statsInv (collectTokens tokens tier fragmentId m).
Proof.
  unfold collectTokens; apply fold_left_inv; intros a x Ha.
  destruct (shouldKeepToken x); [|exact Ha].
  apply recordTerm_inv; [apply SECTION_WEIGHTS_pos | exact Ha].
Qed.

Lemma collectPhrases_inv (tokens : list jsstring) (tier : RequirementTier)
    (fragmentId : nat) (m : JsMap.t KeywordStats) :
  statsInv m -> statsInv (collectPhrases tokens tier fragmentId m).
Proof.
  unfold collectPhrases; apply fold_left_inv; intros a x Ha.
  assert (H2 : statsInv
                 match buildPhrase tokens x 2 with
                 | Some bigram =>
                     recordTerm bigram phrase tier
                       (SECTION_WEIGHTS tier * (11 # 10)) fragmentId a
                 | None => a
                 end).
  { destruct (buildPhrase tokens x 2); [|exact Ha].
    apply recordTerm_inv; [|exact Ha]. destruct tier; reflexivity. }
  destruct (buildPhrase tokens x 3); [|exact H2].
  apply recordTerm_inv; [|exact H2]. destruct tier; reflexivity.
Qed.

Lemma collectStats_inv (text : jsstring) : statsInv (collectStats text).
Proof.
  unfold collectStats; apply fold_left_inv.
  - intros a f Ha; unfold collectFragment.
    destruct (tokenize (content f)); [exact Ha|].
    apply collectPhrases_inv, collectTokens_inv, Ha.
  - split; [constructor | constructor].
Qed.

Lemma statsInv_canonicals (m : JsMap.t KeywordStats) :
  statsInv m -> map stCanonical (JsMap.values m) = JsMap.keys m.
Proof.
  intros [_ H]; unfold JsMap.values, JsMap.keys.
  induction H as [|[k v] m [Hk _] _ IH]; simpl in *; [reflexivity|].
  rewrite Hk, IH; reflexivity.
Qed.

(** ** Refinement keeps a sub-list *)

Lemma filter_all (A : Type) (l : list A) : filter (fun _ => true) l = l.
Proof. induction l as [|x l IH]; simpl; [|rewrite IH]; reflexivity. Qed.

(** Two filters in a row are one filter by the conjunction. *)
Lemma filter_twice (A : Type) (p q : A -> bool) :
  forall l : list A,
    filter (fun x => andb (p x) (q x)) l = filter q (filter p l).
Proof.
  intros l; induction l as [|x l IH]; [reflexivity|].
  cbn [filter]; destruct (p x); cbn [andb filter];
    [destruct (q x); rewrite IH; reflexivity | exact IH].
Qed.

Lemma coverageStage_filter (l : list KeywordInsight) :
  exists p, coverageStage l = filter p l.
Proof.
  unfold coverageStage.
  destruct (Nat.ltb 10 _); [|exists (fun _ => true); symmetry; apply filter_all].
  destruct (Nat.leb 5 _);
    [eexists; reflexivity | exists (fun _ => true); symmetry; apply filter_all].
Qed.

Lemma percentileStage_filter (l : list KeywordInsight) :
  exists p, percentileStage l = filter p l.
Proof.
  unfold percentileStage.
  destruct (Nat.ltb 12 _); [|exists (fun _ => true); symmetry; apply filter_all].
  destruct (Nat.leb 5 _);
    [eexists; reflexivity | exists (fun _ => true); symmetry; apply filter_all].
Qed.

Lemma refineKeywords_filter (l : list KeywordInsight) :
  exists p, refineKeywords l = filter p l.
Proof.
  unfold refineKeywords.
  destruct (coverageStage_filter l) as [p Hp].
  destruct (percentileStage_filter (coverageStage l)) as [q Hq].
  destruct (percentileStage (coverageStage l)) eqn:E.
  - exists (fun _ => true); symmetry; apply filter_all.
  - rewrite Hq, Hp, <- filter_twice; eexists; reflexivity.
Qed.

Lemma sliceTo_firstn (A : Type) (l : list A) (limit : Z) :
  exists n, sliceTo l limit = firstn n l.
Proof. unfold sliceTo; eexists; reflexivity. Qed.

Lemma firstn_In (A : Type) (n : nat) (l : list A) (x : A) :
  In x (firstn n l) -> In x l.
Proof.
  revert l; induction n as [|n IH]; intros [|y l]; simpl; try tauto.
  intros [H|H]; [left; exact H | right; apply IH; exact H].
Qed.

Section DistinctKeys.
Variables (A K : Type) (key : A -> K).

(** Dropping elements keeps the keys distinct. *)
Lemma distinct_keys_filter (keep : A -> bool) :
  forall l, NoDup (map key l) -> NoDup (map key (filter keep l)).
Proof.
  intros l; induction l as [|x l IH]; cbn [filter map]; intros H;
    [constructor|].
  inversion H as [|? ? Hn Hl]; subst.
  destruct (keep x); cbn [map]; [|apply IH; exact Hl].
  constructor; [|apply IH; exact Hl].
  intros Hin; apply Hn.
  apply in_map_iff in Hin; destruct Hin as [y [Hy Hin]].
  apply filter_In in Hin; apply in_map_iff; exists y; tauto.
Qed.

(** So does keeping a prefix. *)
Lemma distinct_keys_firstn (n : nat) :
  forall l, NoDup (map key l) -> NoDup (map key (firstn n l)).
Proof.
  induction n as [|n IH]; intros [|x l]; cbn [firstn map]; intros H;
    try constructor.
  - inversion H as [|? ? Hn Hl]; subst.
    intros Hin; apply Hn.
    apply in_map_iff in Hin; destruct Hin as [y [Hy Hin]].
    apply firstn_In in Hin; apply in_map_iff; exists y; tauto.
  - inversion H; subst; apply IH; assumption.
Qed.
End DistinctKeys.

Lemma rankKeywords_canonicals (total : nat) (stats : list KeywordStats) :
  Permutation (map canonical (rankKeywords total stats))
    (map stCanonical stats).
Proof.
  unfold rankKeywords; destruct stats as [|s0 rest]; [apply Permutation_refl|].
  set (M := mathMax _ _).
  eapply Permutation_trans;
    [apply Permutation_map, stableSort_perm|].
  rewrite map_map; simpl; apply Permutation_refl.
Qed.

(** C10. The canonical keys of the returned keywords are pairwise distinct:
    every occurrence of a canonical key was merged into one accumulator. *)
Theorem extractKeywords_distinct_canonicals (text : jsstring) (limit : Z) :
  NoDup (map canonical (extractKeywords text limit)).
Proof.
  unfold extractKeywords.
  destruct (JsMap.values (collectStats text)) eqn:E; [constructor|].
  destruct (sliceTo_firstn (refineKeywords (candidateKeywords text)) limit)
    as [n ->].
  destruct (refineKeywords_filter (candidateKeywords text)) as [p ->].
  apply distinct_keys_firstn, distinct_keys_filter.
  unfold candidateKeywords.
  eapply Permutation_NoDup;
    [apply Permutation_sym, rankKeywords_canonicals|].
  rewrite (statsInv_canonicals (collectStats_inv text)).
  exact (proj1 (collectStats_inv text)).
Qed.

(** ** The importance formula *)





Lemma extractKeywords_from_stats (text : jsstring) (limit : Z)
    (kw : KeywordInsight) :
  In kw (extractKeywords text limit) ->
  exists s0 rest stat,
    JsMap.values (collectStats text) = s0 :: rest
    /\ In stat (s0 :: rest)
    /\ kw = toInsight (Nat.max (List.length (splitIntoFragments text)) 1)
              (mathMax (weightedOccurrences s0) (map weightedOccurrences rest))
              stat.
Proof.
  unfold extractKeywords.
  destruct (JsMap.values (collectStats text)) as [|s0 rest] eqn:E; [intros []|].
  destruct (sliceTo_firstn (refineKeywords (candidateKeywords text)) limit)
    as [n ->].
  destruct (refineKeywords_filter (candidateKeywords text)) as [p ->].
  intros H; apply firstn_In in H; apply filter_In in H; destruct H as [H _].
  unfold candidateKeywords in H; rewrite E in H; unfold rankKeywords in H.
  apply (proj1 (stableSort_In byImportanceDesc _ _)) in H.
  apply in_map_iff in H; destruct H as [stat [<- Hs]].
  exists s0, rest, stat; repeat split; assumption.
Qed.

(** ** The top keyword survives refinement *)
















(** ** The score *)



Lemma mathRound_nonneg (x : Q) : 0 <= x -> (0 <= mathRound x)%Z.
Proof.
  intros H; unfold mathRound.
  change 0%Z with (Qfloor 0); apply Qfloor_resp_le.
  setoid_replace 0 with (0 + 0) by ring; apply Qplus_le_compat;
    [exact H | discriminate].
Qed.

(** ** Keys of the trigram table *)

Lemma tokenStart_tokenChar (c : ascii) : tokenStart c = true -> tokenChar c = true.
Proof. intros H; unfold tokenChar; rewrite H; reflexivity. Qed.

Lemma scanTokens_tokChars (s : jsstring) :
  forall cur, match cur with Some w => tokChars w | None => True end ->
              Forall tokChars (scanTokens cur s).
Proof.
  induction s as [|c s IH]; intros [w|] Hw; simpl.
  - constructor; [exact Hw | constructor].
  - constructor.
  - destruct (tokenChar c) eqn:E.
    + apply IH; unfold tokChars; apply Forall_app; split;
        [exact Hw | constructor; [exact E | constructor]].
    + constructor; [exact Hw | apply IH; exact I].
  - destruct (tokenStart c) eqn:E; [|apply IH; exact I].
    apply IH; constructor; [apply tokenStart_tokenChar; exact E | constructor].
Qed.

Lemma tokenize_tokChars (text : jsstring) : Forall tokChars (tokenize text).
Proof. apply scanTokens_tokChars; exact I. Qed.

Lemma splitSpace_length (s : jsstring) :
  List.length (splitSpace s) = S (countSP s).
Proof.
  unfold countSP; induction s as [|c s IH]; [reflexivity|].
  cbn [splitSpace filter]; rewrite (Ascii.eqb_sym SP c).
  destruct (Ascii.eqb c SP); cbn [List.length]; [rewrite IH; reflexivity|].
  destruct (splitSpace s); cbn [consHead List.length] in *;
    [discriminate | exact IH].
Qed.

Lemma phraseChar_stable (c : ascii) :
  (tokenChar c || Ascii.eqb c SP)%bool = true ->
  lowerChar c = c
  /\ negb (tokenChar c || isSpace c) = false
  /\ (isSpace c = true -> c = SP).
Proof.
  destruct c as [[] [] [] [] [] [] [] []]; vm_compute;
    intros H; try discriminate H; repeat split; intros H'; discriminate H'.
Qed.

Lemma tokenChar_not_SP (c : ascii) : tokenChar c = true -> Ascii.eqb SP c = false.
Proof.
  destruct c as [[] [] [] [] [] [] [] []]; vm_compute; intros H;
    try discriminate H; reflexivity.
Qed.

Lemma replaceRuns_none (p : ascii -> bool) (s : jsstring) (b : bool) :
  Forall (fun c => p c = false) s -> replaceRuns p b s = s.
Proof.
  intros H; revert b; induction H as [|c s Hc _ IH]; intros b; simpl;
    [reflexivity|].
  rewrite Hc, IH; reflexivity.
Qed.

Lemma countSP_app (a b : jsstring) : countSP (a ++ b) = (countSP a + countSP b)%nat.
Proof. unfold countSP; rewrite filter_app, length_app; reflexivity. Qed.

Lemma countSP_cons (c : ascii) (s : jsstring) :
  countSP (c :: s)
  = ((if Ascii.eqb SP c then 1 else 0) + countSP s)%nat.
Proof.
  unfold countSP; cbn [filter]; destruct (Ascii.eqb SP c); reflexivity.
Qed.

Lemma countSP_SP (s : jsstring) : countSP (SP :: s) = S (countSP s).
Proof. rewrite countSP_cons, Ascii.eqb_refl; reflexivity. Qed.

Lemma replaceRuns_phraseChars (s : jsstring) (b : bool) :
  phraseChars s ->
  phraseChars (replaceRuns isSpace b s)
  /\ (countSP (replaceRuns isSpace b s) <= countSP s)%nat.
Proof.
  intros H; revert b; induction H as [|c s Hc _ IH]; intros b;
    cbn [replaceRuns]; [split; [constructor | lia]|].
  destruct (isSpace c) eqn:E.
  - destruct (phraseChar_stable c Hc) as [_ [_ Hsp]]; rewrite (Hsp E).
    rewrite countSP_SP.
    destruct b; destruct (IH true) as [H1 H2].
    + split; [exact H1 | lia].
    + split; [constructor; [reflexivity | exact H1]|].
      rewrite countSP_SP; lia.
  - destruct (IH false) as [H1 H2]; split; [constructor; assumption|].
    rewrite !countSP_cons; lia.
Qed.

Lemma dropWhile_phraseChars (s : jsstring) :
  phraseChars s ->
  phraseChars (dropWhile isSpace s)
  /\ (countSP (dropWhile isSpace s) <= countSP s)%nat.
Proof.
  induction 1 as [|c s Hc Hs IH]; cbn [dropWhile];
    [split; [constructor | lia]|].
  destruct (isSpace c).
  - destruct IH as [H1 H2]; split; [exact H1|].
    rewrite countSP_cons; lia.
  - split; [constructor; assumption | lia].
Qed.

Lemma countSP_rev (s : jsstring) : countSP (rev s) = countSP s.
Proof.
  induction s as [|c s IH]; [reflexivity|].
  cbn [rev]; rewrite countSP_app, IH, !countSP_cons.
  change (countSP []) with 0%nat; lia.
Qed.

Lemma trim_phraseChars (s : jsstring) :
  phraseChars s -> phraseChars (trim s) /\ (countSP (trim s) <= countSP s)%nat.
Proof.
  intros H; unfold trim, trimStart, trimEnd.
  destruct (dropWhile_phraseChars H) as [H1 H2].
  assert (Hr : phraseChars (rev (dropWhile isSpace s)))
    by (apply Forall_rev; exact H1).
  destruct (dropWhile_phraseChars Hr) as [H3 H4].
  split; [apply Forall_rev; exact H3|].
  rewrite countSP_rev; rewrite countSP_rev in H4; lia.
Qed.

Lemma normalizeTerm_phraseChars (s : jsstring) :
  phraseChars s -> (countSP (normalizeTerm s) <= countSP s)%nat.
Proof.
  intros H; unfold normalizeTerm.
  assert (E1 : toLowerCase s = s).
  { unfold toLowerCase; induction H as [|c s Hc _ IH]; simpl; [reflexivity|].
    rewrite IH, (proj1 (phraseChar_stable c Hc)); reflexivity. }
  assert (E2 : replaceRuns (fun c => negb (tokenChar c || isSpace c)) false s = s).
  { apply replaceRuns_none; apply Forall_forall; intros c Hc.
    unfold phraseChars in H; rewrite Forall_forall in H.
    exact (proj1 (proj2 (phraseChar_stable c (H c Hc)))). }
  rewrite E1, E2.
  destruct (replaceRuns_phraseChars false H) as [H1 H2].
  destruct (trim_phraseChars H1) as [_ H3]; lia.
Qed.

Lemma tokChars_phraseChars (w : jsstring) : tokChars w -> phraseChars w.
Proof.
  apply Forall_impl; intros c H; rewrite H; reflexivity.
Qed.

Lemma tokChars_countSP (w : jsstring) : tokChars w -> countSP w = 0%nat.
Proof.
  induction 1 as [|c w Hc _ IH]; [reflexivity|].
  rewrite countSP_cons, (tokenChar_not_SP c Hc); exact IH.
Qed.

Lemma joinSpace_phrase (parts : list jsstring) :
  Forall tokChars parts ->
  phraseChars (joinSpace parts)
  /\ (countSP (joinSpace parts) <= List.length parts - 1)%nat.
Proof.
  induction 1 as [|p parts Hp Hps IH];
    [split; [constructor | cbn; lia]|].
  destruct parts as [|q parts].
  - simpl; split; [apply tokChars_phraseChars; exact Hp|].
    rewrite (tokChars_countSP Hp); lia.
  - destruct IH as [H1 H2].
    change (joinSpace (p :: q :: parts))
      with (p ++ SP :: joinSpace (q :: parts)).
    split.
    + apply Forall_app; split; [apply tokChars_phraseChars; exact Hp|].
      constructor; [reflexivity | exact H1].
    + rewrite countSP_app, (tokChars_countSP Hp), countSP_SP.
      cbn [List.length] in *; lia.
Qed.

Lemma buildPhrase_width (tokens : list jsstring) (start len : nat)
    (ph : jsstring) :
  Forall tokChars tokens -> buildPhrase tokens start len = Some ph ->
  phraseChars ph /\ (countSP ph <= len - 1)%nat.
Proof.
  intros Ht; unfold buildPhrase.
  set (slice := sliceTokens tokens start len).
  destruct (Nat.ltb _ len); [discriminate|].
  destruct (_ || _)%bool; [discriminate|].
  destruct (_ || _)%bool; [discriminate|].
  destruct (forallb _ slice); [discriminate|].
  intros H; inversion H; subst; clear H.
  assert (Hs : Forall tokChars slice).
  { unfold slice, sliceTokens; apply Forall_forall; intros w Hw.
    apply firstn_In in Hw.
    rewrite Forall_forall in Ht; apply Ht.
    clear - Hw; revert tokens Hw; induction start as [|n IH];
      intros [|t tokens]; simpl; auto. }
  destruct (joinSpace_phrase Hs) as [H1 H2].
  destruct (trim_phraseChars H1) as [H3 H4]; split; [exact H3|].
  assert (Hl : (List.length slice <= len)%nat)
    by (unfold slice, sliceTokens; apply firstn_le_length).
  lia.
Qed.

Lemma SYNONYM_LOOKUP_narrow :
  Forall (fun kv => (List.length (splitSpace (synCanonical (snd kv))) <= 3)%nat)
    SYNONYM_LOOKUP.
Proof.
  apply Forall_forall; intros kv Hkv.
  assert (H : forallb (fun kv => Nat.leb
                         (List.length (splitSpace (synCanonical (snd kv)))) 3)
                SYNONYM_LOOKUP = true) by (vm_compute; reflexivity).
  rewrite forallb_forall in H; apply Nat.leb_le; apply H; exact Hkv.
Qed.

Lemma getCanonicalKey_width (ph : jsstring) :
  phraseChars ph -> (countSP ph <= 2)%nat ->
  (List.length (splitSpace (getCanonicalKey ph)) <= 3)%nat.
Proof.
  intros Hp Hc; unfold getCanonicalKey.
  destruct (truthy (normalizeTerm ph)); [|simpl; lia].
  destruct (JsMap.get SYNONYM_LOOKUP (normalizeTerm ph)) as [info|] eqn:E.
  - apply get_In in E.
    pose proof SYNONYM_LOOKUP_narrow as H; rewrite Forall_forall in H.
    exact (H _ E).
  - rewrite splitSpace_length.
    pose proof (normalizeTerm_phraseChars Hp); lia.
Qed.

Lemma trigram_table_narrow (tokens : list jsstring) :
  Forall tokChars tokens -> narrowKeys (buildNgramCounts tokens 3).
Proof.
  intros Ht; unfold buildNgramCounts; apply fold_left_inv; [|constructor].
  intros counts index Hc; unfold ngramStep; simpl.
  destruct (buildPhrase tokens index 3) as [ph|] eqn:E; [|exact Hc].
  unfold bump; apply set_Forall; [exact Hc|]; simpl.
  destruct (buildPhrase_width _ _ Ht E) as [H1 H2].
  apply getCanonicalKey_width; [exact H1 | simpl in H2; exact H2].
Qed.

Lemma matchFor_In (resumeText : jsstring) (keywords : list KeywordInsight)
    (kw : KeywordInsight) :
  In kw keywords ->
  In (matchFor resumeText kw) (keywordMatchesOf resumeText keywords).
Proof. intros H; unfold keywordMatchesOf, matchFor; apply in_map; exact H. Qed.

(** C9. A keyword whose canonical key splits into more than three pieces
    at spaces is looked up in the trigram table, which has no such key: it
    gets zero hits and is listed among the missing keywords, and not among
    the matched ones. *)
Theorem analyzeResume_long_keyword (resumeText : jsstring)
    (keywords : list KeywordInsight) (kw : KeywordInsight) :
  In kw keywords ->
  (3 < List.length (splitSpace (canonical kw)))%nat ->
  JsMap.get (buildNgramCounts (tokenize resumeText) 3) (canonical kw) = None
  /\ resumeHits (matchFor resumeText kw) = 0%Z
  /\ In (matchFor resumeText kw)
       (missingKeywords (analyzeResume resumeText keywords))
  /\ ~ In (matchFor resumeText kw)
         (matchedKeywords (analyzeResume resumeText keywords)).
Proof.
  intros Hin Hlen.
  assert (Hnone : JsMap.get (buildNgramCounts (tokenize resumeText) 3)
                    (canonical kw) = None).
  { destruct (JsMap.get _ (canonical kw)) as [n|] eqn:E; [|reflexivity].
    apply get_In in E.
    pose proof (trigram_table_narrow (tokenize_tokChars resumeText)) as Hn.
    unfold narrowKeys in Hn; rewrite Forall_forall in Hn.
    specialize (Hn _ E); simpl in Hn; lia. }
  assert (Hhits : resumeHits (matchFor resumeText kw) = 0%Z).
  { unfold matchFor, toMatch, hitsOf; simpl.
    destruct (Nat.eqb_spec (List.length (splitSpace (canonical kw))) 1); [lia|].
    destruct (Nat.eqb_spec (List.length (splitSpace (canonical kw))) 2); [lia|].
    rewrite Hnone; reflexivity. }
  repeat split; try assumption.
  - simpl; apply filter_In; split; [apply matchFor_In; exact Hin|].
    unfold isMissing; rewrite Hhits; reflexivity.
  - simpl; intros H; apply filter_In in H; destruct H as [_ H].
    unfold isMatched in H; rewrite Hhits in H; discriminate.
Qed.

(** ** Tokens of a text cut at delimiters *)

Lemma scanTokens_app (a b : jsstring) :
  startsDelim b = true -> toLowerCase b = b ->
  forall cur, scanTokens cur (a ++ b) = scanTokens cur a ++ scanTokens None b.
Proof.
  intros Hb Hlow; induction a as [|x a IH]; intros cur.
  - cbn [app scanTokens]; destruct b as [|c b'].
    + destruct cur; reflexivity.
    + assert (Hc : tokenChar c = false).
      { unfold toLowerCase in Hlow; cbn [map] in Hlow.
        injection Hlow as Hc' _.
        change (isDelimiter c = true) in Hb; unfold isDelimiter in Hb.
        rewrite Hc' in Hb; apply negb_true_iff in Hb; exact Hb. }
      assert (Hs : tokenStart c = false).
      { destruct (tokenStart c) eqn:E; [|reflexivity].
        rewrite (tokenStart_tokenChar c E) in Hc; discriminate. }
      cbn [scanTokens]; rewrite Hc, Hs; destruct cur; reflexivity.
  - cbn [app scanTokens]; destruct cur as [w|].
    + destruct (tokenChar x); [apply IH | rewrite IH; reflexivity].
    + destruct (tokenStart x); apply IH.
Qed.

Lemma lowerChar_idem (c : ascii) : lowerChar (lowerChar c) = lowerChar c.
Proof. destruct c as [[] [] [] [] [] [] [] []]; reflexivity. Qed.

Lemma toLowerCase_idem (s : jsstring) :
  toLowerCase (toLowerCase s) = toLowerCase s.
Proof.
  unfold toLowerCase; rewrite map_map; apply map_ext; apply lowerChar_idem.
Qed.

Lemma startsDelim_lower (s : jsstring) :
  startsDelim s = true -> startsDelim (toLowerCase s) = true.
Proof.
  destruct s as [|c s]; [reflexivity|]; cbn; unfold isDelimiter.
  rewrite lowerChar_idem; auto.
Qed.

Lemma tokenize_app_r (a b : jsstring) :
  startsDelim b = true -> tokenize (a ++ b) = tokenize a ++ tokenize b.
Proof.
  intros H; unfold tokenize, toLowerCase; rewrite map_app.
  apply scanTokens_app;
    [apply startsDelim_lower; exact H | apply toLowerCase_idem].
Qed.

(** A text after which the tokenizer is outside a token can be cut off
    as well, whatever its last code unit is. *)
Lemma scanTokens_outside (a b : jsstring) :
  forall cur,
    insideToken (match cur with Some _ => true | None => false end) a = false ->
    scanTokens cur (a ++ b) = scanTokens cur a ++ scanTokens None b.
Proof.
  induction a as [|x a IH]; intros cur H.
  - destruct cur; [discriminate H | reflexivity].
  - cbn [app scanTokens insideToken] in *; destruct cur as [w|].
    + destruct (tokenChar x); [apply IH; exact H|].
      rewrite (IH None H); reflexivity.
    + destruct (tokenStart x); apply IH; exact H.
Qed.

Lemma tokenize_outside (a b : jsstring) :
  endsInToken a = false -> tokenize (a ++ b) = tokenize a ++ tokenize b.
Proof.
  intros H; unfold tokenize, toLowerCase; rewrite map_app.
  apply (scanTokens_outside _ _ None); exact H.
Qed.

Lemma tokenize_around (pre mid post : jsstring) :
  endsInToken pre = false -> startsDelim post = true ->
  tokenize (pre ++ mid ++ post) = tokenize pre ++ tokenize mid ++ tokenize post.
Proof.
  intros Hpre Hpost.
  rewrite (tokenize_outside _ _ Hpre), (tokenize_app_r _ _ Hpost); reflexivity.
Qed.

Lemma insideToken_last (s : jsstring) (c : ascii) :
  forall b, insideToken b (s ++ [c])
            = if insideToken b s then tokenChar c else tokenStart c.
Proof.
  induction s as [|x s IH]; intros b; [reflexivity|].
  cbn [app insideToken]; apply IH.
Qed.

(** A text that ends with a delimiter ends outside a token. *)
Lemma endsDelim_outside (s : jsstring) :
  endsDelim s = true -> endsInToken s = false.
Proof.
  unfold endsDelim, endsInToken; intros H.
  destruct (rev s) as [|d r] eqn:E.
  - apply (f_equal (@rev ascii)) in E; rewrite rev_involutive in E; subst s.
    reflexivity.
  - apply (f_equal (@rev ascii)) in E; rewrite rev_involutive in E.
    cbn [rev] in E; subst s.
    unfold toLowerCase; rewrite map_app; cbn [map].
    rewrite insideToken_last.
    cbn in H; unfold isDelimiter in H; apply negb_true_iff in H.
    destruct (insideToken false (map lowerChar (rev r))); [exact H|].
    destruct (tokenStart (lowerChar d)) eqn:Es; [|reflexivity].
    rewrite (tokenStart_tokenChar _ Es) in H; discriminate.
Qed.

(** ** The unigram table counts kept tokens by canonical key *)

Lemma get_set (V : Type) (m : JsMap.t V) (k k2 : jsstring) (v : V) :
  JsMap.get (JsMap.set m k v) k2
  = if streqb k k2 then Some v else JsMap.get m k2.
Proof.
  induction m as [|[k' v'] m IH]; cbn [JsMap.set JsMap.get]; [reflexivity|].
  destruct (streqb k' k) eqn:E; cbn [JsMap.get].
  - apply streqb_eq in E; subst k'.
    destruct (streqb k k2); reflexivity.
  - rewrite IH; destruct (streqb k' k2) eqn:E2; [|reflexivity].
    destruct (streqb k k2) eqn:E3; [|reflexivity].
    apply streqb_eq in E2, E3; subst; rewrite streqb_refl in E; discriminate.
Qed.

Lemma getOr0_bump (counts : JsMap.t Z) (key k2 : jsstring) :
  getOr0 (bump counts key) k2
  = (getOr0 counts k2 + if streqb key k2 then 1 else 0)%Z.
Proof.
  unfold getOr0, bump; rewrite get_set.
  destruct (streqb key k2) eqn:E; [|lia].
  apply streqb_eq in E; subst; reflexivity.
Qed.

Lemma getOr0_uniSteps (key : jsstring) (tokens : list jsstring) :
  forall counts,
    getOr0 (fold_left uniStep tokens counts) key
    = (getOr0 counts key + hitCount key tokens)%Z.
Proof.
  unfold hitCount; induction tokens as [|t tokens IH]; intros counts;
    cbn [fold_left filter]; [cbn; lia|].
  rewrite IH; unfold uniStep.
  destruct (shouldKeepToken t); cbn [andb]; [|lia].
  rewrite getOr0_bump.
  destruct (streqb (getCanonicalKey t) key); cbn [List.length]; lia.
Qed.

Lemma unigram_loop (pre tokens : list jsstring) :
  forall counts,
    fold_left (ngramStep (pre ++ tokens) 1)
      (seq (List.length pre) (List.length tokens)) counts
    = fold_left uniStep tokens counts.
Proof.
  revert pre; induction tokens as [|t tokens IH]; intros pre counts;
    [reflexivity|].
  cbn [List.length seq fold_left].
  assert (Hstep : ngramStep (pre ++ t :: tokens) 1 counts (List.length pre)
                  = uniStep counts t).
  { unfold ngramStep, sliceTokens, uniStep.
    rewrite skipn_app, skipn_all, Nat.sub_diag; cbn.
    destruct (shouldKeepToken t); reflexivity. }
  rewrite Hstep.
  replace (pre ++ t :: tokens) with ((pre ++ [t]) ++ tokens)
    by (rewrite <- app_assoc; reflexivity).
  replace (S (List.length pre)) with (List.length (pre ++ [t]))
    by (rewrite length_app; cbn; lia).
  apply IH.
Qed.

Lemma unigram_hits (tokens : list jsstring) (key : jsstring) :
  getOr0 (buildNgramCounts tokens 1) key = hitCount key tokens.
Proof.
  unfold buildNgramCounts.
  replace (List.length tokens + 1 - 1)%nat with (List.length tokens) by lia.
  rewrite (unigram_loop [] tokens), getOr0_uniSteps; reflexivity.
Qed.

Lemma hitCount_app (key : jsstring) (a b : list jsstring) :
  hitCount key (a ++ b) = (hitCount key a + hitCount key b)%Z.
Proof. unfold hitCount; rewrite filter_app, length_app; lia. Qed.

Lemma hitCount_nonneg (key : jsstring) (tokens : list jsstring) :
  (0 <= hitCount key tokens)%Z.
Proof. unfold hitCount; lia. Qed.

Lemma react_hits (resumeText : jsstring) (kw : KeywordInsight) :
  canonical kw = getCanonicalKey (str "react") ->
  resumeHits (matchFor resumeText kw)
  = hitCount (str "react") (tokenize resumeText).
Proof.
  intros Hc; unfold matchFor, toMatch, hitsOf; cbn [resumeHits].
  rewrite Hc.
  change (getCanonicalKey (str "react")) with (str "react").
  change (Nat.eqb (List.length (splitSpace (str "react"))) 1) with true.
  cbv iota; apply unigram_hits.
Qed.

(** C5, amended.  In a resume where "React.js" begins a token (the
    tokenizer is outside a token after the text before it) and is followed
    by the end of the text or by a code unit that cannot continue a token,
    it gives a keyword whose canonical key is the canonical form of
    "react" exactly the entry that the literal token "react" gives in the
    same place: the same hit count, at least 1, and a place among the
    matched keywords; both spellings have the same canonical key. *)
Theorem analyzeResume_react_synonym (pre post : jsstring)
    (keywords : list KeywordInsight) (kw : KeywordInsight) :
  endsInToken pre = false ->
  startsDelim post = true ->
  In kw keywords ->
  canonical kw = getCanonicalKey (str "react") ->
  let viaSynonym := pre ++ str "React.js" ++ post in
  let literal := pre ++ str "react" ++ post in
  getCanonicalKey (str "React.js") = getCanonicalKey (str "react")
  /\ matchFor viaSynonym kw = matchFor literal kw
  /\ (1 <= resumeHits (matchFor viaSynonym kw))%Z
  /\ In (matchFor viaSynonym kw)
       (matchedKeywords (analyzeResume viaSynonym keywords))
  /\ In (matchFor literal kw)
       (matchedKeywords (analyzeResume literal keywords)).
Proof.
  intros Hpre Hpost Hin Hc viaSynonym literal.
  assert (H1 : resumeHits (matchFor viaSynonym kw)
               = (hitCount (str "react") (tokenize pre) + 1
                  + hitCount (str "react") (tokenize post))%Z).
  { rewrite (react_hits _ _ Hc); unfold viaSynonym.
    rewrite (tokenize_around _ _ _ Hpre Hpost), !hitCount_app.
    change (hitCount (str "react") (tokenize (str "React.js"))) with 1%Z; lia. }
  assert (H2 : resumeHits (matchFor literal kw)
               = (hitCount (str "react") (tokenize pre) + 1
                  + hitCount (str "react") (tokenize post))%Z).
  { rewrite (react_hits _ _ Hc); unfold literal.
    rewrite (tokenize_around _ _ _ Hpre Hpost), !hitCount_app.
    change (hitCount (str "react") (tokenize (str "react"))) with 1%Z; lia. }
  pose proof (hitCount_nonneg (str "react") (tokenize pre)) as Hp1.
  pose proof (hitCount_nonneg (str "react") (tokenize post)) as Hp2.
  assert (Heq : matchFor viaSynonym kw = matchFor literal kw).
  { unfold matchFor, toMatch; f_equal.
    change (resumeHits (matchFor viaSynonym kw)
            = resumeHits (matchFor literal kw)).
    rewrite H1, H2; reflexivity. }
  repeat split.
  - exact Heq.
  - lia.
  - cbn [analyzeResume matchedKeywords]; apply filter_In; split;
      [apply matchFor_In; exact Hin|].
    unfold isMatched; apply Z.ltb_lt; lia.
  - cbn [analyzeResume matchedKeywords]; apply filter_In; split;
      [apply matchFor_In; exact Hin|].
    unfold isMatched; apply Z.ltb_lt; lia.
Qed.

(** C5, as stated: a resume that contains "React.js" is scored like the
    same resume with the literal "react".  This fails where the word is
    glued to a neighbour by a token code unit: before "/Node" the spelling
    "React.js" still ends its token at the dot and counts once, while the
    literal runs into the token "react/node" and counts nothing; after
    "Node/" neither spelling counts. *)
Lemma analyzeResume_react_synonym_as_stated_fail :
  canonical kwReact = getCanonicalKey (str "react")
  /\ resumeHits (matchFor (str "React.js/Node") kwReact) = 1%Z
  /\ resumeHits (matchFor (str "react/Node") kwReact) = 0%Z
  /\ matchedKeywords (analyzeResume (str "react/Node") [kwReact]) = []
  /\ resumeHits (matchFor (str "Node/React.js") kwReact) = 0%Z
  /\ matchedKeywords (analyzeResume (str "Node/React.js") [kwReact]) = [].
Proof. vm_compute; repeat split. Qed.

(** ** The tier scenario *)

Example jdLayout_tiers :
  tierOf (str "react") (extractKeywords jdLayout defaultLimit) = Some core
  /\ tierOf (str "agile") (extractKeywords jdLayout defaultLimit)
     = Some responsibility
  /\ tierOf (str "aws") (extractKeywords jdLayout defaultLimit)
     = Some preferred.
Proof. vm_compute; repeat split. Qed.

(** C6, as stated: on the one-line scenario text "react" would be core,
    "agile" responsibility and "aws" preferred.  This fails. *)
Lemma jdScenario_tiers_as_stated_fail :
  ~ (tierOf (str "react") (extractKeywords jdScenario defaultLimit) = Some core
     /\ tierOf (str "agile") (extractKeywords jdScenario defaultLimit)
        = Some responsibility
     /\ tierOf (str "aws") (extractKeywords jdScenario defaultLimit)
        = Some preferred).
Proof.
  intros [_ [H _]]; vm_compute in H; discriminate H.
Qed.

(** C6, amended.  The scenario text is one line of 112 code units: it is too
    long to be a heading, the inline marker "Must" makes its only fragment
    core, and "react", "agile" and "aws" are all returned with tier core, as
    is every other keyword. *)
Theorem jdScenario_tiers :
  List.length jdScenario = 112%nat
  /\ detectHeadingSection jdScenario = None
  /\ detectInlinePriority jdScenario = Some core
  /\ map fragSection (splitIntoFragments jdScenario) = [core]
  /\ tierOf (str "react") (extractKeywords jdScenario defaultLimit) = Some core
  /\ tierOf (str "agile") (extractKeywords jdScenario defaultLimit) = Some core
  /\ tierOf (str "aws") (extractKeywords jdScenario defaultLimit) = Some core
  /\ forallb (fun k => tierEqb (section k) core)
       (extractKeywords jdScenario defaultLimit) = true.
Proof. vm_compute; repeat split. Qed.

(** ** Instances *)


Lemma analyzeResume_react_synonym_witness :
  endsInToken (str "Stack: -") = false
  /\ startsDelim (str " and Node.") = true
  /\ In kwReact [kwReact]
  /\ canonical kwReact = getCanonicalKey (str "react")
  /\ matchFor (str "Stack: -" ++ str "React.js" ++ str " and Node.") kwReact
     = matchFor (str "Stack: -" ++ str "react" ++ str " and Node.") kwReact
  /\ (1 <= resumeHits
             (matchFor (str "Stack: -" ++ str "React.js" ++ str " and Node.")
                kwReact))%Z.
Proof.
  assert (H1 : endsInToken (str "Stack: -") = false) by reflexivity.
  assert (H2 : startsDelim (str " and Node.") = true) by reflexivity.
  assert (H3 : In kwReact [kwReact]) by (left; reflexivity).
  assert (H4 : canonical kwReact = getCanonicalKey (str "react")) by reflexivity.
  destruct (@analyzeResume_react_synonym
              (str "Stack: -") (str " and Node.")
              [kwReact] kwReact H1 H2 H3 H4) as [_ [Heq [Hhits _]]].
  split; [exact H1 | split; [exact H2 | split; [exact H3 | split; [exact H4|]]]].
  split; [exact Heq | exact Hhits].
Defined.

Lemma analyzeResume_long_keyword_witness :
  In kwLong [kwReact; kwLong]
  /\ (3 < List.length (splitSpace (canonical kwLong)))%nat
  /\ resumeHits (matchFor (str "On call for site reliability on call rotas") kwLong)
     = 0%Z
  /\ In (matchFor (str "On call for site reliability on call rotas") kwLong)
       (missingKeywords
          (analyzeResume (str "On call for site reliability on call rotas")
             [kwReact; kwLong])).
Proof.
  assert (H1 : In kwLong [kwReact; kwLong]) by (right; left; reflexivity).
  assert (H2 : (3 < List.length (splitSpace (canonical kwLong)))%nat)
    by (vm_compute; lia).
  split; [exact H1 | split; [exact H2|]].
  destruct (@analyzeResume_long_keyword
              (str "On call for site reliability on call rotas")
              [kwReact; kwLong] kwLong H1 H2) as [_ [Hh [Hm _]]].
  split; [exact Hh | exact Hm].
Defined.

(* ================================================================== *)
(** * Further properties of the engine *)

(** ** Tokens *)

Lemma scanTokens_wellFormed (s : jsstring) :
  forall cur,
    match cur with Some w => wellFormedToken w | None => True end ->
    Forall wellFormedToken (scanTokens cur s).
Proof.
  induction s as [|c s IH]; intros [w|] Hw; cbn [scanTokens].
  - constructor; [exact Hw | constructor].
  - constructor.
  - destruct (tokenChar c) eqn:E.
    + apply IH; destruct Hw as [c0 [rest [-> [Hs Hc]]]].
      exists c0, (rest ++ [c]); repeat split; [exact Hs|].
      change (tokChars ((c0 :: rest) ++ [c])); apply Forall_app; split;
        [exact Hc | constructor; [exact E | constructor]].
    + constructor; [exact Hw | apply IH; exact I].
  - destruct (tokenStart c) eqn:E; [|apply IH; exact I].
    apply IH; exists c, []; repeat split; [exact E|].
    constructor; [apply tokenStart_tokenChar; exact E | constructor].
Qed.

Lemma tokChars_lower (w : jsstring) : tokChars w -> toLowerCase w = w.
Proof.
  unfold toLowerCase; induction 1 as [|c w' Hc' _ IH]; [reflexivity|].
  cbn [map]; rewrite IH.
  assert (Hp : (tokenChar c || Ascii.eqb c SP)%bool = true)
    by (rewrite Hc'; reflexivity).
  rewrite (proj1 (phraseChar_stable c Hp)); reflexivity.
Qed.

(** X1. Every token is non-empty, begins with a letter, a digit, [+] or
    [#], continues with such code units, [-] or [/], and is in lower
    case. *)
Theorem tokenize_wellFormed (text : jsstring) :
  Forall (fun w => wellFormedToken w /\ w <> [] /\ toLowerCase w = w)
    (tokenize text).
Proof.
  pose proof (scanTokens_wellFormed (toLowerCase text) None I) as H.
  apply Forall_forall; intros w Hw.
  unfold tokenize in Hw; rewrite Forall_forall in H.
  pose proof (H w Hw) as Hwf; split; [exact Hwf | split].
  - destruct Hwf as [c [rest [-> _]]]; discriminate.
  - destruct Hwf as [_ [_ [_ [_ Hc]]]]; apply tokChars_lower; exact Hc.
Qed.

(** ** The limit *)

Lemma sliceTo_nonneg (A : Type) (l : list A) (limit : Z) :
  (0 <= limit)%Z -> sliceTo l limit = firstn (Z.to_nat limit) l.
Proof.
  intros H; unfold sliceTo.
  destruct (Z.ltb_spec limit 0); [lia|].
  destruct (Z.le_ge_cases limit (Z.of_nat (List.length l))) as [Hle|Hge].
  - rewrite Z.min_l by exact Hle; reflexivity.
  - rewrite Z.min_r by exact Hge.
    rewrite Nat2Z.id, firstn_all.
    symmetry; apply firstn_all2; lia.
Qed.

(** X2. With a limit that is not negative, at most [limit] keywords are
    returned. *)
Theorem extractKeywords_length (text : jsstring) (limit : Z) :
  (0 <= limit)%Z ->
  (Z.of_nat (List.length (extractKeywords text limit)) <= limit)%Z.
Proof.
  intros H; unfold extractKeywords.
  destruct (JsMap.values (collectStats text)); [simpl; lia|].
  rewrite (sliceTo_nonneg _ H).
  pose proof (firstn_le_length (Z.to_nat limit)
                (refineKeywords (candidateKeywords text))); lia.
Qed.

Lemma extractKeywords_length_witness :
  (0 <= 3)%Z /\ (Z.of_nat (List.length (extractKeywords jdScenario 3)) <= 3)%Z.
Proof.
  split; [lia|].
  apply (@extractKeywords_length jdScenario 3); lia.
Defined.

(** X3. Lowering the limit only cuts the end of the result: the keywords
    returned under a smaller limit are the first ones returned under a
    larger limit. *)
Theorem extractKeywords_prefix (text : jsstring) (small large : Z) :
  (0 <= small <= large)%Z ->
  extractKeywords text small
  = firstn (Z.to_nat small) (extractKeywords text large).
Proof.
  intros [H0 Hle]; unfold extractKeywords.
  destruct (JsMap.values (collectStats text)); [rewrite firstn_nil; reflexivity|].
  rewrite (sliceTo_nonneg _ H0), (sliceTo_nonneg _ (Z.le_trans _ _ _ H0 Hle)).
  rewrite firstn_firstn.
  replace (Nat.min (Z.to_nat small) (Z.to_nat large)) with (Z.to_nat small)
    by lia.
  reflexivity.
Qed.

Lemma extractKeywords_prefix_witness :
  (0 <= 2 <= defaultLimit)%Z
  /\ extractKeywords jdLayout 2
     = firstn (Z.to_nat 2) (extractKeywords jdLayout defaultLimit).
Proof.
  assert (H : (0 <= 2 <= defaultLimit)%Z) by (unfold defaultLimit; lia).
  split; [exact H|].
  exact (@extractKeywords_prefix jdLayout 2 defaultLimit H).
Defined.

(** ** Bounds of the importance *)





(** ** The order of the result *)





(** ** Normal forms *)

Lemma replaceRuns_termClass (s : jsstring) (b : bool) :
  Forall (fun c => (tokenChar c || isSpace c)%bool = true)
    (replaceRuns (fun c => negb (tokenChar c || isSpace c)) b s).
Proof.
  revert b; induction s as [|c s IH]; intros b; cbn [replaceRuns];
    [constructor|].
  destruct (tokenChar c || isSpace c)%bool eqn:E; cbn [negb].
  - constructor; [exact E | apply IH].
  - destruct b; [apply IH | constructor; [reflexivity | apply IH]].
Qed.

Lemma replaceRuns_spaced (s : jsstring) :
  Forall (fun c => (tokenChar c || isSpace c)%bool = true) s ->
  forall b,
    phraseChars (replaceRuns isSpace b s)
    /\ spaced (replaceRuns isSpace b s)
    /\ (b = true -> startsNonSpace (replaceRuns isSpace b s)).
Proof.
  induction 1 as [|c s Hc _ IH]; intros b; cbn [replaceRuns];
    [split; [constructor | split; [exact I | intros _; exact I]]|].
  destruct (isSpace c) eqn:E.
  - destruct (IH true) as [H1 [H2 H3]]; destruct b.
    + split; [exact H1 | split; [exact H2 | exact H3]].
    + split; [constructor; [reflexivity | exact H1]|].
      split; [|discriminate].
      cbn [spaced]; split; [intros _; apply H3; reflexivity | exact H2].
  - destruct (IH false) as [H1 [H2 _]].
    split; [|split].
    + constructor; [|exact H1].
      rewrite orb_false_r in Hc; rewrite Hc; reflexivity.
    + cbn [spaced]; split; [rewrite E; discriminate | exact H2].
    + intros _; exact E.
Qed.

Lemma spaced_app (a b : jsstring) : spaced (a ++ b) -> spaced a /\ spaced b.
Proof.
  induction a as [|c a IH]; cbn [app spaced]; [tauto|].
  intros [H1 H2]; destruct (IH H2) as [Ha Hb]; repeat split; try assumption.
  intros Hc; specialize (H1 Hc); destruct a; [exact I | exact H1].
Qed.

Lemma dropWhile_suffix (A : Type) (p : A -> bool) (l : list A) :
  exists a, l = a ++ dropWhile p l.
Proof.
  induction l as [|x l [a IH]]; cbn [dropWhile]; [exists []; reflexivity|].
  destruct (p x); [exists (x :: a); cbn [app]; rewrite <- IH; reflexivity
                  | exists []; reflexivity].
Qed.

Lemma trim_infix (s : jsstring) : exists a b, s = a ++ trim s ++ b.
Proof.
  unfold trim, trimStart, trimEnd.
  destruct (dropWhile_suffix isSpace s) as [a Ha].
  destruct (dropWhile_suffix isSpace (rev (dropWhile isSpace s))) as [b Hb].
  exists a, (rev b).
  rewrite <- rev_app_distr, <- Hb, rev_involutive; exact Ha.
Qed.

Lemma dropWhile_start (l : jsstring) : startsNonSpace (dropWhile isSpace l).
Proof.
  induction l as [|c l IH]; cbn [dropWhile]; [exact I|].
  destruct (isSpace c) eqn:E; [exact IH | exact E].
Qed.

Lemma dropWhile_fixed (l : jsstring) :
  startsNonSpace l -> dropWhile isSpace l = l.
Proof.
  destruct l as [|c l]; cbn [startsNonSpace dropWhile]; [reflexivity|].
  intros ->; reflexivity.
Qed.

Lemma startsNonSpace_app (a b : jsstring) :
  startsNonSpace (a ++ b) -> startsNonSpace a.
Proof. destruct a; cbn; auto. Qed.

Lemma trim_idem (s : jsstring) : trim (trim s) = trim s.
Proof.
  unfold trim, trimStart, trimEnd.
  set (z := dropWhile isSpace s).
  set (u := dropWhile isSpace (rev z)).
  assert (Hu : startsNonSpace u) by apply dropWhile_start.
  assert (Hz : startsNonSpace z) by apply dropWhile_start.
  assert (Hr : startsNonSpace (rev u)).
  { destruct (dropWhile_suffix isSpace (rev z)) as [a Ha]; fold u in Ha.
    apply (f_equal (@rev ascii)) in Ha.
    rewrite rev_involutive, rev_app_distr in Ha.
    rewrite Ha in Hz; exact (startsNonSpace_app _ _ Hz). }
  rewrite (dropWhile_fixed _ Hr), rev_involutive, (dropWhile_fixed _ Hu).
  reflexivity.
Qed.

Lemma replaceRuns_space_fixed (s : jsstring) :
  phraseChars s -> spaced s ->
  forall b, (b = true -> startsNonSpace s) -> replaceRuns isSpace b s = s.
Proof.
  induction 1 as [|c s Hc _ IH]; intros Hsp b Hb; cbn [replaceRuns];
    [reflexivity|].
  destruct Hsp as [Hnext Hsp].
  destruct (isSpace c) eqn:E.
  - destruct b; [specialize (Hb eq_refl); cbn in Hb; congruence|].
    rewrite (proj2 (proj2 (phraseChar_stable c Hc)) E).
    rewrite (IH Hsp true (fun _ => Hnext eq_refl)); reflexivity.
  - rewrite (IH Hsp false); [reflexivity | discriminate].
Qed.

Lemma phraseChars_lower (s : jsstring) : phraseChars s -> toLowerCase s = s.
Proof.
  unfold toLowerCase; induction 1 as [|c s Hc _ IH]; [reflexivity|].
  cbn [map]; rewrite IH, (proj1 (phraseChar_stable c Hc)); reflexivity.
Qed.

Lemma normalizeTerm_normalForm (t : jsstring) : normalForm (normalizeTerm t).
Proof.
  unfold normalizeTerm.
  set (y := replaceRuns isSpace false _).
  destruct (replaceRuns_spaced
              (replaceRuns_termClass (toLowerCase t) false) false)
    as [H1 [H2 _]]; fold y in H1, H2.
  repeat split.
  - apply trim_phraseChars; exact H1.
  - destruct (trim_infix y) as [a [b Hy]]; rewrite Hy in H2.
    apply spaced_app in H2; destruct H2 as [_ H2].
    apply spaced_app in H2; tauto.
  - apply trim_idem.
Qed.

Lemma normalForm_fixed (s : jsstring) : normalForm s -> normalizeTerm s = s.
Proof.
  intros [Hp [Hs Ht]]; unfold normalizeTerm.
  rewrite (phraseChars_lower Hp).
  assert (E2 : replaceRuns (fun c => negb (tokenChar c || isSpace c)) false s = s).
  { apply replaceRuns_none; apply Forall_forall; intros c Hc.
    unfold phraseChars in Hp; rewrite Forall_forall in Hp.
    exact (proj1 (proj2 (phraseChar_stable c (Hp c Hc)))). }
  rewrite E2, (@replaceRuns_space_fixed s Hp Hs false); [exact Ht | discriminate].
Qed.

(** X6. Normalising a term twice changes nothing more: the result of
    [normalizeTerm] is a fixed point, made of token code units separated
    by single plain spaces. *)
Theorem normalizeTerm_idempotent (t : jsstring) :
  normalizeTerm (normalizeTerm t) = normalizeTerm t
  /\ phraseChars (normalizeTerm t).
Proof.
  split; [apply normalForm_fixed, normalizeTerm_normalForm|].
  exact (proj1 (normalizeTerm_normalForm t)).
Qed.

Lemma SYNONYM_LOOKUP_canonicals :
  Forall (fun kv =>
            getCanonicalKey (synCanonical (snd kv)) = synCanonical (snd kv)
            /\ matchable (synCanonical (snd kv)) = true)
    SYNONYM_LOOKUP.
Proof.
  apply Forall_forall; intros kv Hkv.
  assert (H : forallb (fun kv =>
                (streqb (getCanonicalKey (synCanonical (snd kv)))
                   (synCanonical (snd kv))
                 && matchable (synCanonical (snd kv)))%bool)
                SYNONYM_LOOKUP = true) by (vm_compute; reflexivity).
  rewrite forallb_forall in H; specialize (H kv Hkv).
  apply andb_true_iff in H; destruct H as [H1 H2]; split;
    [apply streqb_eq; exact H1 | exact H2].
Qed.

Lemma matchable_phraseChars (key : jsstring) :
  matchable key = true <-> phraseChars key.
Proof.
  unfold matchable, phraseChars; rewrite forallb_forall, Forall_forall; tauto.
Qed.

(** X7. A canonical key is its own canonical key: looking a key up a second
    time gives the key back, for synonyms and for unlisted terms alike. *)
Theorem getCanonicalKey_idempotent (t : jsstring) :
  getCanonicalKey (getCanonicalKey t) = getCanonicalKey t.
Proof.
  unfold getCanonicalKey at 2 3.
  destruct (truthy (normalizeTerm t)) eqn:Et; [|reflexivity].
  destruct (JsMap.get SYNONYM_LOOKUP (normalizeTerm t)) as [info|] eqn:E.
  - apply get_In in E.
    pose proof SYNONYM_LOOKUP_canonicals as H; rewrite Forall_forall in H.
    exact (proj1 (H _ E)).
  - unfold getCanonicalKey.
    rewrite (normalForm_fixed (normalizeTerm_normalForm t)), Et, E.
    reflexivity.
Qed.

Lemma getCanonicalKey_matchable (t : jsstring) :
  matchable (getCanonicalKey t) = true.
Proof.
  unfold getCanonicalKey.
  destruct (truthy (normalizeTerm t)); [|reflexivity].
  destruct (JsMap.get SYNONYM_LOOKUP (normalizeTerm t)) as [info|] eqn:E.
  - apply get_In in E.
    pose proof SYNONYM_LOOKUP_canonicals as H; rewrite Forall_forall in H.
    exact (proj2 (H _ E)).
  - apply matchable_phraseChars; exact (proj1 (normalizeTerm_normalForm t)).
Qed.

Lemma table_keys_matchable (tokens : list jsstring) (size : nat) :
  Forall (fun kv => matchable (fst kv) = true) (buildNgramCounts tokens size).
Proof.
  unfold buildNgramCounts; apply fold_left_inv; [|constructor].
  intros counts index Hc; unfold ngramStep.
  destruct (_ && _)%bool; [exact Hc|].
  destruct (Nat.ltb 1 size).
  - destruct (buildPhrase tokens index size); [|exact Hc].
    unfold bump; apply set_Forall; [exact Hc | apply getCanonicalKey_matchable].
  - unfold bump; apply set_Forall; [exact Hc | apply getCanonicalKey_matchable].
Qed.

(** X8. A keyword whose canonical key holds a code unit that no table key
    can hold (a capital letter, a dot, a tab, ...) is never found: for
    every resume it has zero hits and is listed as missing. *)
Theorem analyzeResume_foreign_key (resumeText : jsstring)
    (keywords : list KeywordInsight) (kw : KeywordInsight) :
  In kw keywords ->
  matchable (canonical kw) = false ->
  resumeHits (matchFor resumeText kw) = 0%Z
  /\ In (matchFor resumeText kw)
       (missingKeywords (analyzeResume resumeText keywords)).
Proof.
  intros Hin Hbad.
  assert (Hhits : resumeHits (matchFor resumeText kw) = 0%Z).
  { unfold matchFor, toMatch, hitsOf; cbn [resumeHits].
    set (tbl := if Nat.eqb _ 1 then _ else _).
    assert (Ht : Forall (fun kv => matchable (fst kv) = true) tbl).
    { unfold tbl; destruct (Nat.eqb _ 1); [|destruct (Nat.eqb _ 2)];
        apply table_keys_matchable. }
    destruct (JsMap.get tbl (canonical kw)) as [n|] eqn:E; [|reflexivity].
    apply get_In in E; rewrite Forall_forall in Ht.
    specialize (Ht _ E); cbn [fst] in Ht; congruence. }
  split; [exact Hhits|].
  cbn [analyzeResume missingKeywords]; apply filter_In; split;
    [apply matchFor_In; exact Hin|].
  unfold isMissing; rewrite Hhits; reflexivity.
Qed.

Lemma analyzeResume_foreign_key_witness :
  In (mkKeywordInsight (str "node.js") (str "Node.js") 1 1 core phrase [] 1)
     [mkKeywordInsight (str "node.js") (str "Node.js") 1 1 core phrase [] 1]
  /\ matchable (str "node.js") = false
  /\ resumeHits
       (matchFor (str "Built services in Node.js")
          (mkKeywordInsight (str "node.js") (str "Node.js") 1 1 core phrase [] 1))
     = 0%Z.
Proof.
  assert (H1 : In (mkKeywordInsight (str "node.js") (str "Node.js")
                     1 1 core phrase [] 1)
                 [mkKeywordInsight (str "node.js") (str "Node.js")
                    1 1 core phrase [] 1]) by (left; reflexivity).
  assert (H2 : matchable (str "node.js") = false) by reflexivity.
  split; [exact H1 | split; [exact H2|]].
  exact (proj1 (@analyzeResume_foreign_key (str "Built services in Node.js")
                  [mkKeywordInsight (str "node.js") (str "Node.js")
                     1 1 core phrase [] 1]
                  (mkKeywordInsight (str "node.js") (str "Node.js")
                     1 1 core phrase [] 1) H1 H2)).
Defined.

(** X9. For a keyword whose canonical key has no space, the hit count is
    the number of resume tokens that are kept (three code units or more,
    not a filler word) and whose canonical key is the keyword's. *)
Theorem analyzeResume_single_word_hits (resumeText : jsstring)
    (kw : KeywordInsight) :
  countSP (canonical kw) = 0%nat ->
  resumeHits (matchFor resumeText kw)
  = hitCount (canonical kw) (tokenize resumeText).
Proof.
  intros H; unfold matchFor, toMatch, hitsOf; cbn [resumeHits].
  rewrite splitSpace_length, H; cbn [Nat.eqb]; apply unigram_hits.
Qed.

Lemma analyzeResume_single_word_hits_witness :
  countSP (canonical kwReact) = 0%nat
  /\ resumeHits
       (matchFor (str "React, ReactJS and more react") kwReact)
     = hitCount (canonical kwReact)
         (tokenize (str "React, ReactJS and more react")).
Proof.
  split; [reflexivity|].
  apply (@analyzeResume_single_word_hits
           (str "React, ReactJS and more react") kwReact); reflexivity.
Defined.

(** ** Fragments *)

Lemma fold_left_inv_in (A B : Type) (P : A -> Prop) (f : A -> B -> A)
    (l : list B) :
  (forall a x, In x l -> P a -> P (f a x)) ->
  forall a, P a -> P (fold_left f l a).
Proof.
  induction l as [|x l IH]; intros Hf a Ha; cbn [fold_left]; [exact Ha|].
  apply IH; [intros a' y Hy; apply Hf; right; exact Hy|].
  apply Hf; [left; reflexivity | exact Ha].
Qed.

Lemma fragmentStep_facts (st : list SectionFragment * RequirementTier * nat)
    (line : jsstring) :
  line <> [] -> trim line = line ->
  (snd st = List.length (fst (fst st))
   /\ map fragId (fst (fst st)) = seq 0 (snd st)
   /\ Forall fragmentFacts (fst (fst st))) ->
  (snd (fragmentStep st line) = List.length (fst (fst (fragmentStep st line)))
   /\ map fragId (fst (fst (fragmentStep st line)))
      = seq 0 (snd (fragmentStep st line))
   /\ Forall fragmentFacts (fst (fst (fragmentStep st line)))).
Proof.
  destruct st as [[fragments active] counter]; cbn [fst snd fragmentStep].
  intros Hne Htrim [Hc [Hids Hall]].
  destruct (detectHeadingSection line) eqn:Eh; cbn [fst snd];
    [repeat split; assumption|].
  split; [rewrite length_app; cbn [List.length]; lia|].
  split.
  - rewrite map_app, Hids, seq_S; reflexivity.
  - apply Forall_app; split; [exact Hall|].
    constructor; [|constructor].
    unfold fragmentFacts; cbn [content fragSection].
    repeat split; try assumption.
    intros tier Ht; rewrite Ht; reflexivity.
Qed.

(** X10. The fragments are numbered 0, 1, 2, ... in order; each one is a
    trimmed, non-empty line that was not taken as a heading, and a fragment
    with an inline priority marker carries the tier of that marker. *)
Theorem splitIntoFragments_shape (text : jsstring) :
  map fragId (splitIntoFragments text)
  = seq 0 (List.length (splitIntoFragments text))
  /\ Forall fragmentFacts (splitIntoFragments text).
Proof.
  unfold splitIntoFragments.
  set (lines := filter truthy (map trim (splitLines text))).
  assert (H : let st := fold_left fragmentStep lines ([], general, 0%nat) in
              snd st = List.length (fst (fst st))
              /\ map fragId (fst (fst st)) = seq 0 (snd st)
              /\ Forall fragmentFacts (fst (fst st))).
  { apply (fold_left_inv_in
             (fun st => snd st = List.length (fst (fst st))
                        /\ map fragId (fst (fst st)) = seq 0 (snd st)
                        /\ Forall fragmentFacts (fst (fst st)))).
    - intros st line Hline; apply fragmentStep_facts.
      + apply filter_In in Hline; destruct Hline as [_ Ht].
        destruct line; [discriminate | discriminate].
      + apply filter_In in Hline; destruct Hline as [Hl _].
        apply in_map_iff in Hl; destruct Hl as [raw [<- _]]; apply trim_idem.
    - cbn; repeat split; constructor. }
  cbn zeta in H; destruct H as [Hc [Hids Hall]].
  split; [rewrite <- Hc; exact Hids | exact Hall].
Qed.

(** ** What every accumulator records *)

Lemma setHas_In (s : list jsstring) (x : jsstring) :
  setHas s x = true <-> In x s.
Proof.
  unfold setHas; rewrite existsb_exists; split.
  - intros [y [Hy E]]; apply streqb_eq in E; subst; exact Hy.
  - intros H; exists x; split; [exact H | apply streqb_refl].
Qed.

Lemma setAdd_In (s : list jsstring) (y x : jsstring) :
  In x (setAdd s y) <-> In x s \/ x = y.
Proof.
  unfold setAdd; destruct (setHas s y) eqn:E.
  - apply setHas_In in E; split; [tauto | intros [H| ->]; assumption].
  - rewrite in_app_iff; cbn [In]; split; [intros [H|[H|[]]]; auto | intros [H|H]; auto].
Qed.

Lemma fold_setAdd_In (l s : list jsstring) (x : jsstring) :
  In x (fold_left setAdd l s) <-> In x s \/ In x l.
Proof.
  revert s; induction l as [|y l IH]; intros s; cbn [fold_left In]; [tauto|].
  rewrite IH, setAdd_In; split; [intros [[H|H]|H]; auto | intros [H|[H|H]]; auto].
Qed.

Lemma idAdd_In (s : list nat) (y x : nat) :
  In x (idAdd s y) <-> In x s \/ x = y.
Proof.
  unfold idAdd; destruct (existsb (Nat.eqb y) s) eqn:E.
  - apply existsb_exists in E; destruct E as [z [Hz E]].
    apply Nat.eqb_eq in E; subst z.
    split; [tauto | intros [H| ->]; assumption].
  - rewrite in_app_iff; cbn [In]; split;
      [intros [H|[H|[]]]; auto | intros [H|H]; auto].
Qed.

Lemma idAdd_NoDup (s : list nat) (y : nat) : NoDup s -> NoDup (idAdd s y).
Proof.
  intros H; unfold idAdd; destruct (existsb (Nat.eqb y) s) eqn:E; [exact H|].
  apply NoDup_app; [exact H | constructor; [intros [] | constructor] |].
  intros x Hx [Ey|[]]; subst x.
  assert (Ht : existsb (Nat.eqb y) s = true)
    by (apply existsb_exists; exists y; split; [exact Hx | apply Nat.eqb_refl]).
  congruence.
Qed.

Lemma SYNONYM_LOOKUP_variants :
  Forall (fun kv =>
            In (synCanonical (snd kv)) (synVariants (snd kv))
            /\ (3 <= List.length (synCanonical (snd kv)))%nat
            /\ isGenericTerm (synCanonical (snd kv)) = false)
    SYNONYM_LOOKUP.
Proof.
  apply Forall_forall; intros kv Hkv.
  assert (H : forallb (fun kv =>
                (setHas (synVariants (snd kv)) (synCanonical (snd kv))
                 && Nat.leb 3 (List.length (synCanonical (snd kv)))
                 && negb (isGenericTerm (synCanonical (snd kv))))%bool)
                SYNONYM_LOOKUP = true) by (vm_compute; reflexivity).
  rewrite forallb_forall in H; specialize (H kv Hkv).
  apply andb_true_iff in H; destruct H as [H H3].
  apply andb_true_iff in H; destruct H as [H1 H2].
  split; [apply setHas_In; exact H1|].
  split; [apply Nat.leb_le; exact H2 | apply negb_true_iff; exact H3].
Qed.

Lemma recordTerm_facts (ids : list nat) (t : jsstring) (src : KeywordSource)
    (tier : RequirementTier) (w : Q) (fragmentId : nat)
    (m : JsMap.t KeywordStats) :
  In fragmentId ids -> statsFacts ids m ->
  statsFacts ids (recordTerm t src tier w fragmentId m).
Proof.
  intros Hid Hm; unfold recordTerm.
  destruct (negb (truthy (normalizeTerm t))
            || Nat.ltb (List.length (normalizeTerm t)) 3)%bool eqn:Eshort;
    [exact Hm|].
  destruct (isGenericTerm (normalizeTerm t)) eqn:Egen; [exact Hm|].
  apply orb_false_iff in Eshort; destruct Eshort as [_ Elen].
  apply Nat.ltb_ge in Elen.
  set (info := JsMap.get SYNONYM_LOOKUP (normalizeTerm t)).
  set (key := match info with
              | Some i => synCanonical i
              | None => normalizeTerm t
              end).
  assert (Hkey : (3 <= List.length key)%nat
                 /\ In key (match info with
                            | Some i => synVariants i
                            | None => [key]
                            end)
                 /\ isGenericTerm key = false).
  { unfold key; destruct info as [i|] eqn:Ei.
    - apply get_In in Ei.
      pose proof SYNONYM_LOOKUP_variants as H; rewrite Forall_forall in H.
      destruct (H _ Ei) as [H1 [H2 H3]]; repeat split; assumption.
    - split; [exact Elen | split; [left; reflexivity | exact Egen]]. }
  destruct Hkey as [Hlen [Hvar Hgen]].
  unfold statsFacts; apply set_Forall; [exact Hm|]; cbn [snd].
  cbn [fragmentIds stOccurrences stCanonical stVariants].
  assert (Hv : forall vs,
             In key (fold_left setAdd
                       (setAdd (uniqueStrings
                                  match info with
                                  | Some i => synVariants i
                                  | None => [key]
                                  end) (normalizeTerm t)) vs)).
  { intros vs; apply fold_setAdd_In; right; apply setAdd_In; left.
    unfold uniqueStrings; apply fold_setAdd_In; right; exact Hvar. }
  destruct (JsMap.get m key) as [existing|] eqn:E.
  - apply get_In in E; unfold statsFacts in Hm; rewrite Forall_forall in Hm.
    destruct (Hm _ E) as [H1 [H2 [H3 [H4 [H5 [H6 H7]]]]]]; cbn [snd] in *.
    split; [|split; [|split; [|split; [|split; [|split]]]]].
    + apply idAdd_NoDup; exact H1.
    + intros x Hx; apply idAdd_In in Hx; destruct Hx as [Hx| ->];
        [apply H2; exact Hx | exact Hid].
    + intros Hnil.
      assert (Hin : In fragmentId (idAdd (fragmentIds existing) fragmentId))
        by (apply idAdd_In; right; reflexivity).
      rewrite Hnil in Hin; exact Hin.
    + lia.
    + apply fold_setAdd_In; left; exact H5.
    + exact H6.
    + exact H7.
  - cbn [fragmentIds stOccurrences stCanonical stVariants].
    split; [|split; [|split; [|split; [|split; [|split]]]]].
    + apply idAdd_NoDup; constructor.
    + intros x Hx; apply idAdd_In in Hx; destruct Hx as [[]| ->]; exact Hid.
    + discriminate.
    + lia.
    + apply Hv.
    + exact Hlen.
    + exact Hgen.
Qed.

Lemma collectFragment_facts (ids : list nat) (m : JsMap.t KeywordStats)
    (f : SectionFragment) :
  In (fragId f) ids -> statsFacts ids m -> statsFacts ids (collectFragment m f).
Proof.
  intros Hid Hm; unfold collectFragment.
  destruct (tokenize (content f)) as [|t0 ts]; [exact Hm|].
  set (tokens := t0 :: ts).
  unfold collectPhrases; apply fold_left_inv.
  - intros a x Ha.
    assert (H2 : statsFacts ids
                   match buildPhrase tokens x 2 with
                   | Some bigram =>
                       recordTerm bigram phrase (fragSection f)
                         (SECTION_WEIGHTS (fragSection f) * (11 # 10))
                         (fragId f) a
                   | None => a
                   end)
      by (destruct (buildPhrase tokens x 2);
          [apply recordTerm_facts; assumption | exact Ha]).
    destruct (buildPhrase tokens x 3);
      [apply recordTerm_facts; assumption | exact H2].
  - unfold collectTokens; apply fold_left_inv; [|exact Hm].
    intros a x Ha; destruct (shouldKeepToken x);
      [apply recordTerm_facts; assumption | exact Ha].
Qed.

Lemma collectStats_facts (text : jsstring) :
  statsFacts (map fragId (splitIntoFragments text)) (collectStats text).
Proof.
  unfold collectStats; apply fold_left_inv_in; [|constructor].
  intros a f Hf Ha; apply collectFragment_facts; [|exact Ha].
  apply in_map; exact Hf.
Qed.

Lemma collectStats_fact (text : jsstring) (stat : KeywordStats) :
  In stat (JsMap.values (collectStats text)) ->
  NoDup (fragmentIds stat)
  /\ incl (fragmentIds stat) (map fragId (splitIntoFragments text))
  /\ fragmentIds stat <> []
  /\ (1 <= stOccurrences stat)%Z
  /\ In (stCanonical stat) (stVariants stat)
  /\ (3 <= List.length (stCanonical stat))%nat
  /\ isGenericTerm (stCanonical stat) = false.
Proof.
  intros H; unfold JsMap.values in H; apply in_map_iff in H.
  destruct H as [[k v] [<- Hkv]].
  pose proof (collectStats_facts text) as Hall.
  unfold statsFacts in Hall; rewrite Forall_forall in Hall.
  exact (Hall _ Hkv).
Qed.



(** X12. Every returned keyword has been seen at least once, has a
    canonical key of three code units or more, and lists that key among
    its variants. *)
Theorem extractKeywords_keyword_facts (text : jsstring) (limit : Z)
    (kw : KeywordInsight) :
  In kw (extractKeywords text limit) ->
  (1 <= occurrences kw)%Z
  /\ (3 <= List.length (canonical kw))%nat
  /\ In (canonical kw) (variants kw).
Proof.
  intros H.
  destruct (extractKeywords_from_stats _ _ _ H) as [s0 [rest [stat [E [Hs ->]]]]].
  rewrite <- E in Hs.
  destruct (collectStats_fact text stat Hs) as [_ [_ [_ [Ho [Hv [Hl _]]]]]].
  cbn [occurrences canonical variants toInsight].
  split; [exact Ho | split; [exact Hl|]].
  apply (proj2 (stableSort_In strGt _ _)); exact Hv.
Qed.

Lemma extractKeywords_keyword_facts_witness :
  In (firstKeyword jdScenario) (extractKeywords jdScenario defaultLimit)
  /\ (1 <= occurrences (firstKeyword jdScenario))%Z
  /\ (3 <= List.length (canonical (firstKeyword jdScenario)))%nat
  /\ In (canonical (firstKeyword jdScenario))
       (variants (firstKeyword jdScenario)).
Proof.
  assert (H : In (firstKeyword jdScenario)
                (extractKeywords jdScenario defaultLimit))
    by (vm_compute; left; reflexivity).
  split; [exact H|].
  exact (@extractKeywords_keyword_facts jdScenario defaultLimit
           (firstKeyword jdScenario) H).
Defined.

(** ** A resume without tokens *)

Lemma Qdiv_0_l (x : Q) : 0 / x == 0.
Proof. unfold Qdiv; apply Qmult_0_l. Qed.

Lemma no_hits_partition (l : list KeywordMatch) :
  Forall (fun m => resumeHits m = 0%Z) l ->
  filter isMatched l = [] /\ filter isMissing l = l.
Proof.
  induction 1 as [|m l Hm _ [IH1 IH2]]; cbn [filter]; [split; reflexivity|].
  unfold isMatched at 1, isMissing at 1; rewrite Hm; cbn.
  rewrite IH1, IH2; split; reflexivity.
Qed.

(** X13. A resume without any token (empty, white space, punctuation
    only) matches nothing: every keyword is missing and the score is 0,
    whatever the keywords are. *)
Theorem analyzeResume_no_tokens (resumeText : jsstring)
    (keywords : list KeywordInsight) :
  tokenize resumeText = [] ->
  matchedKeywords (analyzeResume resumeText keywords) = []
  /\ List.length (missingKeywords (analyzeResume resumeText keywords))
     = List.length keywords
  /\ Forall (fun m => resumeHits m = 0%Z)
       (missingKeywords (analyzeResume resumeText keywords))
  /\ score (analyzeResume resumeText keywords) = 0%Z.
Proof.
  intros Htok.
  assert (Hall : Forall (fun m => resumeHits m = 0%Z)
                   (keywordMatchesOf resumeText keywords)).
  { unfold keywordMatchesOf; rewrite Htok; apply Forall_forall; intros m Hm.
    apply in_map_iff in Hm; destruct Hm as [kw [<- _]].
    cbn [resumeHits toMatch]; unfold hitsOf.
    destruct (Nat.eqb _ 1); [reflexivity|].
    destruct (Nat.eqb _ 2); reflexivity. }
  destruct (no_hits_partition Hall) as [E1 E2].
  cbn [analyzeResume matchedKeywords missingKeywords score].
  rewrite E1, E2; repeat split.
  - unfold keywordMatchesOf; apply length_map.
  - exact Hall.
  - assert (Hz : (coverageScoreOf keywords [] * (6 # 10)
                  + densityScoreOf keywords [] * (3 # 10)
                  + breadthScoreOf keywords [] * (1 # 10)) * 100 + (1 # 2)
                 == 1 # 2).
    { unfold coverageScoreOf, densityScoreOf, breadthScoreOf.
      change (sumQ (map mImportance [])) with 0.
      change (sumQ (map densityTerm [])) with 0.
      change (QofNat (List.length (@nil KeywordMatch))) with 0.
      rewrite !Qdiv_0_l; reflexivity. }
    unfold finalScoreOf, mathRound; rewrite (Qfloor_comp _ _ Hz); reflexivity.
Qed.

Lemma analyzeResume_no_tokens_witness :
  tokenize (str " -- ... !") = []
  /\ matchedKeywords (analyzeResume (str " -- ... !") [kwReact; kwLong]) = []
  /\ score (analyzeResume (str " -- ... !") [kwReact; kwLong]) = 0%Z.
Proof.
  assert (H : tokenize (str " -- ... !") = []) by reflexivity.
  destruct (@analyzeResume_no_tokens (str " -- ... !") [kwReact; kwLong] H)
    as [H1 [_ [_ H4]]].
  split; [exact H | split; [exact H1 | exact H4]].
Defined.

(** ** Suggestions *)

(** X15. There are at most seven suggestions, five to add and two to
    expand.  A suggestion to add names a missing keyword; a suggestion to
    expand names a matched keyword with fewer hits than the job description
    has occurrences; either carries the canonical key and the tier of its
    keyword. *)
Theorem analyzeResume_suggestions (resumeText : jsstring)
    (keywords : list KeywordInsight) :
  let a := analyzeResume resumeText keywords in
  (List.length (suggestions a) <= 7)%nat
  /\ forall s, In s (suggestions a) ->
       exists m,
         sgCanonical s = mCanonical m
         /\ priority s = mSection m
         /\ ((sgType s = add /\ In m (missingKeywords a))
             \/ (sgType s = expand /\ In m (matchedKeywords a)
                 /\ (resumeHits m < jdOccurrences m)%Z)).
Proof.
  cbn zeta; cbn [analyzeResume suggestions matchedKeywords missingKeywords].
  set (matched := filter isMatched _).
  set (missing := filter isMissing _).
  unfold buildSuggestions.
  rewrite !sliceTo_nonneg by lia.
  split.
  - rewrite length_app, !length_map.
    pose proof (firstn_le_length (Z.to_nat 5)
                  (stableSort (fun a b => Qltb 0 (mImportance b - mImportance a))
                     missing)).
    pose proof (firstn_le_length (Z.to_nat 2)
                  (filter (fun m => (Z.ltb 0 (resumeHits m)
                                     && Z.ltb (resumeHits m) (jdOccurrences m))%bool)
                     matched)).
    lia.
  - intros s Hs; apply in_app_or in Hs; destruct Hs as [Hs|Hs];
      apply in_map_iff in Hs; destruct Hs as [m [<- Hm]];
      apply firstn_In in Hm; exists m; cbn; repeat split.
    + left; split; [reflexivity|].
      apply (proj1 (stableSort_In _ _ _)) in Hm; exact Hm.
    + right; apply filter_In in Hm; destruct Hm as [Hm Hc].
      apply andb_true_iff in Hc; destruct Hc as [_ Hc].
      apply Z.ltb_lt in Hc; repeat split; assumption.
Qed.

(** ** The section of a keyword *)







(* ================================================================== *)
(** * Properties of the callers *)

(** ** truncateForModel *)

(** X18. A text within the bound is returned as it is; a longer text is cut
    to its first [maxChars] code units and the marker of 15 code units is
    added, so the result never exceeds [maxChars + 15] and begins as the
    text does. *)
Theorem truncateForModel_bound (text : jsstring) (maxChars : Z) :
  (0 <= maxChars)%Z ->
  (Z.of_nat (List.length (truncateForModel text maxChars)) <= maxChars + 15)%Z
  /\ ((Z.of_nat (List.length text) <= maxChars)%Z ->
      truncateForModel text maxChars = text)
  /\ firstn (Z.to_nat maxChars) (truncateForModel text maxChars)
     = firstn (Z.to_nat maxChars) text.
Proof.
  intros H; unfold truncateForModel.
  destruct (Z.leb_spec (Z.of_nat (List.length text)) maxChars) as [Hle|Hgt].
  - split; [lia | split; [intros _; reflexivity | reflexivity]].
  - rewrite (sliceTo_nonneg _ H).
    assert (Hk : List.length (firstn (Z.to_nat maxChars) text)
                 = Z.to_nat maxChars)
      by (apply firstn_length_le; lia).
    split; [|split].
    + rewrite length_app, Hk; cbn [List.length str list_ascii_of_string]; lia.
    + intros Hc; lia.
    + rewrite firstn_app, Hk, Nat.sub_diag, firstn_firstn, Nat.min_id.
      cbn [firstn]; apply app_nil_r.
Qed.

Lemma truncateForModel_bound_witness :
  (0 <= 5)%Z
  /\ (Z.of_nat (List.length (truncateForModel (str "hello world") 5)) <= 5 + 15)%Z
  /\ firstn (Z.to_nat 5) (truncateForModel (str "hello world") 5)
     = firstn (Z.to_nat 5) (str "hello world").
Proof.
  assert (H : (0 <= 5)%Z) by lia.
  destruct (@truncateForModel_bound (str "hello world") 5 H) as [H1 [_ H3]].
  split; [exact H | split; [exact H1 | exact H3]].
Defined.

(** ** Interview questions *)

Lemma fillQuestions_extends (fuel : nat) (k0 : KeywordInsight)
    (keywords : list KeywordInsight) :
  forall questions,
    (List.length questions <= 10)%nat ->
    (10 <= List.length questions + fuel)%nat ->
    exists fillers,
      fillQuestions fuel k0 keywords questions = questions ++ fillers
      /\ List.length (questions ++ fillers) = 10%nat.
Proof.
  induction fuel as [|fuel IH]; intros questions Hle Hge; cbn [fillQuestions].
  - exists []; rewrite app_nil_r; split; [reflexivity | lia].
  - destruct (Nat.ltb_spec (List.length questions) 10) as [Hlt|Hnl].
    + set (q := currencyQuestion _).
      destruct (IH (questions ++ [q])) as [fillers [E Hl]];
        [rewrite length_app; cbn; lia | rewrite length_app; cbn; lia|].
      exists (q :: fillers); rewrite E, <- app_assoc in *; cbn [app] in *.
      split; [reflexivity | exact Hl].
    + exists []; rewrite app_nil_r; split; [reflexivity | lia].
Qed.

Lemma templateQuestions_length (prioritized : list KeywordInsight) :
  forall index,
    List.length (templateQuestions index prioritized)
    = List.length prioritized.
Proof.
  induction prioritized as [|k rest IH]; intros index; cbn; [reflexivity|].
  rewrite IH; reflexivity.
Qed.

(** X19. For a keyword list that is not empty there are exactly ten
    questions: one per keyword for the first six keywords, then the four
    general prompts, then questions on keeping expertise current; the loop
    that adds the latter stops by its own test, whatever bound of ten or
    more rounds it is given.  For the empty list there is none. *)
Theorem buildFallbackInterviewQuestions_ten (keywords : list KeywordInsight) :
  buildFallbackInterviewQuestions [] = []
  /\ (keywords <> [] ->
      List.length (buildFallbackInterviewQuestions keywords) = 10%nat
      /\ (exists fillers,
            buildFallbackInterviewQuestions keywords
            = templateQuestions 0 (firstn 6 keywords) ++ generalPrompts
              ++ fillers)
      /\ forall extra,
           interviewQuestionsWithin (10 + extra) keywords
           = buildFallbackInterviewQuestions keywords).
Proof.
  split; [reflexivity|].
  intros Hne; destruct keywords as [|k0 rest]; [congruence|].
  unfold buildFallbackInterviewQuestions, interviewQuestionsWithin.
  set (keywords := k0 :: rest).
  rewrite (sliceTo_nonneg keywords (limit := 6)) by lia.
  change (Z.to_nat 6) with 6%nat.
  set (questions := templateQuestions 0 (firstn 6 keywords) ++ generalPrompts).
  assert (Hlen : (5 <= List.length questions <= 10)%nat).
  { unfold questions; rewrite length_app, templateQuestions_length.
    pose proof (firstn_le_length 6 keywords).
    assert (1 <= List.length (firstn 6 keywords))%nat by (cbn; lia).
    cbn [List.length generalPrompts]; lia. }
  assert (Hfill : forall fuel, (10 <= fuel)%nat ->
            exists fillers,
              sliceTo (fillQuestions fuel k0 keywords questions) 10
              = questions ++ fillers
              /\ List.length (questions ++ fillers) = 10%nat).
  { intros fuel Hf.
    destruct (@fillQuestions_extends fuel k0 keywords questions)
      as [fillers [E Hl]]; [lia | lia|].
    exists fillers; split; [|exact Hl].
    rewrite E, sliceTo_nonneg by lia.
    apply firstn_all2; change (Z.to_nat 10) with 10%nat; lia. }
  destruct (Hfill 10%nat) as [fillers [E Hl]]; [lia|].
  split; [rewrite E; exact Hl | split].
  - exists fillers; rewrite E; unfold questions; rewrite <- app_assoc.
    reflexivity.
  - intros extra.
    destruct (Hfill (10 + extra)%nat) as [fillers' [E' Hl']]; [lia|].
    rewrite E, E'.
    destruct (@fillQuestions_extends 10 k0 keywords questions)
      as [f1 [E1 _]]; [lia | lia|].
    destruct (@fillQuestions_extends (10 + extra) k0 keywords questions)
      as [f2 [E2 _]]; [lia | lia|].
    assert (Hsame : fillQuestions (10 + extra) k0 keywords questions
                    = fillQuestions 10 k0 keywords questions).
    { clear - Hlen. revert Hlen; generalize questions; clear questions.
      assert (G : forall fuel qs, (10 <= List.length qs + fuel)%nat ->
                  forall more, fillQuestions (fuel + more) k0 keywords qs
                               = fillQuestions fuel k0 keywords qs).
      { induction fuel as [|fuel IH]; intros qs Hq more.
        - destruct more; cbn [Nat.add fillQuestions]; [reflexivity|].
          destruct (Nat.ltb_spec (List.length qs) 10); [lia | reflexivity].
        - cbn [Nat.add fillQuestions].
          destruct (Nat.ltb (List.length qs) 10); [|reflexivity].
          apply IH; rewrite length_app; cbn; lia. }
      intros qs Hq; apply (G 10%nat qs); lia. }
    assert (Hsl : sliceTo (fillQuestions (10 + extra) k0 keywords questions) 10
                  = sliceTo (fillQuestions 10 k0 keywords questions) 10)
      by (rewrite Hsame; reflexivity).
    rewrite E, E' in Hsl; exact Hsl.
Qed.

Lemma buildFallbackInterviewQuestions_ten_witness :
  [kwReact; kwLong] <> []
  /\ List.length (buildFallbackInterviewQuestions [kwReact; kwLong]) = 10%nat.
Proof.
  assert (H : [kwReact; kwLong] <> []) by discriminate.
  split; [exact H|].
  exact (proj1 (proj2 (@buildFallbackInterviewQuestions_ten [kwReact; kwLong])
                  H)).
Defined.

(** ** Capability cards *)

Lemma allBuckets_set (P : Bucket -> Prop) (tr : Tracker) (id : CapabilityId)
    (b : Bucket) :
  allBuckets P tr -> P b -> allBuckets P (setBucket tr id b).
Proof.
  intros [H1 [H2 H3]] Hb; destruct id; unfold allBuckets; cbn; tauto.
Qed.

Lemma allBuckets_get (P : Bucket -> Prop) (tr : Tracker) (id : CapabilityId) :
  allBuckets P tr -> P (bucketOf tr id).
Proof. intros [H1 [H2 H3]]; destruct id; assumption. Qed.

Lemma pushBounded_shape (bound : nat) (l : list jsstring) (text : jsstring) :
  (List.length l <= bound)%nat -> NoDup l ->
  (List.length (pushBounded bound l text) <= bound)%nat
  /\ NoDup (pushBounded bound l text).
Proof.
  intros Hl Hn; unfold pushBounded.
  destruct (Nat.ltb_spec (List.length l) bound) as [Hlt|Hge]; cbn [andb];
    [|split; assumption].
  destruct (setHas l text) eqn:E; cbn [negb]; [split; assumption|].
  split; [rewrite length_app; cbn; lia|].
  apply NoDup_app; [exact Hn | constructor; [intros [] | constructor]|].
  intros x Hx [Ex|[]]; subst x.
  apply setHas_In in Hx; congruence.
Qed.

Lemma trackAnalysis_shape (analysis : ResumeAnalysis) :
  allBuckets bucketShape (trackAnalysis analysis).
Proof.
  unfold trackAnalysis; apply fold_left_inv; [|apply fold_left_inv].
  - intros tr m Htr; unfold trackMissing; apply allBuckets_set; [exact Htr|].
    destruct (allBuckets_get (mapMatchToCapability m) Htr) as [H1 [H2 [H3 H4]]].
    destruct (pushBounded_shape (mLabel m) H2 H4) as [H5 H6].
    unfold bucketShape; cbn; tauto.
  - intros tr m Htr; unfold trackMatched; apply allBuckets_set; [exact Htr|].
    destruct (allBuckets_get (mapMatchToCapability m) Htr) as [H1 [H2 [H3 H4]]].
    destruct (pushBounded_shape
                (mLabel m ++ str " (" ++ showZ (resumeHits m) ++ str " hits)")
                H1 H3) as [H5 H6].
    unfold bucketShape; cbn; tauto.
  - unfold allBuckets, bucketShape; cbn; repeat split; try lia; constructor.
Qed.

(** X20. There are always three cards, for the technical, the delivery and
    the communication capability in this order, each with at most three
    strengths and three gaps, none of them repeated. *)
Theorem buildFallbackCapabilities_shape (analysis : ResumeAnalysis) :
  map capId (buildFallbackCapabilities analysis)
  = [technical; delivery; communication]
  /\ Forall (fun c => (List.length (strengths c) <= 3)%nat
                      /\ (List.length (gaps c) <= 3)%nat
                      /\ NoDup (strengths c) /\ NoDup (gaps c))
       (buildFallbackCapabilities analysis).
Proof.
  split; [reflexivity|].
  unfold buildFallbackCapabilities; apply Forall_forall; intros c Hc.
  apply in_map_iff in Hc; destruct Hc as [meta [<- _]].
  cbn [strengths gaps].
  exact (allBuckets_get (fst meta) (trackAnalysis_shape analysis)).
Qed.

(* ================================================================== *)
(** * Letter case *)

Lemma lowerChar_classes (c : ascii) :
  Ascii.eqb (lowerChar c) LF = Ascii.eqb c LF
  /\ Ascii.eqb (lowerChar c) CR = Ascii.eqb c CR
  /\ isSpace (lowerChar c) = isSpace c
  /\ isWordChar (lowerChar c) = isWordChar c
  /\ (isCode 45 (lowerChar c) || isSpace (lowerChar c))%bool
     = (isCode 45 c || isSpace c)%bool.
Proof. destruct c as [[] [] [] [] [] [] [] []]; vm_compute; tauto. Qed.

Lemma ciEqb_lower (x p : ascii) :
  plainChar p = true -> ciEqb (lowerChar x) p = ciEqb x p.
Proof.
  intros Hp; destruct p as [p0 p1 p2 p3 p4 p5 p6 p7].
  cbn in Hp; apply negb_true_iff in Hp; subst p7.
  destruct x as [[] [] [] [] [] [] [] []]; try reflexivity;
    unfold ciEqb;
    match goal with
    | |- Ascii.eqb ?a ?p = Ascii.eqb ?b ?p =>
        let a' := eval vm_compute in a in
        let b' := eval vm_compute in b in
        change (Ascii.eqb a' p = Ascii.eqb b' p)
    end;
    rewrite !(proj2 (Ascii.eqb_neq _ _)) by discriminate; reflexivity.
Qed.

Lemma rmatch_lower (r : regex) :
  caseBlind r ->
  forall prev s k k',
    (forall p t, k' (option_map lowerChar p) (toLowerCase t) = k p t) ->
    rmatch r (option_map lowerChar prev) (toLowerCase s) k' = rmatch r prev s k.
Proof.
  induction r as [|c|p|r1 IH1 r2 IH2|r1 IH1 r2 IH2|r1 IH1|];
    intros Hr prev s k k' Hk; cbn [rmatch].
  - apply Hk.
  - destruct s as [|x s]; [reflexivity|]; cbn [toLowerCase map].
    rewrite (ciEqb_lower x c Hr), <- (Hk (Some x) s); reflexivity.
  - destruct s as [|x s]; [reflexivity|]; cbn [toLowerCase map].
    cbn in Hr; rewrite Hr, <- (Hk (Some x) s); reflexivity.
  - destruct Hr as [H1 H2]; apply (IH1 H1).
    intros p t; apply (IH2 H2); exact Hk.
  - destruct Hr as [H1 H2].
    rewrite (IH1 H1 prev s k k' Hk), (IH2 H2 prev s k k' Hk); reflexivity.
  - rewrite (IH1 Hr prev s k k' Hk), (Hk prev s); reflexivity.
  - assert (E1 : isWordOpt (option_map lowerChar prev) = isWordOpt prev)
      by (destruct prev as [c|]; [apply lowerChar_classes | reflexivity]).
    assert (E2 : isWordOpt (hd_error (toLowerCase s)) = isWordOpt (hd_error s))
      by (destruct s as [|c s]; [reflexivity | apply lowerChar_classes]).
    rewrite E1, E2, (Hk prev s); reflexivity.
Qed.

Lemma test_lower (r : regex) (line : jsstring) :
  caseBlind r -> test r (toLowerCase line) = test r line.
Proof.
  intros Hr; unfold test.
  change None with (option_map lowerChar None) at 1.
  generalize (@None ascii); induction line as [|c line IH]; intros prev.
  - pose proof (rmatch_lower r Hr prev [] (fun _ _ => true) (fun _ _ => true)
                  (fun _ _ => eq_refl)) as E.
    cbn [testFrom toLowerCase map] in *; rewrite E; reflexivity.
  - pose proof (rmatch_lower r Hr prev (c :: line)
                  (fun _ _ => true) (fun _ _ => true) (fun _ _ => eq_refl)) as E.
    pose proof (IH (Some c)) as E2.
    unfold toLowerCase in *; cbn [testFrom map option_map] in *.
    rewrite E, E2; reflexivity.
Qed.

Lemma firstMatch_lower (ps : list (regex * RequirementTier)) (line : jsstring) :
  Forall (fun rt => caseBlind (fst rt)) ps ->
  firstMatch ps (toLowerCase line) = firstMatch ps line.
Proof.
  induction 1 as [|[r tier] ps Hr _ IH]; cbn [firstMatch]; [reflexivity|].
  cbn [fst] in Hr; rewrite (@test_lower r line Hr), IH; reflexivity.
Qed.

Lemma patterns_caseBlind :
  Forall (fun rt => caseBlind (fst rt)) HEADING_PATTERNS
  /\ Forall (fun rt => caseBlind (fst rt)) INLINE_PRIORITY_PATTERNS.
Proof.
  split; repeat constructor; intros x; apply lowerChar_classes.
Qed.

Lemma detect_lower (line : jsstring) :
  detectHeadingSection (toLowerCase line) = detectHeadingSection line
  /\ detectInlinePriority (toLowerCase line) = detectInlinePriority line.
Proof.
  unfold detectHeadingSection, detectInlinePriority, toLowerCase.
  rewrite length_map; fold (toLowerCase line).
  rewrite !firstMatch_lower by apply patterns_caseBlind; split; reflexivity.
Qed.

Lemma consHead_lower (c : ascii) (ls : list jsstring) :
  consHead (lowerChar c) (map toLowerCase ls) = map toLowerCase (consHead c ls).
Proof. destruct ls; reflexivity. Qed.

Lemma splitLines_lower_aux (n : nat) :
  forall s, (List.length s <= n)%nat ->
            splitLines (toLowerCase s) = map toLowerCase (splitLines s).
Proof.
  induction n as [|n IH]; intros [|c s] Hlen; cbn [List.length] in Hlen;
    try reflexivity; try lia.
  cbn [toLowerCase map splitLines].
  destruct (lowerChar_classes c) as [E1 [E2 _]]; rewrite E1, E2.
  assert (Hs : splitLines (map lowerChar s) = map toLowerCase (splitLines s))
    by (apply IH; lia).
  destruct (Ascii.eqb c LF); [rewrite Hs; reflexivity|].
  destruct (Ascii.eqb c CR); [|rewrite Hs; apply consHead_lower].
  destruct s as [|d s'']; [reflexivity|].
  cbn [map]; destruct (lowerChar_classes d) as [D1 _]; rewrite D1.
  destruct (Ascii.eqb d LF).
  - change (map lowerChar s'') with (toLowerCase s'').
    rewrite (IH s'') by (cbn [List.length] in Hlen; lia); reflexivity.
  - change (lowerChar d :: map lowerChar s'') with (map lowerChar (d :: s'')).
    rewrite Hs; apply consHead_lower.
Qed.

Lemma dropWhile_lower (s : jsstring) :
  dropWhile isSpace (toLowerCase s) = toLowerCase (dropWhile isSpace s).
Proof.
  induction s as [|c s IH]; [reflexivity|]; cbn [toLowerCase map dropWhile].
  rewrite (proj1 (proj2 (proj2 (lowerChar_classes c)))).
  destruct (isSpace c); [exact IH | reflexivity].
Qed.

Lemma trim_lower (s : jsstring) : trim (toLowerCase s) = toLowerCase (trim s).
Proof.
  unfold trim, trimStart, trimEnd.
  rewrite dropWhile_lower; unfold toLowerCase at 1.
  rewrite <- map_rev; fold (toLowerCase (rev (dropWhile isSpace s))).
  rewrite dropWhile_lower; unfold toLowerCase; rewrite map_rev; reflexivity.
Qed.

Lemma lines_lower (text : jsstring) :
  filter truthy (map trim (splitLines (toLowerCase text)))
  = map toLowerCase (filter truthy (map trim (splitLines text))).
Proof.
  rewrite (splitLines_lower_aux (n := List.length text)) by lia.
  induction (splitLines text) as [|l ls IH]; [reflexivity|].
  cbn [map filter]; rewrite trim_lower, IH.
  destruct (trim l); reflexivity.
Qed.

Lemma fragmentStep_lower (fragments : list SectionFragment)
    (active : RequirementTier) (counter : nat) (line : jsstring) :
  fragmentStep (map lowerFragment fragments, active, counter)
    (toLowerCase line)
  = let '(fs, a, c) := fragmentStep (fragments, active, counter) line in
    (map lowerFragment fs, a, c).
Proof.
  cbn [fragmentStep]; destruct (detect_lower line) as [E1 E2]; rewrite E1, E2.
  destruct (detectHeadingSection line); [reflexivity|].
  rewrite map_app; reflexivity.
Qed.

Lemma fragments_lower (text : jsstring) :
  splitIntoFragments (toLowerCase text)
  = map lowerFragment (splitIntoFragments text).
Proof.
  unfold splitIntoFragments; rewrite lines_lower.
  assert (G : forall lines fragments active counter,
            fold_left fragmentStep (map toLowerCase lines)
              (map lowerFragment fragments, active, counter)
            = let '(fs, a, c) :=
                fold_left fragmentStep lines (fragments, active, counter) in
              (map lowerFragment fs, a, c)).
  { induction lines as [|l lines IH]; intros fragments active counter;
      cbn [map fold_left]; [reflexivity|].
    rewrite fragmentStep_lower.
    destruct (fragmentStep (fragments, active, counter) l) as [[fs a] c].
    apply IH. }
  specialize (G (filter truthy (map trim (splitLines text))) [] general 0%nat).
  cbn [map] in G; rewrite G.
  destruct (fold_left fragmentStep (filter truthy (map trim (splitLines text)))
              ([], general, 0%nat)) as [[fs a] c]; reflexivity.
Qed.

Lemma collectStats_lower (text : jsstring) :
  collectStats (toLowerCase text) = collectStats text.
Proof.
  unfold collectStats; rewrite fragments_lower.
  generalize (@nil (jsstring * KeywordStats)).
  induction (splitIntoFragments text) as [|f fs IH]; intros m; [reflexivity|].
  cbn [map fold_left]; rewrite <- IH; f_equal.
  unfold collectFragment, lowerFragment; cbn [content fragSection fragId].
  unfold tokenize; rewrite toLowerCase_idem; reflexivity.
Qed.

(** X23. On texts of code units below 256 extraction does not depend on
    letter case: two such texts that are the same once in lower case give
    the same keywords, with the same labels, tiers, importances and
    order. *)
Theorem extractKeywords_case_insensitive (text1 text2 : jsstring) (limit : Z) :
  toLowerCase text1 = toLowerCase text2 ->
  extractKeywords text1 limit = extractKeywords text2 limit.
Proof.
  assert (G : forall text,
            extractKeywords (toLowerCase text) limit
            = extractKeywords text limit).
  { intros text; unfold extractKeywords, candidateKeywords.
    rewrite collectStats_lower, fragments_lower, length_map; reflexivity. }
  intros H; rewrite <- (G text1), <- (G text2), H; reflexivity.
Qed.

Lemma extractKeywords_case_insensitive_witness :
  toLowerCase (str "Skills" ++ LF :: str "REACT and Node")
  = toLowerCase (str "skills" ++ LF :: str "React and NODE")
  /\ extractKeywords (str "Skills" ++ LF :: str "REACT and Node") defaultLimit
     = extractKeywords (str "skills" ++ LF :: str "React and NODE") defaultLimit.
Proof.
  assert (H : toLowerCase (str "Skills" ++ LF :: str "REACT and Node")
              = toLowerCase (str "skills" ++ LF :: str "React and NODE"))
    by reflexivity.
  split; [exact H|].
  exact (@extractKeywords_case_insensitive _ _ defaultLimit H).
Defined.

(** X24. Scoring does not depend on the letter case of the resume: two
    resumes that are the same once in lower case get the same analysis. *)
Theorem analyzeResume_case_insensitive (resume1 resume2 : jsstring)
    (keywords : list KeywordInsight) :
  toLowerCase resume1 = toLowerCase resume2 ->
  analyzeResume resume1 keywords = analyzeResume resume2 keywords.
Proof.
  intros H.
  assert (E : tokenize resume1 = tokenize resume2)
    by (unfold tokenize; rewrite H; reflexivity).
  unfold analyzeResume, keywordMatchesOf; rewrite E; reflexivity.
Qed.

Lemma analyzeResume_case_insensitive_witness :
  toLowerCase (str "REACT Developer") = toLowerCase (str "React developer")
  /\ analyzeResume (str "REACT Developer") [kwReact]
     = analyzeResume (str "React developer") [kwReact].
Proof.
  assert (H : toLowerCase (str "REACT Developer")
              = toLowerCase (str "React developer")) by reflexivity.
  split; [exact H|].
  exact (@analyzeResume_case_insensitive _ _ [kwReact] H).
Defined.

(* ================================================================== *)
(** * Headings *)

Lemma testFrom_skip (r : regex) (rest : jsstring) :
  (forall p, rmatch r p rest (fun _ _ => true) = true) ->
  forall pre prev, testFrom r prev (pre ++ rest) = true.
Proof.
  intros H; induction pre as [|c pre IH]; intros prev.
  - destruct rest; cbn [app testFrom]; rewrite H; reflexivity.
  - cbn [app testFrom]; rewrite IH; apply orb_true_r.
Qed.

Lemma coreHeading_found (w post : jsstring) (p : option ascii) :
  In w coreHeadingWords ->
  rmatch (fst (nth 0 HEADING_PATTERNS (Eps, general))) p (w ++ post)
    (fun _ _ => true) = true.
Proof.
  intros Hw; repeat (destruct Hw as [<-|Hw]); try destruct Hw;
    destruct post as [|c post]; cbn;
    rewrite ?orb_true_r; reflexivity.
Qed.

(** X25. A line of at most 80 code units that contains, in any letter
    case, one of "must have", "must-have", "musthave", "requirement",
    "qualification" or "skills" is taken as a heading of the core tier:
    the segmentation loop sets the active tier to core and makes no
    fragment of the line, so none of its words becomes a keyword. *)
Theorem heading_word_consumes_line (line pre post w : jsstring)
    (fragments : list SectionFragment) (active : RequirementTier)
    (counter : nat) :
  In w coreHeadingWords ->
  toLowerCase line = pre ++ w ++ post ->
  (List.length line <= 80)%nat ->
  detectHeadingSection line = Some core
  /\ fragmentStep (fragments, active, counter) line
     = (fragments, core, counter).
Proof.
  intros Hw Hline Hlen.
  assert (Hd : detectHeadingSection line = Some core).
  { rewrite <- (proj1 (detect_lower line)), Hline.
    unfold detectHeadingSection.
    assert (Hl : Nat.ltb 80 (List.length (pre ++ w ++ post)) = false).
    { apply Nat.ltb_ge; rewrite <- Hline; unfold toLowerCase.
      rewrite length_map; exact Hlen. }
    rewrite Hl; unfold HEADING_PATTERNS at 1; cbn [firstMatch].
    unfold test; rewrite testFrom_skip; [reflexivity|].
    intros p; apply (@coreHeading_found w post p Hw). }
  split; [exact Hd|].
  cbn [fragmentStep]; rewrite Hd; reflexivity.
Qed.

Lemma heading_word_consumes_line_witness :
  In (str "must have") coreHeadingWords
  /\ toLowerCase (str "Must have React experience.")
     = [] ++ str "must have" ++ str " react experience."
  /\ (List.length (str "Must have React experience.") <= 80)%nat
  /\ detectHeadingSection (str "Must have React experience.") = Some core.
Proof.
  assert (H1 : In (str "must have") coreHeadingWords) by (left; reflexivity).
  assert (H2 : toLowerCase (str "Must have React experience.")
               = [] ++ str "must have" ++ str " react experience.")
    by reflexivity.
  assert (H3 : (List.length (str "Must have React experience.") <= 80)%nat)
    by (cbn; lia).
  split; [exact H1 | split; [exact H2 | split; [exact H3|]]].
  exact (proj1 (@heading_word_consumes_line _ _ _ _ [] general 0%nat
                  H1 H2 H3)).
Defined.

(* ================================================================== *)
(** * Generic terms *)

(** X26. No returned keyword is a generic term: [isGenericTerm] is false on
    every canonical key of the result, be it the canonical member of a
    synonym group or an unlisted term. *)
Theorem extractKeywords_not_generic (text : jsstring) (limit : Z)
    (kw : KeywordInsight) :
  In kw (extractKeywords text limit) -> isGenericTerm (canonical kw) = false.
Proof.
  intros H.
  destruct (extractKeywords_from_stats _ _ _ H) as [s0 [rest [stat [E [Hs ->]]]]].
  rewrite <- E in Hs.
  exact (proj2 (proj2 (proj2 (proj2 (proj2 (proj2
           (collectStats_fact text stat Hs))))))).
Qed.

Lemma extractKeywords_not_generic_witness :
  In (firstKeyword jdLayout) (extractKeywords jdLayout defaultLimit)
  /\ isGenericTerm (canonical (firstKeyword jdLayout)) = false.
Proof.
  assert (H : In (firstKeyword jdLayout) (extractKeywords jdLayout defaultLimit))
    by (vm_compute; left; reflexivity).
  split; [exact H|].
  exact (@extractKeywords_not_generic jdLayout defaultLimit
           (firstKeyword jdLayout) H).
Defined.

(* ================================================================== *)
(** * Binary64 arithmetic *)

(** ** Rounding *)

Lemma pow2_pos (k : Z) : 0 < pow2 k.
Proof. unfold pow2; apply Qpower_0_lt; reflexivity. Qed.

Lemma rne_floor (s : Q) : (Qfloor s <= rne s <= Qfloor s + 1)%Z.
Proof.
  unfold rne; destruct (Qcompare _ _); [destruct (Z.even _)| |]; lia.
Qed.

Lemma rne_ge (n : Z) (s : Q) : inject_Z n <= s -> (n <= rne s)%Z.
Proof.
  intros H; apply Qfloor_resp_le in H; rewrite Qfloor_Z in H.
  pose proof (rne_floor s); lia.
Qed.

Lemma roundPos_nonneg (q : Q) : 0 < q -> nonneg (roundPos q).
Proof.
  intros Hq; unfold roundPos.
  set (u := Z.max _ _).
  destruct (Qle_bool _ _); [exact I|]; cbn [nonneg].
  rewrite Qred_correct.
  apply Qmult_le_0_compat; [|apply Qlt_le_weak, pow2_pos].
  change 0 with (inject_Z 0); rewrite <- Zle_Qle; apply rne_ge.
  apply Qle_shift_div_l; [apply pow2_pos|].
  rewrite Qmult_0_l; apply Qlt_le_weak; exact Hq.
Qed.

Lemma round64_nonneg (q : Q) : 0 <= q -> nonneg (round64 q).
Proof.
  intros H; unfold round64.
  destruct (Qcompare q 0) eqn:E.
  - apply Qle_refl.
  - apply Qlt_alt in E; exfalso; exact (Qlt_not_le _ _ E H).
  - apply Qgt_alt in E; apply roundPos_nonneg; exact E.
Qed.

Lemma fadd_nonneg (x y : double) : nonneg x -> nonneg y -> nonneg (fadd x y).
Proof.
  destruct x as [| | |a], y as [| | |b]; cbn; try tauto.
  intros Ha Hb; apply round64_nonneg.
  setoid_replace 0 with (0 + 0) by ring; apply Qplus_le_compat; assumption.
Qed.

Lemma fsum_from_nonneg (l : list double) (x : double) :
  nonneg x -> Forall nonneg l -> nonneg (fold_left fadd l x).
Proof.
  intros Hx Hl; revert x Hx; induction Hl as [|y l Hy _ IH]; intros x Hx;
    [exact Hx|].
  cbn [fold_left]; apply IH, fadd_nonneg; assumption.
Qed.

Lemma fsum_nonneg (l : list double) : Forall nonneg l -> nonneg (fsum l).
Proof. apply fsum_from_nonneg; apply Qle_refl. Qed.

(** A product with a positive finite factor. *)
Lemma fmul_nonneg_fin (x : double) (b : Q) :
  nonneg x -> 0 < b -> nonneg (fmul x (Fin b)).
Proof.
  destruct x as [| | |a]; cbn; try tauto.
  - intros _ Hb; apply Qgt_alt in Hb; rewrite Hb; exact I.
  - intros Ha Hb; apply round64_nonneg.
    apply Qmult_le_0_compat; [exact Ha | apply Qlt_le_weak; exact Hb].
Qed.

(** A quotient by a positive finite number. *)
Lemma fdiv_nonneg_fin (x : double) (b : Q) :
  nonneg x -> 0 < b -> nonneg (fdiv x (Fin b)).
Proof.
  destruct x as [| | |a]; cbn; try tauto.
  - intros _ Hb; apply Qgt_alt in Hb; rewrite Hb; exact I.
  - intros Ha Hb; pose proof Hb as Hc; apply Qgt_alt in Hc; rewrite Hc.
    apply round64_nonneg.
    apply Qle_shift_div_l; [exact Hb | rewrite Qmult_0_l; exact Ha].
Qed.

Lemma fround_nonneg (x : double) : nonneg x -> nonneg (fround x).
Proof.
  destruct x as [| | |a]; cbn [fround nonneg ofZ]; try tauto.
  intros Ha; change 0 with (inject_Z 0); rewrite <- Zle_Qle.
  change 0%Z with (Qfloor 0); apply Qfloor_resp_le.
  setoid_replace 0 with (0 + 0) by ring; apply Qplus_le_compat;
    [exact Ha | discriminate].
Qed.

Lemma fmin_cap (x : double) (c : Q) :
  nonneg x -> 0 <= c ->
  fle (Fin 0) (fmin x (Fin c)) = true /\ fle (fmin x (Fin c)) (Fin c) = true.
Proof.
  destruct x as [| | |a]; cbn; try tauto.
  - intros _ Hc; split; apply Qle_bool_iff; [exact Hc | apply Qle_refl].
  - intros Ha Hc; unfold Qltb.
    destruct (Qle_bool a c) eqn:E; cbn.
    + split; apply Qle_bool_iff; [exact Ha | apply Qle_bool_iff; exact E].
    + split; apply Qle_bool_iff; [exact Hc | apply Qle_refl].
Qed.

Lemma fle0_nonneg (x : double) : fle (Fin 0) x = true <-> nonneg x.
Proof.
  destruct x as [| | |a]; cbn [fle nonneg]; try (split; [discriminate|tauto]);
    [tauto | apply Qle_bool_iff].
Qed.

Lemma forOne_positive (x : double) :
  isFinite x = true -> nonneg x -> exists b, forOne x = Fin b /\ 0 < b.
Proof.
  destruct x as [| | |a]; cbn [isFinite nonneg forOne]; try discriminate.
  intros _ Ha; destruct (Qeq_bool a 0) eqn:E.
  - exists 1; split; reflexivity.
  - exists a; split; [reflexivity|].
    apply Qle_lteq in Ha; destruct Ha as [Ha|Ha]; [exact Ha|].
    symmetry in Ha; apply Qeq_bool_iff in Ha; congruence.
Qed.

(** ** The grid of the format *)

Lemma pow2_add (a b : Z) : pow2 (a + b) == pow2 a * pow2 b.
Proof. unfold pow2; apply Qpower_plus; discriminate. Qed.

Lemma pow2_le (a b : Z) : (a <= b)%Z -> pow2 a <= pow2 b.
Proof. intros H; unfold pow2; apply Qpower_le_compat_l; [exact H | discriminate]. Qed.

Lemma pow2_Z (k : Z) : (0 <= k)%Z -> pow2 k == inject_Z (2 ^ k).
Proof. intros H; unfold pow2; symmetry; apply (Zpower_Qpower 2 k H). Qed.

Lemma ilog2_le (q : Q) : 0 < q -> pow2 (ilog2 q) <= q.
Proof.
  intros Hq; unfold ilog2.
  set (la := Z.log2 (Qnum q)); set (lb := Z.log2 (Z.pos (Qden q))).
  destruct (Qle_bool (pow2 (la - lb)) q) eqn:E; [apply Qle_bool_iff; exact E|].
  assert (Ha : (0 < Qnum q)%Z).
  { destruct q as [a b]; unfold Qlt in Hq; cbn [Qnum Qden] in *; lia. }
  destruct (Z.log2_spec _ Ha) as [Ha1 _].
  destruct (Z.log2_spec (Z.pos (Qden q)) (Pos2Z.is_pos _)) as [_ Hb2].
  fold la in Ha1; fold lb in Hb2.
  assert (Hla : (0 <= la)%Z) by apply Z.log2_nonneg.
  assert (Hlb : (0 <= lb)%Z) by apply Z.log2_nonneg.
  replace (la - lb - 1)%Z with (la - (lb + 1))%Z by lia.
  unfold pow2; rewrite Qpower_minus by discriminate.
  fold (pow2 la); fold (pow2 (lb + 1)).
  apply Qle_shift_div_r; [apply pow2_pos|].
  rewrite (pow2_Z Hla), (pow2_Z (k := lb + 1)) by lia.
  destruct q as [a b]; cbn [Qnum Qden] in *.
  unfold Qle, Qmult; cbn [Qnum Qden inject_Z].
  rewrite Z.succ_pred in Hb2 || idtac.
  replace (Z.succ lb) with (lb + 1)%Z in Hb2 by lia.
  nia.
Qed.

Lemma roundPos_positive (q : Q) :
  pow2 (-1074) <= q -> aboveZero (roundPos q).
Proof.
  intros Hq.
  assert (H0 : 0 < q) by (eapply Qlt_le_trans; [apply pow2_pos | exact Hq]).
  unfold roundPos; set (u := Z.max _ _).
  assert (Hu : pow2 u <= q).
  { unfold u; destruct (Z.max_spec (ilog2 q - 52) (-1074)) as [[_ ->]|[_ ->]];
      [exact Hq|].
    eapply Qle_trans; [apply pow2_le | apply ilog2_le; exact H0]; lia. }
  destruct (Qle_bool _ _); [exact I|]; cbn [aboveZero].
  rewrite Qred_correct.
  apply Qlt_le_trans with (1 * pow2 u); [rewrite Qmult_1_l; apply pow2_pos|].
  apply Qmult_le_compat_r; [|apply Qlt_le_weak, pow2_pos].
  change 1 with (inject_Z 1); rewrite <- Zle_Qle; apply rne_ge.
  apply Qle_shift_div_l; [apply pow2_pos|].
  rewrite Qmult_1_l; exact Hu.
Qed.

Lemma roundPos_good (q : Q) : 0 < q -> good (roundPos q).
Proof.
  intros Hq; pose proof (roundPos_nonneg Hq) as Hn; revert Hn.
  unfold roundPos; set (u := Z.max _ _); set (n := rne _).
  destruct (Qle_bool _ _); [intros _; exact I|]; cbn [nonneg good].
  intros Hn; split; [exact Hn|].
  exists (n * 2 ^ (u + 1074))%Z.
  rewrite Qred_correct, inject_Z_mult, <- pow2_Z by (unfold u; lia).
  rewrite <- Qmult_assoc, <- pow2_add.
  replace (u + 1074 + -1074)%Z with u by lia; reflexivity.
Qed.

Lemma round64_good (q : Q) : 0 <= q -> good (round64 q).
Proof.
  intros H; unfold round64.
  destruct (Qcompare q 0) eqn:E.
  - split; [apply Qle_refl | exists 0%Z; rewrite Qmult_0_l; reflexivity].
  - apply Qlt_alt in E; exfalso; exact (Qlt_not_le _ _ E H).
  - apply Qgt_alt in E; apply roundPos_good; exact E.
Qed.

Lemma good_nonneg (x : double) : good x -> nonneg x.
Proof. destruct x; cbn; tauto. Qed.

Lemma fadd_good (x y : double) : good x -> good y -> good (fadd x y).
Proof.
  destruct x as [| | |a], y as [| | |b]; cbn [good fadd]; try tauto.
  intros [Ha _] [Hb _]; apply round64_good.
  setoid_replace 0 with (0 + 0) by ring; apply Qplus_le_compat; assumption.
Qed.

Lemma fmul_good (x y : double) :
  isFinite x = true -> isFinite y = true -> nonneg x -> nonneg y ->
  good (fmul x y).
Proof.
  destruct x as [| | |a], y as [| | |b]; cbn [isFinite nonneg fmul];
    try discriminate.
  intros _ _ Ha Hb; apply round64_good, Qmult_le_0_compat; assumption.
Qed.

Lemma onGrid_sub (a b : Q) : onGrid a -> onGrid b -> onGrid (b + - a).
Proof.
  intros [n Hn] [m Hm]; exists (m - n)%Z.
  rewrite Hn, Hm; unfold Zminus; rewrite inject_Z_plus, inject_Z_opp; ring.
Qed.

(** On the grid rounding keeps the sign. *)
Lemma round64_sign (q : Q) :
  onGrid q -> flt (Fin 0) (round64 q) = Qltb 0 q.
Proof.
  intros [n Hn]; unfold round64.
  destruct (Qcompare q 0) eqn:E.
  - apply Qeq_alt in E; cbn [flt]; symmetry.
    apply Qltb_ge; rewrite E; apply Qle_refl.
  - apply Qlt_alt in E.
    assert (Hp : 0 < - q).
    { apply (Qplus_lt_l _ _ q); setoid_replace (- q + q) with 0 by ring.
      rewrite Qplus_0_l; exact E. }
    pose proof (roundPos_nonneg Hp) as Hr.
    transitivity false; [|symmetry; apply Qltb_ge, Qlt_le_weak; exact E].
    destruct (roundPos (- q)) as [| | |r]; cbn [fneg flt nonneg] in *;
      try tauto.
    apply Qltb_ge.
    apply (Qplus_le_l _ _ r); setoid_replace (- r + r) with 0 by ring.
    rewrite Qplus_0_l; exact Hr.
  - apply Qgt_alt in E.
    assert (Hq : pow2 (-1074) <= q).
    { rewrite Hn; rewrite Hn in E.
      setoid_replace (pow2 (-1074)) with (inject_Z 1 * pow2 (-1074)) at 1
        by ring.
      apply Qmult_le_compat_r; [|apply Qlt_le_weak, pow2_pos].
      rewrite <- Zle_Qle.
      assert (Hn0 : 0 < inject_Z n).
      { destruct (Qlt_le_dec 0 (inject_Z n)) as [H|H]; [exact H|].
        exfalso; apply (Qlt_not_le _ _ E).
        setoid_replace 0 with (0 * pow2 (-1074)) by ring.
        apply Qmult_le_compat_r; [exact H | apply Qlt_le_weak, pow2_pos]. }
      change 0 with (inject_Z 0) in Hn0; rewrite <- Zlt_Qlt in Hn0; lia. }
    pose proof (roundPos_positive Hq) as Hr.
    transitivity true; [|symmetry; apply Qltb_lt; exact E].
    destruct (roundPos q) as [| | |r]; cbn [flt aboveZero] in *; try tauto.
    apply Qltb_lt; exact Hr.
Qed.

(** The comparator of a descending sort is the order of the numbers. *)
Lemma fsub_sign (x y : double) :
  good x -> good y -> flt (Fin 0) (fsub y x) = flt x y.
Proof.
  destruct x as [| | |a], y as [| | |b]; cbn [good]; try tauto;
    try reflexivity.
  intros [_ Ha] [_ Hb]; unfold fsub; cbn [fneg fadd].
  rewrite (round64_sign (onGrid_sub Ha Hb)).
  change (flt (Fin a) (Fin b)) with (Qltb a b).
  destruct (Qltb a b) eqn:E.
  - apply Qltb_diff, Qltb_lt; exact E.
  - apply Qltb_diff_false, Qltb_ge; exact E.
Qed.

(** ** The order of the numbers *)

Lemma good_num (x : double) : good x -> isNaN x = false.
Proof. destruct x; cbn; tauto. Qed.

Lemma fle_refl (x : double) : isNaN x = false -> fle x x = true.
Proof.
  destruct x as [| | |a]; cbn; try discriminate; try reflexivity.
  intros _; apply Qle_bool_iff, Qle_refl.
Qed.

Lemma fle_trans (x y z : double) :
  fle x y = true -> fle y z = true -> fle x z = true.
Proof.
  destruct x as [| | |a], y as [| | |b], z as [| | |c]; cbn [fle];
    try discriminate; try reflexivity.
  intros H1 H2; apply Qle_bool_iff; apply Qle_bool_iff in H1, H2.
  eapply Qle_trans; eassumption.
Qed.

Lemma flt_false_fle (x y : double) :
  isNaN x = false -> isNaN y = false ->
  (flt x y = false <-> fle y x = true).
Proof.
  destruct x as [| | |a], y as [| | |b]; cbn [isNaN flt fle];
    try discriminate; intros _ _; try tauto; try (split; discriminate).
  rewrite Qltb_ge; symmetry; apply Qle_bool_iff.
Qed.

Lemma flt_fle (x y : double) : flt x y = true -> fle x y = true.
Proof.
  destruct x as [| | |a], y as [| | |b]; cbn [flt fle];
    try discriminate; try reflexivity.
  intros H; apply Qltb_lt in H; apply Qle_bool_iff, Qlt_le_weak; exact H.
Qed.

Lemma flt_asym (x y : double) : flt x y = true -> flt y x = false.
Proof.
  destruct x as [| | |a], y as [| | |b]; cbn [flt];
    try discriminate; try reflexivity.
  intros H; apply Qltb_lt in H; apply Qltb_ge, Qlt_le_weak; exact H.
Qed.

Lemma fmax_spec (x y : double) :
  isNaN x = false -> isNaN y = false ->
  (fmax x y = x \/ fmax x y = y)
  /\ fle x (fmax x y) = true /\ fle y (fmax x y) = true.
Proof.
  intros Hx Hy.
  assert (E : fmax x y = if flt x y then y else x)
    by (destruct x, y; try discriminate; reflexivity).
  rewrite E; destruct (flt x y) eqn:F.
  - split; [right; reflexivity|].
    split; [apply flt_fle; exact F | apply fle_refl; exact Hy].
  - split; [left; reflexivity|].
    split; [apply fle_refl; exact Hx | apply flt_false_fle; assumption].
Qed.

Lemma mathMax64_spec (xs : list double) (x : double) :
  isNaN x = false -> Forall (fun y => isNaN y = false) xs ->
  (Binary64.mathMax x xs = x \/ In (Binary64.mathMax x xs) xs)
  /\ fle x (Binary64.mathMax x xs) = true
  /\ forall y, In y xs -> fle y (Binary64.mathMax x xs) = true.
Proof.
  unfold Binary64.mathMax; intros Hx Hxs; revert x Hx.
  induction Hxs as [|z xs Hz _ IH]; intros x Hx; cbn [fold_left].
  - split; [left; reflexivity|].
    split; [apply fle_refl; exact Hx | intros y []].
  - destruct (fmax_spec x z Hx Hz) as [Hc [H1 H2]].
    assert (Hm : isNaN (fmax x z) = false)
      by (destruct Hc as [->| ->]; assumption).
    destruct (IH _ Hm) as [G1 [G2 G3]]; split; [|split].
    + destruct G1 as [G1|G1]; [|right; right; exact G1].
      rewrite G1; destruct Hc as [->| ->];
        [left; reflexivity | right; left; reflexivity].
    + eapply fle_trans; eassumption.
    + intros y [<-|Hy]; [eapply fle_trans; eassumption | apply G3; exact Hy].
Qed.

(** ** Sorting a list whose comparator is an order on the elements present *)

Section SortOn.
Variable A : Type.
Variable gt : A -> A -> bool.
Variable P : A -> Prop.
Hypothesis gt_trans :
  forall a b c, P a -> P b -> P c ->
                gt a b = false -> gt b c = false -> gt a c = false.
Hypothesis gt_asym : forall a b, P a -> P b -> gt a b = true -> gt b a = false.

Lemma insertSorted_ordered_on (x : A) (l : list A) :
  P x -> Forall P l -> ordered gt l -> ordered gt (insertSorted gt x l).
Proof.
  intros Hx Hl Ho; induction Ho as [|y l Hy Ho IH]; simpl.
  - constructor; constructor.
  - inversion Hl as [|? ? Py Pl]; subst.
    unfold headOk in Hy; rewrite Forall_forall in Hy; rewrite Forall_forall in Pl.
    destruct (gt x y) eqn:E.
    + constructor; [|apply IH; apply Forall_forall; exact Pl].
      unfold headOk; apply Forall_forall; intros z Hz.
      apply (Permutation_in _ (insertSorted_perm gt x l)) in Hz.
      destruct Hz as [<-|Hz]; [apply gt_asym; assumption | apply Hy; exact Hz].
    + constructor; [|constructor; [apply Forall_forall; exact Hy | exact Ho]].
      constructor; [exact E|].
      apply Forall_forall; intros z Hz.
      apply (gt_trans Hx Py (Pl _ Hz) E); apply Hy; exact Hz.
Qed.

Lemma stableSort_ordered_on (l : list A) :
  Forall P l -> ordered gt (stableSort gt l).
Proof.
  induction 1 as [|x l Hx Hl IH]; simpl; [constructor|].
  apply insertSorted_ordered_on; [exact Hx | | exact IH].
  apply Forall_forall; intros z Hz.
  apply (proj1 (stableSort_In gt l z)) in Hz.
  rewrite Forall_forall in Hl; apply Hl; exact Hz.
Qed.
End SortOn.

(** The head of a list sorted by decreasing key has the largest key. *)
Lemma sortDesc64_head_max (A : Type) (f : A -> double) (l : list A) (k : A)
    (rest : list A) :
  Forall (fun x => good (f x)) l ->
  stableSort (Binary64.descBy f) l = k :: rest ->
  forall x, In x l -> fle (f x) (f k) = true.
Proof.
  intros Hl E x Hx.
  assert (Hgt : forall a b, good (f a) -> good (f b) ->
                            Binary64.descBy f a b = flt (f a) (f b))
    by (intros a b Ha Hb; apply fsub_sign; assumption).
  assert (Ho : ordered (Binary64.descBy f) (stableSort (Binary64.descBy f) l)).
  { apply (@stableSort_ordered_on _ _ (fun x => good (f x))); [| |exact Hl].
    - intros a b c Ha Hb Hc; rewrite !Hgt by assumption; intros H1 H2.
      apply flt_false_fle in H1, H2; try (apply good_num; assumption).
      apply flt_false_fle; try (apply good_num; assumption).
      eapply fle_trans; eassumption.
    - intros a b Ha Hb; rewrite !Hgt by assumption; apply flt_asym. }
  rewrite Forall_forall in Hl.
  assert (Hk : In k l).
  { apply (proj1 (stableSort_In (Binary64.descBy f) l k)); rewrite E; left;
      reflexivity. }
  apply (proj2 (stableSort_In (Binary64.descBy f) _ _)) in Hx.
  rewrite E in Ho, Hx; inversion Ho as [|? ? Hh _]; subst.
  destruct Hx as [<-|Hx]; [apply fle_refl, good_num, Hl; exact Hk|].
  unfold headOk in Hh; rewrite Forall_forall in Hh.
  apply flt_false_fle; try (apply good_num, Hl).
  - exact Hk.
  - apply (proj1 (stableSort_In (Binary64.descBy f) l x)); rewrite E; right;
      exact Hx.
  - rewrite <- Hgt; [apply Hh; exact Hx | apply Hl; exact Hk|].
    apply Hl, (proj1 (stableSort_In (Binary64.descBy f) l x)); rewrite E;
      right; exact Hx.
Qed.

(** ** Rounding keeps the order *)

Lemma pow2_lt (a b : Z) : (a < b)%Z -> pow2 a < pow2 b.
Proof. intros H; unfold pow2; apply Qpower_lt_compat_l; [exact H | reflexivity]. Qed.

Lemma ilog2_lt (q : Q) : 0 < q -> q < pow2 (ilog2 q + 1).
Proof.
  intros Hq; unfold ilog2.
  set (la := Z.log2 (Qnum q)); set (lb := Z.log2 (Z.pos (Qden q))).
  destruct (Qle_bool (pow2 (la - lb)) q) eqn:E.
  - assert (Ha : (0 < Qnum q)%Z).
    { destruct q as [a b]; unfold Qlt in Hq; cbn [Qnum Qden] in *; lia. }
    destruct (Z.log2_spec _ Ha) as [_ Ha2].
    destruct (Z.log2_spec (Z.pos (Qden q)) (Pos2Z.is_pos _)) as [Hb1 _].
    fold la in Ha2; fold lb in Hb1.
    assert (Hla : (0 <= la)%Z) by apply Z.log2_nonneg.
    assert (Hlb : (0 <= lb)%Z) by apply Z.log2_nonneg.
    replace (la - lb + 1)%Z with ((la + 1) - lb)%Z by lia.
    unfold pow2; rewrite Qpower_minus by discriminate.
    fold (pow2 (la + 1)); fold (pow2 lb).
    apply Qlt_shift_div_l; [apply pow2_pos|].
    rewrite (pow2_Z Hlb), (pow2_Z (k := la + 1)) by lia.
    destruct q as [a b]; cbn [Qnum Qden] in *.
    unfold Qlt, Qmult; cbn [Qnum Qden inject_Z].
    replace (Z.succ la) with (la + 1)%Z in Ha2 by lia.
    nia.
  - replace (la - lb - 1 + 1)%Z with (la - lb)%Z by lia.
    apply Qnot_le_lt; intros H; apply Qle_bool_iff in H; congruence.
Qed.

Lemma ilog2_unique (q : Q) (e : Z) :
  pow2 e <= q -> q < pow2 (e + 1) -> ilog2 q = e.
Proof.
  intros H1 H2.
  assert (Hq : 0 < q) by (eapply Qlt_le_trans; [apply pow2_pos | exact H1]).
  pose proof (ilog2_le Hq) as G1; pose proof (ilog2_lt Hq) as G2.
  destruct (Z.lt_trichotomy (ilog2 q) e) as [H|[H|H]]; [|exact H|].
  - exfalso; apply (Qlt_not_le _ _ G2).
    eapply Qle_trans; [apply pow2_le | exact H1]; lia.
  - exfalso; apply (Qlt_not_le _ _ H2).
    eapply Qle_trans; [apply pow2_le | exact G1]; lia.
Qed.

Lemma ilog2_mono (p q : Q) : 0 < p -> p <= q -> (ilog2 p <= ilog2 q)%Z.
Proof.
  intros Hp Hpq.
  assert (Hq : 0 < q) by (eapply Qlt_le_trans; eassumption).
  pose proof (ilog2_le Hp) as G1; pose proof (ilog2_lt Hq) as G2.
  destruct (Z.le_gt_cases (ilog2 p) (ilog2 q)) as [H|H]; [exact H|].
  exfalso; apply (Qlt_not_le _ _ G2).
  eapply Qle_trans; [apply pow2_le | eapply Qle_trans; [exact G1 | exact Hpq]].
  lia.
Qed.

Lemma ilog2_comp (p q : Q) : 0 < p -> p == q -> ilog2 p = ilog2 q.
Proof.
  intros Hp E; symmetry; apply ilog2_unique.
  - rewrite <- E; apply ilog2_le; exact Hp.
  - rewrite <- E; apply ilog2_lt; exact Hp.
Qed.

Lemma rne_comp (s t : Q) : s == t -> rne s = rne t.
Proof.
  intros E; unfold rne.
  rewrite (Qfloor_comp _ _ E).
  assert (H : s - inject_Z (Qfloor t) == t - inject_Z (Qfloor t))
    by (rewrite E; reflexivity).
  rewrite (Qcompare_comp _ _ H _ _ (Qeq_refl (1 # 2))); reflexivity.
Qed.

Lemma rne_Z (n : Z) : rne (inject_Z n) = n.
Proof.
  unfold rne; rewrite Qfloor_Z.
  assert (H : inject_Z n - inject_Z n == 0) by ring.
  rewrite (Qcompare_comp _ _ H _ _ (Qeq_refl (1 # 2))); reflexivity.
Qed.

Lemma rne_le (n : Z) (s : Q) : s <= inject_Z n -> (rne s <= n)%Z.
Proof.
  intros H; unfold rne.
  pose proof (Qfloor_resp_le _ _ H) as Hf; rewrite Qfloor_Z in Hf.
  destruct (Z.eq_dec (Qfloor s) n) as [E|E].
  - assert (Hs : s == inject_Z n).
    { apply Qle_antisym; [exact H|]. rewrite <- E; apply Qfloor_le. }
    assert (H0 : s - inject_Z (Qfloor s) == 0) by (rewrite E, Hs; ring).
    rewrite (Qcompare_comp _ _ H0 _ _ (Qeq_refl (1 # 2))); cbn; lia.
  - destruct (Qcompare _ _); [destruct (Z.even _)| |]; lia.
Qed.

Lemma rne_mono (s t : Q) : s <= t -> (rne s <= rne t)%Z.
Proof.
  intros H.
  pose proof (Qfloor_resp_le _ _ H) as Hf.
  destruct (Z.eq_dec (Qfloor s) (Qfloor t)) as [E|E].
  - unfold rne; rewrite E.
    assert (Hd : s - inject_Z (Qfloor t) <= t - inject_Z (Qfloor t))
      by (apply Qplus_le_l; exact H).
    destruct (Qcompare (s - inject_Z (Qfloor t)) (1 # 2)) eqn:C1;
      destruct (Qcompare (t - inject_Z (Qfloor t)) (1 # 2)) eqn:C2;
      try (destruct (Z.even (Qfloor t))); try lia; exfalso;
      repeat match goal with
             | H : Qcompare _ _ = Eq |- _ => apply Qeq_alt in H
             | H : Qcompare _ _ = Lt |- _ => apply Qlt_alt in H
             | H : Qcompare _ _ = Gt |- _ => apply Qgt_alt in H
             end; lra.
  - pose proof (rne_floor s); pose proof (rne_floor t); lia.
Qed.

Lemma roundPos_comp (p q : Q) : 0 < p -> p == q -> roundPos p = roundPos q.
Proof.
  intros Hp E; unfold roundPos.
  rewrite <- (ilog2_comp Hp E).
  set (u := Z.max _ _).
  assert (H : p / pow2 u == q / pow2 u) by (rewrite E; reflexivity).
  rewrite (rne_comp H); reflexivity.
Qed.

Lemma round64_comp (p q : Q) : p == q -> round64 p = round64 q.
Proof.
  intros E; unfold round64.
  rewrite <- (Qcompare_comp _ _ E _ _ (Qeq_refl 0)).
  destruct (Qcompare p 0) eqn:C; [reflexivity| |].
  - apply Qlt_alt in C; f_equal; apply roundPos_comp; [lra | rewrite E; reflexivity].
  - apply Qgt_alt in C; apply roundPos_comp; assumption.
Qed.

Lemma roundPos_mono (p q : Q) :
  0 < p -> p <= q -> fle (roundPos p) (roundPos q) = true.
Proof.
  intros Hp Hpq.
  assert (Hq : 0 < q) by (eapply Qlt_le_trans; eassumption).
  pose proof (ilog2_mono Hp Hpq) as He.
  pose proof (ilog2_le Hq) as Hq1.
  pose proof (ilog2_lt Hp) as Hp2.
  unfold roundPos.
  set (up := Z.max (ilog2 p - 52) (-1074)).
  set (uq := Z.max (ilog2 q - 52) (-1074)).
  set (np := rne (p / pow2 up)); set (nq := rne (q / pow2 uq)).
  assert (Hv : inject_Z np * pow2 up <= inject_Z nq * pow2 uq).
  { destruct (Z.eq_dec up uq) as [E|E].
    - unfold np, nq; rewrite E.
      apply Qmult_le_compat_r; [|apply Qlt_le_weak, pow2_pos].
      rewrite <- Zle_Qle; apply rne_mono.
      apply Qmult_le_compat_r; [exact Hpq|].
      apply Qlt_le_weak, Qinv_lt_0_compat, pow2_pos.
    - assert (Hlt : (up < uq)%Z) by (unfold up, uq in *; lia).
      assert (Huq : uq = (ilog2 q - 52)%Z) by (unfold up, uq in *; lia).
      assert (Hep : (ilog2 p + 1 <= ilog2 q)%Z) by (unfold up, uq in *; lia).
      apply Qle_trans with (pow2 (ilog2 q)).
      + assert (Hd : (0 <= ilog2 q - up)%Z) by lia.
        setoid_replace (pow2 (ilog2 q))
          with (inject_Z (2 ^ (ilog2 q - up)) * pow2 up).
        2:{ rewrite <- (pow2_Z Hd), <- pow2_add.
            replace (ilog2 q - up + up)%Z with (ilog2 q) by lia; reflexivity. }
        apply Qmult_le_compat_r; [|apply Qlt_le_weak, pow2_pos].
        rewrite <- Zle_Qle; apply rne_le.
        apply Qle_shift_div_r; [apply pow2_pos|].
        rewrite <- (pow2_Z Hd), <- pow2_add.
        replace (ilog2 q - up + up)%Z with (ilog2 q) by lia.
        apply Qlt_le_weak; eapply Qlt_le_trans; [exact Hp2|].
        apply pow2_le; lia.
      + setoid_replace (pow2 (ilog2 q)) with (inject_Z (2 ^ 52) * pow2 uq).
        2:{ rewrite <- (pow2_Z (k := 52)), <- pow2_add by lia.
            replace (52 + uq)%Z with (ilog2 q) by lia; reflexivity. }
        apply Qmult_le_compat_r; [|apply Qlt_le_weak, pow2_pos].
        rewrite <- Zle_Qle; apply rne_ge.
        apply Qle_shift_div_l; [apply pow2_pos|].
        rewrite <- (pow2_Z (k := 52)), <- pow2_add by lia.
        replace (52 + uq)%Z with (ilog2 q) by lia; exact Hq1. }
  destruct (Qle_bool (pow2 1024) (inject_Z nq * pow2 uq)) eqn:Oq.
  - destruct (Qle_bool (pow2 1024) (inject_Z np * pow2 up)); reflexivity.
  - destruct (Qle_bool (pow2 1024) (inject_Z np * pow2 up)) eqn:Op.
    + exfalso; apply Qle_bool_iff in Op.
      assert (H : Qle_bool (pow2 1024) (inject_Z nq * pow2 uq) = true)
        by (apply Qle_bool_iff; eapply Qle_trans; eassumption).
      congruence.
    + cbn [fle]; apply Qle_bool_iff; rewrite !Qred_correct; exact Hv.
Qed.

(** Rounding keeps the order of numbers that are zero or more. *)
Lemma round64_mono (p q : Q) :
  0 <= p -> p <= q -> fle (round64 p) (round64 q) = true.
Proof.
  intros Hp Hpq; unfold round64.
  destruct (Qcompare p 0) eqn:Cp.
  - pose proof (@round64_nonneg q) as Hn; unfold round64 in Hn.
    assert (H0 : 0 <= q) by (eapply Qle_trans; eassumption).
    specialize (Hn H0); revert Hn.
    destruct (Qcompare q 0); [intros _; reflexivity | |];
      intros Hn; apply fle0_nonneg; exact Hn.
  - apply Qlt_alt in Cp; lra.
  - apply Qgt_alt in Cp.
    assert (Cq : Qcompare q 0 = Gt) by (apply Qgt_alt; lra).
    rewrite Cq; apply roundPos_mono; assumption.
Qed.

Lemma fadd_bounded (M c : Q) (x y : double) :
  round64 (M + c) = Fin M ->
  boundedBy M x -> boundedBy c y -> boundedBy M (fadd x y).
Proof.
  intros HM [a [-> [Ha0 Ha1]]] [b [-> [Hb0 Hb1]]]; cbn [fadd].
  assert (H0 : 0 <= a + b) by lra.
  assert (H1 : a + b <= M + c) by lra.
  pose proof (round64_nonneg H0) as Hn.
  pose proof (round64_mono H0 H1) as Hm; rewrite HM in Hm.
  destruct (round64 (a + b)) as [| | |r]; cbn [nonneg fle] in *;
    try discriminate; try tauto.
  exists r; split; [reflexivity | split; [exact Hn|]].
  apply Qle_bool_iff; exact Hm.
Qed.

Lemma fsum_bounded (M c : Q) (l : list double) :
  0 <= M -> round64 (M + c) = Fin M ->
  Forall (boundedBy c) l -> boundedBy M (fsum l).
Proof.
  intros HM0 HM Hl; unfold fsum.
  assert (G : forall x, boundedBy M x -> boundedBy M (fold_left fadd l x)).
  { induction Hl as [|y l Hy _ IH]; intros x Hx; [exact Hx|].
    cbn [fold_left]; apply IH, (fadd_bounded HM Hx Hy). }
  apply G; exists 0; split; [reflexivity | split; [apply Qle_refl | exact HM0]].
Qed.

Lemma sum_unit_finite (l : list double) :
  Forall (boundedBy 1) l -> isFinite (fsum l) = true.
Proof.
  intros H.
  destruct (@fsum_bounded (inject_Z (2 ^ 53)) 1 l) as [q [-> _]];
    [discriminate | vm_compute; reflexivity | exact H | reflexivity].
Qed.

Lemma boundedBy_le (M N : Q) (x : double) :
  M <= N -> boundedBy M x -> boundedBy N x.
Proof.
  intros H [q [-> [H0 H1]]]; exists q; split; [reflexivity|].
  split; [exact H0 | eapply Qle_trans; eassumption].
Qed.

Lemma boundedBy_fle (M : Q) (x : double) :
  boundedBy M x -> fle (Fin 0) x = true /\ fle x (Fin M) = true.
Proof.
  intros [q [-> [H0 H1]]]; split; apply Qle_bool_iff; assumption.
Qed.

(** Rounding a number between 0 and a number of the format stays there. *)
Lemma round64_bounded (M q : Q) :
  round64 M = Fin M -> 0 <= q -> q <= M -> boundedBy M (round64 q).
Proof.
  intros HM H0 H1.
  pose proof (round64_nonneg H0) as Hn.
  pose proof (round64_mono H0 H1) as Hm; rewrite HM in Hm.
  destruct (round64 q) as [| | |r]; cbn [nonneg fle] in *;
    try discriminate; try tauto.
  exists r; split; [reflexivity | split; [exact Hn|]].
  apply Qle_bool_iff; exact Hm.
Qed.

Lemma round64_above (m q : Q) :
  round64 m = Fin m -> 0 <= m -> m <= q ->
  match round64 q with
  | Fin r => m <= r
  | PInf => True
  | _ => False
  end.
Proof.
  intros Hm H0 H1.
  pose proof (round64_mono H0 H1) as G; rewrite Hm in G.
  destruct (round64 q) as [| | |r]; cbn [fle] in G; try discriminate;
    [exact I | apply Qle_bool_iff; exact G].
Qed.

(** ** Integers below [2 ^ 53] are numbers of the format *)

Lemma Qred_Z (z : Z) : Qred (inject_Z z) = inject_Z z.
Proof.
  unfold Qred, inject_Z.
  pose proof (Z.ggcd_gcd z 1) as Hg.
  pose proof (Z.ggcd_correct_divisors z 1) as Hd.
  destruct (Z.ggcd z 1) as [g [a b]]; cbn [fst snd] in *.
  rewrite Z.gcd_1_r in Hg; subst g; destruct Hd as [Ha Hb].
  rewrite Z.mul_1_l in Ha, Hb; subst a b; reflexivity.
Qed.

Lemma round64_Z (z : Z) :
  (0 <= z < 2 ^ 53)%Z -> round64 (inject_Z z) = Fin (inject_Z z).
Proof.
  intros Hz.
  destruct (Z.eq_dec z 0) as [->|Hnz]; [reflexivity|].
  assert (Hq : 0 < inject_Z z) by (unfold Qlt; cbn; lia).
  unfold round64; rewrite (proj1 (Qgt_alt _ _) Hq).
  unfold roundPos.
  set (e := Z.log2 z).
  assert (He0 : (0 <= e)%Z) by apply Z.log2_nonneg.
  assert (Hsp : (2 ^ e <= z < 2 ^ Z.succ e)%Z) by (apply Z.log2_spec; lia).
  assert (He : ilog2 (inject_Z z) = e).
  { apply ilog2_unique.
    - rewrite (pow2_Z He0), <- Zle_Qle; lia.
    - rewrite pow2_Z by lia; rewrite <- Zlt_Qlt.
      replace (e + 1)%Z with (Z.succ e) by lia; lia. }
  rewrite He.
  assert (He52 : (e <= 52)%Z).
  { destruct (Z_le_gt_dec e 52) as [H|H]; [exact H|exfalso].
    assert (2 ^ 53 <= 2 ^ e)%Z by (apply Z.pow_le_mono_r; lia). lia. }
  replace (Z.max (e - 52) (-1074)) with (e - 52)%Z by lia.
  assert (Hu : pow2 (e - 52) * pow2 (52 - e) == 1).
  { rewrite <- pow2_add; replace (e - 52 + (52 - e))%Z with 0%Z by lia.
    reflexivity. }
  assert (Hs : inject_Z z / pow2 (e - 52) == inject_Z (z * 2 ^ (52 - e))).
  { rewrite inject_Z_mult, <- (pow2_Z (k := 52 - e)) by lia.
    pose proof (pow2_pos (e - 52)) as Hp.
    apply Qmult_inj_r with (pow2 (e - 52)); [intros E; rewrite E in Hp; discriminate|].
    unfold Qdiv; rewrite <- Qmult_assoc, (Qmult_comm (/ _)), Qmult_inv_r
      by (intros E; rewrite E in Hp; discriminate).
    rewrite <- Qmult_assoc, (Qmult_comm (pow2 (52 - e))), Hu; reflexivity. }
  rewrite (rne_comp Hs), rne_Z.
  assert (Hv : inject_Z (z * 2 ^ (52 - e)) * pow2 (e - 52) == inject_Z z).
  { rewrite inject_Z_mult, <- (pow2_Z (k := 52 - e)) by lia.
    rewrite <- Qmult_assoc, (Qmult_comm (pow2 (52 - e))), Hu, Qmult_1_r.
    reflexivity. }
  destruct (Qle_bool (pow2 1024) _) eqn:E.
  - exfalso; apply Qle_bool_iff in E; rewrite Hv in E.
    assert (H1 : pow2 53 <= pow2 1024) by (apply pow2_le; lia).
    rewrite (pow2_Z (k := 53)) in H1 by lia.
    assert (H2 : inject_Z (2 ^ 53) <= inject_Z z) by (eapply Qle_trans; eassumption).
    rewrite <- Zle_Qle in H2; lia.
  - f_equal; rewrite (Qred_complete _ _ Hv).
    apply Qred_Z.
Qed.

(** ** Numbers of the format are rounded to themselves *)

Lemma pow2_nonzero (k : Z) : ~ pow2 k == 0.
Proof. intros E; pose proof (pow2_pos k) as H; rewrite E in H; discriminate. Qed.

(** A positive real that is an integer multiple of its own unit in the last
    place is rounded to itself. *)
Lemma roundPos_multiple (v : Q) (N : Z) :
  v == inject_Z N * pow2 (Z.max (ilog2 v - 52) (-1074)) ->
  roundPos v = if Qle_bool (pow2 1024) v then PInf else Fin (Qred v).
Proof.
  intros Hv; unfold roundPos.
  set (u := Z.max _ _) in *.
  assert (Hs : v / pow2 u == inject_Z N).
  { rewrite Hv; apply Qdiv_mult_l, pow2_nonzero. }
  rewrite (rne_comp Hs), rne_Z.
  assert (E : Qle_bool (pow2 1024) (inject_Z N * pow2 u)
              = Qle_bool (pow2 1024) v).
  { destruct (Qle_bool (pow2 1024) v) eqn:E1.
    - apply Qle_bool_iff; apply Qle_bool_iff in E1; rewrite <- Hv; exact E1.
    - destruct (Qle_bool _ (_ * _)) eqn:E2; [|reflexivity].
      apply Qle_bool_iff in E2; rewrite <- Hv in E2.
      apply Qle_bool_iff in E2; congruence. }
  rewrite E; destruct (Qle_bool _ v); [reflexivity|].
  f_equal; apply Qred_complete; symmetry; exact Hv.
Qed.

Lemma roundPos_fixed (n u : Z) :
  (1 <= n <= 2 ^ 53)%Z -> (-1074 <= u)%Z ->
  roundPos (inject_Z n * pow2 u)
  = if Qle_bool (pow2 1024) (inject_Z n * pow2 u) then PInf
    else Fin (Qred (inject_Z n * pow2 u)).
Proof.
  intros Hn Hu.
  set (v := inject_Z n * pow2 u).
  set (k := Z.log2 n).
  assert (Hk0 : (0 <= k)%Z) by apply Z.log2_nonneg.
  assert (Hsp : (2 ^ k <= n < 2 ^ Z.succ k)%Z) by (apply Z.log2_spec; lia).
  assert (Hk53 : (k <= 53)%Z).
  { destruct (Z_le_gt_dec k 53) as [H|H]; [exact H|exfalso].
    assert (2 ^ 54 <= 2 ^ k)%Z by (apply Z.pow_le_mono_r; lia).
    assert (2 ^ 53 < 2 ^ 54)%Z by reflexivity; lia. }
  pose proof (pow2_pos u) as Hpu.
  assert (He : ilog2 v = (k + u)%Z).
  { apply ilog2_unique; unfold v.
    - rewrite pow2_add, (pow2_Z Hk0).
      apply Qmult_le_compat_r; [rewrite <- Zle_Qle; lia | apply Qlt_le_weak, Hpu].
    - replace (k + u + 1)%Z with (Z.succ k + u)%Z by lia.
      rewrite pow2_add, (pow2_Z (k := Z.succ k)) by lia.
      apply Qmult_lt_compat_r; [exact Hpu | rewrite <- Zlt_Qlt; lia]. }
  destruct (Z_le_gt_dec k 52) as [Hk|Hk].
  - apply roundPos_multiple
      with (N := (n * 2 ^ (u - Z.max (k + u - 52) (-1074)))%Z).
    rewrite He; set (u' := Z.max _ _).
    assert (Hd : (0 <= u - u')%Z) by (unfold u'; lia).
    rewrite inject_Z_mult, <- (pow2_Z Hd), <- Qmult_assoc, <- pow2_add.
    replace (u - u' + u')%Z with u by lia; reflexivity.
  - assert (En : n = (2 ^ 53)%Z).
    { assert (k = 53%Z) by lia; subst k.
      assert (E : Z.log2 n = 53%Z) by assumption.
      rewrite E in Hsp; lia. }
    apply roundPos_multiple with (N := (2 ^ 52)%Z).
    rewrite He.
    replace (Z.max (k + u - 52) (-1074)) with (u + 1)%Z by lia.
    unfold v; rewrite En.
    rewrite <- (pow2_Z (k := 53)), <- (pow2_Z (k := 52)) by lia.
    rewrite <- !pow2_add; replace (52 + (u + 1))%Z with (53 + u)%Z by lia.
    reflexivity.
Qed.

Lemma roundPos_idem (q r : Q) :
  0 < q -> roundPos q = Fin r -> round64 r = Fin r.
Proof.
  intros Hq; unfold roundPos.
  set (e := ilog2 q); set (u := Z.max (e - 52) (-1074)).
  set (n := rne (q / pow2 u)).
  pose proof (pow2_pos u) as Hpu.
  assert (Hn0 : (0 <= n)%Z).
  { apply rne_ge; apply Qle_shift_div_l; [exact Hpu|].
    rewrite Qmult_0_l; apply Qlt_le_weak; exact Hq. }
  assert (Hn1 : (n <= 2 ^ 53)%Z).
  { apply rne_le; apply Qle_shift_div_r; [exact Hpu|].
    rewrite <- (pow2_Z (k := 53)) by lia; rewrite <- pow2_add.
    apply Qle_trans with (pow2 (e + 1));
      [apply Qlt_le_weak, ilog2_lt; exact Hq | apply pow2_le; lia]. }
  destruct (Qle_bool (pow2 1024) (inject_Z n * pow2 u)) eqn:Eo; [discriminate|].
  intros H.
  assert (Hr : r = Qred (inject_Z n * pow2 u)) by congruence.
  clear H; subst r.
  destruct (Z.eq_dec n 0) as [E0|Hnz].
  - assert (E : Qred (inject_Z n * pow2 u) = Qred 0)
      by (apply Qred_complete; rewrite E0; apply Qmult_0_l).
    rewrite E; reflexivity.
  - set (v := inject_Z n * pow2 u) in *.
    assert (Hv : 0 < v).
    { unfold v; apply Qmult_lt_0_compat; [|exact Hpu].
      change 0 with (inject_Z 0); rewrite <- Zlt_Qlt; lia. }
    assert (Hrv : Qred v == v) by apply Qred_correct.
    assert (Hr0 : 0 < Qred v) by (rewrite Hrv; exact Hv).
    unfold round64; rewrite (proj1 (Qgt_alt _ _) Hr0).
    rewrite (roundPos_comp Hr0 Hrv).
    unfold v; rewrite roundPos_fixed by (unfold u; lia).
    fold v; rewrite Eo; reflexivity.
Qed.

(** A number of the format is rounded to itself. *)
Lemma round64_idem (q r : Q) : round64 q = Fin r -> round64 r = Fin r.
Proof.
  unfold round64 at 1; destruct (Qcompare q 0) eqn:E.
  - intros H; inversion H; reflexivity.
  - apply Qlt_alt in E.
    assert (Hq : 0 < - q) by lra.
    destruct (roundPos (- q)) as [| | |r'] eqn:Er; cbn [fneg]; try discriminate.
    intros H; inversion H; subst r; clear H.
    pose proof (roundPos_idem Hq Er) as Hi.
    pose proof (roundPos_nonneg Hq) as Hnn; rewrite Er in Hnn; cbn [nonneg] in Hnn.
    unfold round64 in *.
    destruct (Qcompare r' 0) eqn:E1.
    + apply Qeq_alt in E1.
      assert (E2 : Qcompare (- r') 0 = Eq) by (apply (proj1 (Qeq_alt _ _)); lra).
      rewrite E2; assert (Hz : r' = 0) by congruence.
      rewrite Hz; reflexivity.
    + apply Qlt_alt in E1; lra.
    + apply Qgt_alt in E1.
      assert (E2 : Qcompare (- r') 0 = Lt) by (apply (proj1 (Qlt_alt _ _)); lra).
      rewrite E2.
      assert (E3 : - - r' == r') by ring.
      assert (H3 : 0 < - - r') by lra.
      rewrite (roundPos_comp H3 E3), Hi; reflexivity.
  - apply Qgt_alt in E; apply roundPos_idem; exact E.
Qed.

(** ** Agreement with the specification of the Standard Library *)

(** On every sample, with every operand, the four operations and the three
    comparisons give what [SpecFloat] specifies for binary64 (up to the
    sign of a zero); the literals are the sampled numbers. *)
Example binary64_agrees_with_SpecFloat :
  agree2 SpecFloat.SFadd fadd = true
  /\ agree2 SpecFloat.SFsub fsub = true
  /\ agree2 SpecFloat.SFmul fmul = true
  /\ agree2 SpecFloat.SFdiv fdiv = true
  /\ agreeTest SpecFloat.SFltb flt = true
  /\ agreeTest SpecFloat.SFleb fle = true
  /\ agreeTest SpecFloat.SFeqb feq = true
  /\ map ofSpec (firstn 10 (skipn 5 samples))
     = [d0_1; d0_3; d1_2; d0_8; d0_7; d1_05; d1_15; round64 (575 # 1000);
        round64 (6125 # 10000); round64 (5 # 1000)].
Proof. vm_compute; repeat split. Qed.

(* ================================================================== *)
(** * The engine on binary64 numbers *)

(** ** What the accumulators hold *)

Lemma filter_none (A : Type) (p : A -> bool) (l : list A) :
  (forall x, In x l -> p x = false) -> filter p l = [].
Proof.
  induction l as [|x l IH]; intros H; [reflexivity|].
  cbn [filter]; rewrite (H x (or_introl eq_refl)).
  apply IH; intros y Hy; apply H; right; exact Hy.
Qed.

Lemma fsum_snoc (l : list double) (x : double) :
  fsum (l ++ [x]) = fadd (fsum l) x.
Proof. unfold fsum; rewrite fold_left_app; reflexivity. Qed.

Lemma weightRecorded_snoc (key : jsstring) (recs : list Recording)
    (r : Recording) :
  weightRecorded key (recs ++ [r])
  = if streqb (rcKey r) key then fadd (weightRecorded key recs) (rcWeight r)
    else weightRecorded key recs.
Proof.
  unfold weightRecorded; rewrite filter_app; cbn [filter].
  destruct (streqb (rcKey r) key);
    [rewrite map_app; apply fsum_snoc | rewrite app_nil_r; reflexivity].
Qed.

Lemma tierWeightRecorded_snoc (key : jsstring) (tier : RequirementTier)
    (recs : list Recording) (r : Recording) :
  tierWeightRecorded key tier (recs ++ [r])
  = if (streqb (rcKey r) key && tierEqb (rcTier r) tier)%bool
    then fadd (tierWeightRecorded key tier recs) (rcWeight r)
    else tierWeightRecorded key tier recs.
Proof.
  unfold tierWeightRecorded; rewrite filter_app; cbn [filter].
  destruct (_ && _)%bool;
    [rewrite map_app; apply fsum_snoc | rewrite app_nil_r; reflexivity].
Qed.

Lemma addWeight_tier (w : Binary64.TierWeights) (tier tier' : RequirementTier)
    (x : double) :
  tierWeight64 (Binary64.addWeight w tier x) tier'
  = if tierEqb tier tier' then fadd (tierWeight64 w tier') x
    else tierWeight64 w tier'.
Proof. destruct tier, tier'; reflexivity. Qed.

Lemma recordTerm_tracks (t : jsstring) (src : KeywordSource)
    (tier : RequirementTier) (w : double) (fragmentId : nat)
    (m : JsMap.t Binary64.KeywordStats) (recs : list Recording) :
  tracks m recs ->
  tracks (Binary64.recordTerm t src tier w fragmentId m)
    (recs ++ recordingOf t tier w).
Proof.
  intros [Hsome Hnone]; unfold Binary64.recordTerm, recordingOf, recordKey.
  destruct (_ || _)%bool; [rewrite app_nil_r; split; assumption|].
  destruct (isGenericTerm _); [rewrite app_nil_r; split; assumption|].
  set (key := match JsMap.get SYNONYM_LOOKUP (normalizeTerm t) with
              | Some i => synCanonical i
              | None => normalizeTerm t
              end).
  set (r := mkRecording key tier w).
  split.
  - intros k st; rewrite get_set.
    destruct (streqb key k) eqn:E.
    + apply streqb_eq in E; subst k; intros Hst; inversion Hst; subst st;
        clear Hst.
      cbn [Binary64.weightedOccurrences Binary64.sectionWeights].
      rewrite weightRecorded_snoc; cbn [rcKey rcWeight r].
      rewrite streqb_refl.
      assert (Hold :
        Binary64.weightedOccurrences
          match JsMap.get m key with
          | Some existing => existing
          | None => Binary64.mkStats key 0 (Fin 0) Binary64.zeroWeights src
                      [] [] []
          end = weightRecorded key recs
        /\ forall tier',
             tierWeight64
               (Binary64.sectionWeights
                  match JsMap.get m key with
                  | Some existing => existing
                  | None => Binary64.mkStats key 0 (Fin 0)
                              Binary64.zeroWeights src [] [] []
                  end) tier'
             = tierWeightRecorded key tier' recs).
      { destruct (JsMap.get m key) as [existing|] eqn:G;
          [exact (Hsome _ _ G)|].
        cbn [Binary64.weightedOccurrences Binary64.sectionWeights].
        unfold weightRecorded, tierWeightRecorded; split.
        - rewrite filter_none; [reflexivity | exact (Hnone _ G)].
        - intros tier'; rewrite filter_none; [destruct tier'; reflexivity|].
          intros x Hx; rewrite (Hnone _ G x Hx); reflexivity. }
      destruct Hold as [H1 H2]; split; [rewrite H1; reflexivity|].
      intros tier'; rewrite addWeight_tier, tierWeightRecorded_snoc.
      cbn [rcKey rcTier rcWeight r]; rewrite streqb_refl, H2; reflexivity.
    + intros Hst; destruct (Hsome _ _ Hst) as [H1 H2]; split.
      * rewrite weightRecorded_snoc; cbn [rcKey r]; rewrite E; exact H1.
      * intros tier'; rewrite tierWeightRecorded_snoc; cbn [rcKey r].
        rewrite E; apply H2.
  - intros k; rewrite get_set.
    destruct (streqb key k) eqn:E; [discriminate|].
    intros Hk x Hx; apply in_app_or in Hx; destruct Hx as [Hx|[<-|[]]];
      [exact (Hnone _ Hk _ Hx) | exact E].
Qed.

Lemma fold_left_tracks (B : Type)
    (f : JsMap.t Binary64.KeywordStats -> B -> JsMap.t Binary64.KeywordStats)
    (g : B -> list Recording) (l : list B) :
  (forall m x recs, tracks m recs -> tracks (f m x) (recs ++ g x)) ->
  forall m recs, tracks m recs ->
                 tracks (fold_left f l m) (recs ++ flat_map g l).
Proof.
  intros Hf; induction l as [|x l IH]; intros m recs H; cbn [fold_left flat_map].
  - rewrite app_nil_r; exact H.
  - rewrite app_assoc; apply IH, Hf, H.
Qed.

Lemma collectTokens_tracks (tokens : list jsstring) (tier : RequirementTier)
    (fragmentId : nat) (m : JsMap.t Binary64.KeywordStats)
    (recs : list Recording) :
  tracks m recs ->
  tracks (Binary64.collectTokens tokens tier fragmentId m)
    (recs ++ tokenRecordings tokens tier).
Proof.
  unfold Binary64.collectTokens, tokenRecordings; apply fold_left_tracks.
  intros a x rs Ha; destruct (shouldKeepToken x);
    [apply recordTerm_tracks; exact Ha | rewrite app_nil_r; exact Ha].
Qed.

Lemma collectPhrases_tracks (tokens : list jsstring) (tier : RequirementTier)
    (fragmentId : nat) (m : JsMap.t Binary64.KeywordStats)
    (recs : list Recording) :
  tracks m recs ->
  tracks (Binary64.collectPhrases tokens tier fragmentId m)
    (recs ++ phraseRecordings tokens tier).
Proof.
  unfold Binary64.collectPhrases, phraseRecordings; apply fold_left_tracks.
  intros a x rs Ha; rewrite app_assoc.
  assert (H2 : tracks
                 match buildPhrase tokens x 2 with
                 | Some bigram =>
                     Binary64.recordTerm bigram phrase tier
                       (fmul (Binary64.SECTION_WEIGHTS tier) d1_1)
                       fragmentId a
                 | None => a
                 end
                 (rs ++ match buildPhrase tokens x 2 with
                        | Some bigram =>
                            recordingOf bigram tier
                              (fmul (Binary64.SECTION_WEIGHTS tier) d1_1)
                        | None => []
                        end)).
  { destruct (buildPhrase tokens x 2);
      [apply recordTerm_tracks; exact Ha | rewrite app_nil_r; exact Ha]. }
  destruct (buildPhrase tokens x 3);
    [apply recordTerm_tracks; exact H2 | rewrite app_nil_r; exact H2].
Qed.

Lemma collectStats_tracks (text : jsstring) :
  tracks (Binary64.collectStats text) (recordings text).
Proof.
  unfold Binary64.collectStats, recordings.
  change (flat_map fragmentRecordings (splitIntoFragments text))
    with ([] ++ flat_map fragmentRecordings (splitIntoFragments text)).
  apply fold_left_tracks.
  - intros m f recs Hm; unfold Binary64.collectFragment, fragmentRecordings.
    destruct (tokenize (content f)) as [|t ts] eqn:E;
      [cbn; rewrite app_nil_r; exact Hm|].
    rewrite app_assoc.
    apply collectPhrases_tracks, collectTokens_tracks, Hm.
  - split; [intros k st H; discriminate H | intros k _ r []].
Qed.

(** ** The accumulator map on binary64 numbers *)

Lemma good_zero : good (Fin 0).
Proof. split; [apply Qle_refl | exists 0%Z; rewrite Qmult_0_l; reflexivity]. Qed.

Lemma SECTION_WEIGHTS64_good (tier : RequirementTier) :
  good (Binary64.SECTION_WEIGHTS tier)
  /\ good (fmul (Binary64.SECTION_WEIGHTS tier) d1_1)
  /\ good (fmul (Binary64.SECTION_WEIGHTS tier) d1_15).
Proof.
  assert (H : exists q, 0 <= q /\ Binary64.SECTION_WEIGHTS tier = round64 q).
  { destruct tier;
      [exists (12 # 10) | exists 1 | exists (8 # 10) | exists (7 # 10)];
      (split; [discriminate | vm_compute; reflexivity]). }
  destruct H as [q [Hq E]]; rewrite E.
  split; [apply round64_good; exact Hq|].
  rewrite <- E; destruct tier; split; apply fmul_good; try reflexivity;
    discriminate.
Qed.

Lemma recordTerm_inv64 (t : jsstring) (src : KeywordSource)
    (tier : RequirementTier) (w : double) (fragmentId : nat)
    (m : JsMap.t Binary64.KeywordStats) :
  good w -> statsInv64 m ->
  statsInv64 (Binary64.recordTerm t src tier w fragmentId m).
Proof.
  intros Hw [Hnd Hall]; unfold Binary64.recordTerm.
  destruct (_ || _)%bool; [split; assumption|].
  destruct (isGenericTerm _); [split; assumption|].
  set (key := match JsMap.get SYNONYM_LOOKUP (normalizeTerm t) with
              | Some i => synCanonical i
              | None => normalizeTerm t
              end).
  split; [apply set_keys_NoDup; exact Hnd|].
  apply set_Forall; [exact Hall|]; cbn [fst snd].
  cbn [Binary64.stCanonical Binary64.weightedOccurrences
         Binary64.sectionWeights].
  assert (Hold :
    Binary64.stCanonical
      match JsMap.get m key with
      | Some existing => existing
      | None => Binary64.mkStats key 0 (Fin 0) Binary64.zeroWeights src
                  [] [] []
      end = key
    /\ good (Binary64.weightedOccurrences
               match JsMap.get m key with
               | Some existing => existing
               | None => Binary64.mkStats key 0 (Fin 0) Binary64.zeroWeights
                           src [] [] []
               end)
    /\ forall tier',
         good (tierWeight64
                 (Binary64.sectionWeights
                    match JsMap.get m key with
                    | Some existing => existing
                    | None => Binary64.mkStats key 0 (Fin 0)
                                Binary64.zeroWeights src [] [] []
                    end) tier')).
  { destruct (JsMap.get m key) as [existing|] eqn:E.
    - apply get_In in E; rewrite Forall_forall in Hall.
      exact (Hall _ E).
    - split; [reflexivity | split; [apply good_zero|]].
      intros tier'; destruct tier'; apply good_zero. }
  destruct Hold as [H1 [H2 H3]].
  split; [exact H1 | split; [apply fadd_good; assumption|]].
  intros tier'; rewrite addWeight_tier.
  destruct (tierEqb tier tier'); [apply fadd_good; [apply H3 | exact Hw]|].
  apply H3.
Qed.

Lemma collectStats_inv64 (text : jsstring) :
  statsInv64 (Binary64.collectStats text).
Proof.
  unfold Binary64.collectStats; apply fold_left_inv.
  - intros a f Ha; unfold Binary64.collectFragment.
    destruct (tokenize (content f)); [exact Ha|].
    unfold Binary64.collectPhrases, Binary64.collectTokens.
    apply fold_left_inv.
    + intros b x Hb.
      assert (H2 : statsInv64
                 match buildPhrase (j :: l) x 2 with
                 | Some bigram =>
                     Binary64.recordTerm bigram phrase (fragSection f)
                       (fmul (Binary64.SECTION_WEIGHTS (fragSection f)) d1_1)
                       (fragId f) b
                 | None => b
                 end).
      { destruct (buildPhrase (j :: l) x 2); [|exact Hb].
        apply recordTerm_inv64; [apply SECTION_WEIGHTS64_good | exact Hb]. }
      destruct (buildPhrase (j :: l) x 3); [|exact H2].
      apply recordTerm_inv64; [apply SECTION_WEIGHTS64_good | exact H2].
    + apply fold_left_inv; [|exact Ha].
      intros b x Hb; destruct (shouldKeepToken x); [|exact Hb].
      apply recordTerm_inv64; [apply SECTION_WEIGHTS64_good | exact Hb].
  - split; constructor.
Qed.

Lemma get_of_In (V : Type) (m : JsMap.t V) (k : jsstring) (v : V) :
  NoDup (JsMap.keys m) -> In (k, v) m -> JsMap.get m k = Some v.
Proof.
  induction m as [|[k' v'] m IH]; cbn [JsMap.keys map JsMap.get fst];
    intros Hnd Hin; [destruct Hin|].
  destruct Hin as [H|H].
  - inversion H; subst; rewrite streqb_refl; reflexivity.
  - inversion Hnd as [|? ? Hn Hm]; subst.
    destruct (streqb k' k) eqn:E; [|apply IH; assumption].
    apply streqb_eq in E; subst k'; exfalso; apply Hn.
    change k with (fst (k, v)); apply in_map; exact H.
Qed.

Lemma stats64_entry (m : JsMap.t Binary64.KeywordStats)
    (stat : Binary64.KeywordStats) :
  statsInv64 m -> In stat (JsMap.values m) ->
  JsMap.get m (Binary64.stCanonical stat) = Some stat
  /\ good (Binary64.weightedOccurrences stat)
  /\ forall tier, good (tierWeight64 (Binary64.sectionWeights stat) tier).
Proof.
  intros [Hnd Hall] Hin; unfold JsMap.values in Hin.
  apply in_map_iff in Hin; destruct Hin as [[k v] [<- Hin]].
  rewrite Forall_forall in Hall; destruct (Hall _ Hin) as [Hc Hg].
  cbn [fst snd] in *; rewrite Hc; split; [|exact Hg].
  apply get_of_In; assumption.
Qed.

Lemma mathMax64_isMaxWeighted (s0 : Binary64.KeywordStats)
    (rest : list Binary64.KeywordStats) :
  Forall (fun s => good (Binary64.weightedOccurrences s)) (s0 :: rest) ->
  isMaxWeighted64
    (Binary64.mathMax (Binary64.weightedOccurrences s0)
       (map Binary64.weightedOccurrences rest))
    (s0 :: rest).
Proof.
  intros H; inversion H as [|? ? H0 Hr]; subst.
  destruct (@mathMax64_spec (map Binary64.weightedOccurrences rest)
              (Binary64.weightedOccurrences s0)) as [H1 [H2 H3]].
  { apply good_num; exact H0. }
  { apply Forall_forall; intros y Hy; apply in_map_iff in Hy.
    destruct Hy as [s [<- Hs]]; rewrite Forall_forall in Hr.
    apply good_num, Hr; exact Hs. }
  split.
  - destruct H1 as [H1|H1].
    + exists s0; split; [left; reflexivity | symmetry; exact H1].
    + apply in_map_iff in H1; destruct H1 as [s [E Hs]].
      exists s; split; [right; exact Hs | exact E].
  - intros s [<-|Hs]; [exact H2 | apply H3, in_map; exact Hs].
Qed.

Lemma tierEntries64_weight (w : Binary64.TierWeights)
    (e : RequirementTier * double) :
  In e (Binary64.tierEntries w) -> snd e = tierWeight64 w (fst e).
Proof. simpl; intros [<-|[<-|[<-|[<-|[]]]]]; reflexivity. Qed.

Lemma getDominantSection64_max (w : Binary64.TierWeights)
    (tier : RequirementTier) :
  (forall t, good (tierWeight64 w t)) ->
  fle (tierWeight64 w tier) (tierWeight64 w (Binary64.getDominantSection w))
  = true.
Proof.
  intros Hg; unfold Binary64.getDominantSection.
  destruct (stableSort _ (Binary64.tierEntries w)) as [|e rest] eqn:E.
  - pose proof (Permutation_length
                  (stableSort_perm (Binary64.descBy snd)
                     (Binary64.tierEntries w))) as Hlen.
    rewrite E in Hlen; discriminate.
  - assert (He : In e (Binary64.tierEntries w)).
    { apply (proj1 (stableSort_In (Binary64.descBy snd) _ _)).
      rewrite E; left; reflexivity. }
    rewrite <- (tierEntries64_weight He).
    assert (Hall : Forall (fun x : RequirementTier * double => good (snd x))
                     (Binary64.tierEntries w)).
    { apply Forall_forall; intros x Hx.
      rewrite (tierEntries64_weight Hx); apply Hg. }
    apply (@sortDesc64_head_max _ snd _ _ _ Hall E (tier, tierWeight64 w tier)).
    destruct tier; simpl; tauto.
Qed.

Lemma coverageStage64_filter (l : list Binary64.KeywordInsight) :
  exists p, Binary64.coverageStage l = filter p l.
Proof.
  unfold Binary64.coverageStage.
  destruct (Nat.ltb 10 _); [|exists (fun _ => true); symmetry; apply filter_all].
  destruct (Nat.leb 5 _);
    [eexists; reflexivity | exists (fun _ => true); symmetry; apply filter_all].
Qed.

Lemma percentileStage64_filter (l : list Binary64.KeywordInsight) :
  exists p, Binary64.percentileStage l = filter p l.
Proof.
  unfold Binary64.percentileStage.
  destruct (Nat.ltb 12 _); [|exists (fun _ => true); symmetry; apply filter_all].
  destruct (Nat.leb 5 _);
    [eexists; reflexivity | exists (fun _ => true); symmetry; apply filter_all].
Qed.

Lemma refineKeywords64_filter (l : list Binary64.KeywordInsight) :
  exists p, Binary64.refineKeywords l = filter p l.
Proof.
  unfold Binary64.refineKeywords.
  destruct (coverageStage64_filter l) as [p Hp].
  destruct (percentileStage64_filter (Binary64.coverageStage l)) as [q Hq].
  destruct (Binary64.percentileStage (Binary64.coverageStage l)) eqn:E.
  - exists (fun _ => true); symmetry; apply filter_all.
  - rewrite Hq, Hp, <- filter_twice; eexists; reflexivity.
Qed.

Lemma extractKeywords64_from_stats (text : jsstring) (limit : Z)
    (kw : Binary64.KeywordInsight) :
  In kw (Binary64.extractKeywords text limit) ->
  exists s0 rest stat,
    JsMap.values (Binary64.collectStats text) = s0 :: rest
    /\ In stat (s0 :: rest)
    /\ kw = Binary64.toInsight
              (Nat.max (List.length (splitIntoFragments text)) 1)
              (Binary64.mathMax (Binary64.weightedOccurrences s0)
                 (map Binary64.weightedOccurrences rest))
              stat.
Proof.
  unfold Binary64.extractKeywords.
  destruct (JsMap.values (Binary64.collectStats text)) as [|s0 rest] eqn:E;
    [intros []|].
  destruct (sliceTo_firstn
              (Binary64.refineKeywords (Binary64.candidateKeywords text)) limit)
    as [n ->].
  destruct (refineKeywords64_filter (Binary64.candidateKeywords text))
    as [p ->].
  intros H; apply firstn_In in H; apply filter_In in H; destruct H as [H _].
  unfold Binary64.candidateKeywords in H; rewrite E in H.
  unfold Binary64.rankKeywords in H.
  apply (proj1 (stableSort_In (Binary64.descBy Binary64.importance) _ _)) in H.
  apply in_map_iff in H; destruct H as [stat [<- Hs]].
  exists s0, rest, stat; repeat split; assumption.
Qed.

(** C1. Every returned keyword comes from one accumulator of the call.
    Its importance is the number that the code computes: the weighted
    count divided by the largest weighted count of the call, times the
    weight of its dominant tier (core 1.2, responsibility 1, preferred 0.8,
    general 0.7), times 1.05 for a phrase and 1 for a term, capped at 1 and
    rounded to three decimals by [toFixed], every operation in binary64.
    The weighted count and the tier buckets are the sums of the weights of
    the recorded occurrences of the canonical key, and the dominant tier
    has a largest bucket. *)
Theorem extractKeywords_importance (text : jsstring) (limit : Z)
    (kw : Binary64.KeywordInsight) :
  In kw (Binary64.extractKeywords text limit) ->
  exists stat M,
    In stat (JsMap.values (Binary64.collectStats text))
    /\ isMaxWeighted64 M (JsMap.values (Binary64.collectStats text))
    /\ Binary64.canonical kw = Binary64.stCanonical stat
    /\ Binary64.source kw = Binary64.stSource stat
    /\ Binary64.weightedOccurrences stat
       = weightRecorded (Binary64.canonical kw) (recordings text)
    /\ (forall tier,
          tierWeight64 (Binary64.sectionWeights stat) tier
          = tierWeightRecorded (Binary64.canonical kw) tier (recordings text))
    /\ (forall tier,
          fle (tierWeight64 (Binary64.sectionWeights stat) tier)
            (tierWeight64 (Binary64.sectionWeights stat) (Binary64.section kw))
          = true)
    /\ Binary64.importance kw
       = ffixed3
           (fmin
              (fmul
                 (fmul (fdiv (Binary64.weightedOccurrences stat) M)
                    match Binary64.section kw with
                    | core => d1_2
                    | responsibility => Fin 1
                    | preferred => d0_8
                    | general => d0_7
                    end)
                 match Binary64.source kw with
                 | phrase => d1_05
                 | term => Fin 1
                 end)
              (Fin 1)).
Proof.
  intros H.
  destruct (extractKeywords64_from_stats _ _ _ H)
    as [s0 [rest [stat [E [Hs ->]]]]].
  pose proof (collectStats_inv64 text) as Hinv.
  assert (Hin : In stat (JsMap.values (Binary64.collectStats text)))
    by (rewrite E; exact Hs).
  destruct (@stats64_entry _ _ Hinv Hin) as [Hget [_ Hgt]].
  destruct (collectStats_tracks text) as [Htr _].
  destruct (Htr _ _ Hget) as [Hw Hb].
  exists stat, (Binary64.mathMax (Binary64.weightedOccurrences s0)
                  (map Binary64.weightedOccurrences rest)).
  cbn [Binary64.canonical Binary64.source Binary64.section Binary64.importance
         Binary64.toInsight].
  split; [exact Hin|].
  split.
  { rewrite E; apply mathMax64_isMaxWeighted.
    apply Forall_forall; intros s Hs'.
    rewrite <- E in Hs'; apply (@stats64_entry _ _ Hinv Hs'). }
  split; [reflexivity | split; [reflexivity|]].
  split; [exact Hw | split; [exact Hb|]].
  split; [intros tier; apply getDominantSection64_max; exact Hgt|].
  reflexivity.
Qed.

(** ** The weights stay finite *)

Lemma fadd_weightRange (x y : double) :
  x = Fin 0 \/ weightRange x -> stepRange y -> weightRange (fadd x y).
Proof.
  intros Hx [b [-> [Hb0 Hb1]]].
  assert (G : exists a, x = Fin a /\ 0 <= a /\ a <= inject_Z (2 ^ 54)).
  { destruct Hx as [->|[a [-> [Ha0 Ha1]]]].
    - exists 0; split; [reflexivity | split; discriminate].
    - exists a; split; [reflexivity | split; [lra | exact Ha1]]. }
  destruct G as [a [-> [Ha0 Ha1]]]; cbn [fadd].
  assert (H1 : 1 # 2 <= a + b) by lra.
  assert (H2 : a + b <= inject_Z (2 ^ 54) + 2) by lra.
  assert (H0 : 0 <= a + b) by lra.
  pose proof (@round64_above (1 # 2) (a + b) eq_refl ltac:(discriminate) H1)
    as G1.
  pose proof (round64_mono H0 H2) as G2.
  change (round64 (inject_Z (2 ^ 54) + 2)) with (Fin (inject_Z (2 ^ 54))) in G2.
  destruct (round64 (a + b)) as [| | |r]; cbn [fle] in G2; try discriminate;
    try tauto.
  exists r; split; [reflexivity | split; [exact G1|]].
  apply Qle_bool_iff; exact G2.
Qed.

Lemma SECTION_WEIGHTS64_step (tier : RequirementTier) :
  stepRange (Binary64.SECTION_WEIGHTS tier)
  /\ stepRange (fmul (Binary64.SECTION_WEIGHTS tier) d1_1)
  /\ stepRange (fmul (Binary64.SECTION_WEIGHTS tier) d1_15).
Proof.
  destruct tier; repeat split; eexists;
    (split; [vm_compute; reflexivity | split; discriminate]).
Qed.

Lemma recordTerm_range (t : jsstring) (src : KeywordSource)
    (tier : RequirementTier) (w : double) (fragmentId : nat)
    (m : JsMap.t Binary64.KeywordStats) :
  stepRange w -> statsRange m ->
  statsRange (Binary64.recordTerm t src tier w fragmentId m).
Proof.
  intros Hw Hall; unfold Binary64.recordTerm.
  destruct (_ || _)%bool; [assumption|].
  destruct (isGenericTerm _); [assumption|].
  set (key := match JsMap.get SYNONYM_LOOKUP (normalizeTerm t) with
              | Some i => synCanonical i
              | None => normalizeTerm t
              end).
  apply set_Forall; [exact Hall|]; cbn [snd Binary64.weightedOccurrences].
  apply fadd_weightRange; [|exact Hw].
  destruct (JsMap.get m key) as [existing|] eqn:E.
  - right; apply get_In in E; unfold statsRange in Hall.
    rewrite Forall_forall in Hall; exact (Hall _ E).
  - left; reflexivity.
Qed.

Lemma collectStats_range (text : jsstring) :
  statsRange (Binary64.collectStats text).
Proof.
  unfold Binary64.collectStats; apply fold_left_inv.
  - intros a f Ha; unfold Binary64.collectFragment.
    destruct (tokenize (content f)); [exact Ha|].
    unfold Binary64.collectPhrases, Binary64.collectTokens.
    apply fold_left_inv.
    + intros b x Hb.
      assert (H2 : statsRange
                 match buildPhrase (j :: l) x 2 with
                 | Some bigram =>
                     Binary64.recordTerm bigram phrase (fragSection f)
                       (fmul (Binary64.SECTION_WEIGHTS (fragSection f)) d1_1)
                       (fragId f) b
                 | None => b
                 end).
      { destruct (buildPhrase (j :: l) x 2); [|exact Hb].
        apply recordTerm_range; [apply SECTION_WEIGHTS64_step | exact Hb]. }
      destruct (buildPhrase (j :: l) x 3); [|exact H2].
      apply recordTerm_range; [apply SECTION_WEIGHTS64_step | exact H2].
    + apply fold_left_inv; [|exact Ha].
      intros b x Hb; destruct (shouldKeepToken x); [|exact Hb].
      apply recordTerm_range; [apply SECTION_WEIGHTS64_step | exact Hb].
  - constructor.
Qed.

(** ** The importance is between 0 and 1 *)

Lemma ffixed3_unit (x : double) : boundedBy 1 x -> boundedBy 1 (ffixed3 x).
Proof.
  intros [q [-> [H0 H1]]]; unfold ffixed3.
  assert (E1 : Qle_bool (inject_Z (10 ^ 21)) q = false).
  { destruct (Qle_bool _ q) eqn:E; [|reflexivity].
    apply Qle_bool_iff in E; exfalso.
    assert (H : inject_Z (10 ^ 21) <= 1) by (eapply Qle_trans; eassumption).
    revert H; vm_compute; intros H; apply H; reflexivity. }
  assert (E2 : Qle_bool q (inject_Z (- 10 ^ 21)) = false).
  { destruct (Qle_bool q _) eqn:E; [|reflexivity].
    apply Qle_bool_iff in E; exfalso.
    assert (H : 0 <= inject_Z (- 10 ^ 21)) by (eapply Qle_trans; eassumption).
    revert H; vm_compute; intros H; apply H; reflexivity. }
  rewrite E1, E2; cbn [orb].
  assert (E3 : Qltb q 0 = false) by (apply Qltb_ge; exact H0).
  rewrite E3.
  set (k := Qfloor (q * 1000 + (1 # 2))).
  assert (Hk0 : (0 <= k)%Z).
  { unfold k; change 0%Z with (Qfloor 0); apply Qfloor_resp_le; lra. }
  assert (Hk1 : (k <= 1000)%Z).
  { apply Z.le_trans with (Qfloor (1 * 1000 + (1 # 2)));
      [apply Qfloor_resp_le; lra | discriminate]. }
  apply round64_bounded; [reflexivity | |];
    unfold Qle; cbn [Qnum Qden]; lia.
Qed.

Lemma importanceOf64_unit (M : double) (stat : Binary64.KeywordStats) :
  weightRange M -> weightRange (Binary64.weightedOccurrences stat) ->
  fle (Binary64.weightedOccurrences stat) M = true ->
  boundedBy 1 (Binary64.importanceOf M stat).
Proof.
  intros [m [-> [Hm0 Hm1]]] [a [Ea [Ha0 Ha1]]] Hle.
  unfold Binary64.importanceOf; rewrite Ea in *.
  cbn [fle] in Hle; apply Qle_bool_iff in Hle.
  apply ffixed3_unit.
  assert (Cm : Qcompare m 0 = Gt) by (apply Qgt_alt; lra).
  cbn [fdiv]; rewrite Cm.
  assert (Hr : boundedBy 1 (round64 (a / m))).
  { apply round64_bounded; [reflexivity | |].
    - apply Qle_shift_div_l; lra.
    - apply Qle_shift_div_r; lra. }
  destruct Hr as [r [-> [Hr0 Hr1]]].
  assert (Hb : exists b, Binary64.SECTION_WEIGHTS
                           (Binary64.getDominantSection
                              (Binary64.sectionWeights stat)) = Fin b
                         /\ 0 <= b /\ b <= 2).
  { destruct (Binary64.getDominantSection _); eexists;
      (split; [reflexivity | split; discriminate]). }
  destruct Hb as [b [-> [Hb0 Hb1]]]; cbn [fmul].
  assert (Hs : boundedBy 2 (round64 (r * b))).
  { apply round64_bounded; [reflexivity | |]; nra. }
  destruct Hs as [s [-> [Hs0 Hs1]]].
  assert (Hp : exists p, Binary64.phraseBoost (Binary64.stSource stat) = Fin p
                         /\ 0 <= p /\ p <= 2).
  { destruct (Binary64.stSource stat); eexists;
      (split; [reflexivity | split; discriminate]). }
  destruct Hp as [p [-> [Hp0 Hp1]]]; cbn [fmul].
  assert (Ht : boundedBy 4 (round64 (s * p))).
  { apply round64_bounded; [reflexivity | |]; nra. }
  destruct Ht as [t [-> [Ht0 Ht1]]].
  cbn [fmin flt]; destruct (Qltb 1 t) eqn:E.
  - exists 1; split; [reflexivity | split; discriminate].
  - apply Qltb_ge in E; exists t; split; [reflexivity | split; assumption].
Qed.

(** ** The score *)

Lemma ofNat_max_positive (n : nat) :
  exists b, ofNat (Nat.max n 1) = Fin b /\ 0 < b.
Proof.
  eexists; split; [reflexivity|].
  unfold Qlt; cbn [Qnum Qden inject_Z]; lia.
Qed.

Lemma densityTerm64_nonneg (m : Binary64.KeywordMatch) :
  (0 <= Binary64.resumeHits m)%Z ->
  isNaN (Binary64.jdOccurrences m) = false ->
  nonneg (Binary64.densityTerm m).
Proof.
  intros Hh Ho; unfold Binary64.densityTerm.
  apply fle0_nonneg, fmin_cap; [|discriminate].
  assert (Hq : 0 <= inject_Z (Binary64.resumeHits m))
    by (unfold Qle; cbn [Qnum Qden inject_Z]; lia).
  destruct (Binary64.jdOccurrences m) as [| | |o]; cbn [fmax flt];
    try discriminate.
  - apply (@fdiv_nonneg_fin (ofZ _) 1); [exact Hq | reflexivity].
  - destruct (Qltb o 1) eqn:E;
      [apply (@fdiv_nonneg_fin (ofZ _) 1); [exact Hq | reflexivity]|].
    apply (@fdiv_nonneg_fin (ofZ _) o); [exact Hq|].
    apply Qltb_ge in E; apply Qlt_le_trans with 1; [reflexivity | exact E].
Qed.

Lemma finalScoreOf64_nonneg (c d b : double) :
  nonneg c -> nonneg d -> nonneg b -> nonneg (Binary64.finalScoreOf c d b).
Proof.
  intros Hc Hd Hb; unfold Binary64.finalScoreOf.
  apply fround_nonneg.
  apply (@fmul_nonneg_fin _ 100); [|reflexivity].
  repeat apply fadd_nonneg.
  - apply (@fmul_nonneg_fin c); [exact Hc | reflexivity].
  - apply (@fmul_nonneg_fin d); [exact Hd | reflexivity].
  - apply (@fmul_nonneg_fin b); [exact Hb | reflexivity].
Qed.

Lemma hitsOf64_nonneg (tokens : list jsstring) (kw : Binary64.KeywordInsight) :
  (0 <= Binary64.hitsOf (buildNgramCounts tokens 1) (buildNgramCounts tokens 2)
          (buildNgramCounts tokens 3) kw)%Z.
Proof.
  unfold Binary64.hitsOf.
  set (tbl := if Nat.eqb _ 1 then _ else _).
  assert (Hp : positiveCounts tbl).
  { unfold tbl; destruct (Nat.eqb _ 1); [|destruct (Nat.eqb _ 2)];
      apply buildNgramCounts_positive. }
  destruct (JsMap.get tbl (Binary64.canonical kw)) as [n|] eqn:E; [|lia].
  apply get_In in E; unfold positiveCounts in Hp; rewrite Forall_forall in Hp.
  specialize (Hp _ E); simpl in Hp; lia.
Qed.

Lemma scoreOf_range (resumeText : jsstring)
    (keywords : list Binary64.KeywordInsight) :
  (forall kw, In kw keywords ->
              nonneg (Binary64.importance kw)
              /\ isNaN (Binary64.occurrences kw) = false) ->
  aboveZero (Binary64.totalImportanceOf keywords) ->
  isFinite (Binary64.totalImportanceOf keywords) = true ->
  fle (Fin 0) (Binary64.scoreOf resumeText keywords) = true
  /\ fle (Binary64.scoreOf resumeText keywords) (Fin 100) = true.
Proof.
  intros Hkw Hpos Hfin; unfold Binary64.scoreOf.
  set (matched := filter Binary64.isMatched
                    (Binary64.keywordMatchesOf resumeText keywords)).
  assert (Hm : forall m, In m matched ->
                 nonneg (Binary64.mImportance m)
                 /\ (0 <= Binary64.resumeHits m)%Z
                 /\ isNaN (Binary64.jdOccurrences m) = false).
  { intros m Hin; apply filter_In in Hin; destruct Hin as [Hin _].
    unfold Binary64.keywordMatchesOf in Hin; apply in_map_iff in Hin.
    destruct Hin as [kw [<- Hin]]; cbn.
    destruct (Hkw _ Hin) as [H1 H2].
    split; [exact H1 | split; [|exact H2]].
    apply hitsOf64_nonneg. }
  apply fmin_cap; [|discriminate].
  apply finalScoreOf64_nonneg.
  - unfold Binary64.coverageScoreOf.
    destruct (Binary64.totalImportanceOf keywords) as [| | |b];
      try discriminate Hfin.
    apply fdiv_nonneg_fin; [|exact Hpos].
    apply fsum_nonneg, Forall_forall; intros x Hx.
    apply in_map_iff in Hx; destruct Hx as [m [<- Hin]]; apply Hm; exact Hin.
  - unfold Binary64.densityScoreOf.
    destruct (ofNat_max_positive (List.length keywords)) as [b [-> Hb]].
    apply fdiv_nonneg_fin; [|exact Hb].
    apply fsum_nonneg, Forall_forall; intros x Hx.
    apply in_map_iff in Hx; destruct Hx as [m [<- Hin]].
    apply densityTerm64_nonneg; apply Hm; exact Hin.
  - unfold Binary64.breadthScoreOf.
    destruct (ofNat_max_positive (List.length keywords)) as [b [-> Hb]].
    apply fdiv_nonneg_fin; [|exact Hb].
    unfold ofNat, ofZ, nonneg, Qle; cbn [Qnum Qden inject_Z]; lia.
Qed.

(** [x || 1] of a finite sum of numbers that are zero or more is finite
    and above zero. *)
Lemma totalImportanceOf_positive (keywords : list Binary64.KeywordInsight) :
  (forall kw, In kw keywords -> nonneg (Binary64.importance kw)) ->
  isFinite (fsum (map Binary64.importance keywords)) = true ->
  aboveZero (Binary64.totalImportanceOf keywords)
  /\ isFinite (Binary64.totalImportanceOf keywords) = true.
Proof.
  intros Hkw Hfin; unfold Binary64.totalImportanceOf.
  destruct (@forOne_positive (fsum (map Binary64.importance keywords)) Hfin)
    as [b [-> Hb]]; [|split; [exact Hb | reflexivity]].
  apply fsum_nonneg, Forall_forall; intros x Hx.
  apply in_map_iff in Hx; destruct Hx as [kw [<- Hin]]; apply Hkw; exact Hin.
Qed.

(** C2, amended.  When every importance is zero or more, the importances
    add up to a finite number and no occurrence count is not-a-number, the
    score lies between 0 and 100. *)
Theorem analyzeResume_score_bound (resumeText : jsstring)
    (keywords : list Binary64.KeywordInsight) :
  (forall kw, In kw keywords ->
              fle (Fin 0) (Binary64.importance kw) = true
              /\ isNaN (Binary64.occurrences kw) = false) ->
  isFinite (fsum (map Binary64.importance keywords)) = true ->
  fle (Fin 0) (Binary64.scoreOf resumeText keywords) = true
  /\ fle (Binary64.scoreOf resumeText keywords) (Fin 100) = true.
Proof.
  intros Hkw Hfin.
  assert (Himp : forall kw, In kw keywords ->
                            nonneg (Binary64.importance kw)).
  { intros kw Hin; apply fle0_nonneg; apply (Hkw kw Hin). }
  destruct (totalImportanceOf_positive keywords Himp Hfin) as [Hpos Htot].
  apply scoreOf_range; [|exact Hpos | exact Htot].
  intros kw Hin; split; [apply Himp; exact Hin | apply (Hkw kw Hin)].
Qed.

(** C2, as stated: the score lies between 0 and 100 whenever no importance
    is negative.  This fails: two finite importances of 1e308 add up to
    infinity, for the matched keywords as for all keywords, the coverage
    component is infinity divided by infinity, and the score is
    not-a-number.  It fails as well for a matched keyword of importance 1
    whose occurrence count is not a number: the density component is
    not-a-number then. *)
Lemma analyzeResume_score_bound_as_stated_fail :
  (forall kw, In kw hugeKeywords ->
              fle (Fin 0) (Binary64.importance kw) = true
              /\ isFinite (Binary64.importance kw) = true)
  /\ Binary64.scoreOf (str "React and Python") hugeKeywords = NaN
  /\ ~ (fle (Fin 0) (Binary64.scoreOf (str "React and Python") hugeKeywords)
        = true
        /\ fle (Binary64.scoreOf (str "React and Python") hugeKeywords)
             (Fin 100) = true)
  /\ fle (Fin 0) (Binary64.importance kwNoCount) = true
  /\ Binary64.scoreOf (str "React and Python") [kwNoCount] = NaN.
Proof.
  split; [intros kw [<-|[<-|[]]]; split; reflexivity|].
  split; [vm_compute; reflexivity|].
  split; [intros [H _]; vm_compute in H; discriminate H|].
  split; [reflexivity | vm_compute; reflexivity].
Qed.

(** ** A resume that names every keyword *)

Lemma fsum_ones (l : list double) :
  Forall isOne l -> (Z.of_nat (List.length l) < 2 ^ 53)%Z ->
  exists q, fsum l = Fin q /\ q == inject_Z (Z.of_nat (List.length l)).
Proof.
  induction l as [|x l IH] using rev_ind; intros Hall Hlen.
  - exists 0; split; reflexivity.
  - apply Forall_app in Hall; destruct Hall as [Hl Hx].
    rewrite length_app in Hlen; cbn [List.length] in Hlen.
    destruct IH as [q [Eq Hq]]; [exact Hl | lia|].
    inversion Hx as [|? ? [b [Eb Hb]] _]; subst.
    rewrite fsum_snoc, Eq; cbn [fadd].
    assert (Hs : q + b == inject_Z (Z.of_nat (List.length (l ++ [Fin b])))).
    { rewrite length_app; cbn [List.length].
      rewrite Nat2Z.inj_add, inject_Z_plus, Hq, Hb; reflexivity. }
    rewrite (round64_comp Hs), round64_Z;
      [|rewrite length_app; cbn [List.length]; lia].
    eexists; split; reflexivity.
Qed.

Lemma densityTerm64_one (m : Binary64.KeywordMatch) :
  fle (fmax (Binary64.jdOccurrences m) (Fin 1)) (ofZ (Binary64.resumeHits m))
  = true ->
  isOne (Binary64.densityTerm m) /\ (1 <= Binary64.resumeHits m)%Z.
Proof.
  intros H; unfold Binary64.densityTerm.
  set (h := Binary64.resumeHits m) in *.
  assert (Hc : exists c, fmax (Binary64.jdOccurrences m) (Fin 1) = Fin c
                         /\ 1 <= c /\ c <= inject_Z h).
  { destruct (Binary64.jdOccurrences m) as [| | |o]; cbn in H |- *;
      try discriminate.
    - exists 1; repeat split; [discriminate | apply Qle_bool_iff; exact H].
    - unfold fmax, flt in *. destruct (Qltb o 1) eqn:E.
      + exists 1; repeat split; [discriminate | apply Qle_bool_iff; exact H].
      + exists o; repeat split; [apply Qltb_ge; exact E | apply Qle_bool_iff; exact H]. }
  destruct Hc as [c [Ec [Hc1 Hch]]]; rewrite Ec.
  assert (Hh : (1 <= h)%Z).
  { assert (H1 : 1 <= inject_Z h) by (eapply Qle_trans; eassumption).
    change 1 with (inject_Z 1) in H1; rewrite <- Zle_Qle in H1; exact H1. }
  split; [|exact Hh].
  assert (Hc0 : 0 < c) by (eapply Qlt_le_trans; [|exact Hc1]; reflexivity).
  unfold ofZ; cbn [fdiv]; rewrite (proj1 (Qgt_alt _ _) Hc0).
  assert (Hr : 1 <= inject_Z h / c).
  { apply Qle_shift_div_l; [exact Hc0 | rewrite Qmult_1_l; exact Hch]. }
  pose proof (@round64_above 1 (inject_Z h / c) eq_refl ltac:(discriminate) Hr) as Ha.
  destruct (round64 (inject_Z h / c)) as [| | |r]; try contradiction.
  - exists 1; split; reflexivity.
  - unfold fmin, flt; destruct (Qltb 1 r) eqn:E.
    + exists 1; split; reflexivity.
    + exists r; split; [reflexivity|].
      apply Qltb_ge in E; apply Qle_antisym; assumption.
Qed.

Lemma fdiv_self (s : Q) : 0 < s -> fdiv (Fin s) (Fin s) = Fin 1.
Proof.
  intros Hs; cbn [fdiv]; rewrite (proj1 (Qgt_alt _ _) Hs).
  assert (E : s / s == 1)
    by (apply Qmult_inv_r; intros E; rewrite E in Hs; discriminate).
  rewrite (round64_comp E); reflexivity.
Qed.

Lemma all_hits_partition64 (l : list Binary64.KeywordMatch) :
  Forall (fun m => (1 <= Binary64.resumeHits m)%Z) l ->
  filter Binary64.isMatched l = l /\ filter Binary64.isMissing l = [].
Proof.
  induction 1 as [|m l Hm _ [IH1 IH2]]; cbn [filter]; [split; reflexivity|].
  unfold Binary64.isMatched at 1, Binary64.isMissing at 1.
  destruct (Z.ltb_spec 0 (Binary64.resumeHits m)); [|lia].
  destruct (Z.eqb_spec (Binary64.resumeHits m) 0); [lia|].
  rewrite IH1, IH2; split; reflexivity.
Qed.

(** X14. When the keyword list has fewer than [2 ^ 32] entries, as every
    array has, every importance is a number between 0 and 1, their total is
    above 0, and the resume mentions every keyword at least as often as
    the job description does and at least once, no keyword is missing and
    the score is the number 100: coverage, density and breadth are 1 each,
    and the rounding of 99.99999999999999 gives 100. *)
Theorem analyzeResume_full_match (resumeText : jsstring)
    (keywords : list Binary64.KeywordInsight) :
  (Z.of_nat (List.length keywords) < 2 ^ 32)%Z ->
  (forall kw, In kw keywords -> boundedBy 1 (Binary64.importance kw)) ->
  aboveZero (fsum (map Binary64.importance keywords)) ->
  (forall kw, In kw keywords ->
     fle (fmax (Binary64.occurrences kw) (Fin 1)) (ofZ (hitsIn resumeText kw))
     = true) ->
  filter Binary64.isMissing (Binary64.keywordMatchesOf resumeText keywords) = []
  /\ Binary64.scoreOf resumeText keywords = Fin 100.
Proof.
  intros Hlen Himp Hsum Hhits.
  set (matches := Binary64.keywordMatchesOf resumeText keywords).
  assert (Hone : Forall (fun m => isOne (Binary64.densityTerm m)
                                  /\ (1 <= Binary64.resumeHits m)%Z) matches).
  { apply Forall_forall; intros m Hm; unfold matches, Binary64.keywordMatchesOf in Hm.
    apply in_map_iff in Hm; destruct Hm as [kw [<- Hkw]].
    apply densityTerm64_one; exact (Hhits kw Hkw). }
  assert (Hall : Forall (fun m => (1 <= Binary64.resumeHits m)%Z) matches)
    by (apply Forall_impl with (2 := Hone); intros m [_ H]; exact H).
  destruct (all_hits_partition64 Hall) as [E1 E2].
  split; [exact E2|].
  unfold Binary64.scoreOf; fold matches; rewrite E1.
  assert (Hml : List.length matches = List.length keywords)
    by (unfold matches, Binary64.keywordMatchesOf; apply length_map).
  assert (Hn : (1 <= List.length keywords)%nat).
  { destruct keywords; [cbn in Hsum; exfalso; revert Hsum; apply Qlt_irrefl
                       | cbn; lia]. }
  assert (Hc : Binary64.coverageScoreOf keywords matches = Fin 1).
  { unfold Binary64.coverageScoreOf, Binary64.totalImportanceOf.
    assert (Em : map Binary64.mImportance matches = map Binary64.importance keywords).
    { unfold matches, Binary64.keywordMatchesOf; rewrite map_map; apply map_ext.
      intros kw; reflexivity. }
    rewrite Em.
    assert (Hf : isFinite (fsum (map Binary64.importance keywords)) = true).
    { apply sum_unit_finite, Forall_forall; intros x Hx.
      apply in_map_iff in Hx; destruct Hx as [kw [<- Hkw]]; exact (Himp kw Hkw). }
    destruct (fsum (map Binary64.importance keywords)) as [| | |s];
      try discriminate.
    cbn in Hsum; unfold forOne.
    destruct (Qeq_bool s 0) eqn:E;
      [apply Qeq_bool_iff in E; rewrite E in Hsum; discriminate|].
    apply fdiv_self; exact Hsum. }
  assert (Hq : fdiv (ofNat (List.length matches))
                 (ofNat (Nat.max (List.length keywords) 1)) = Fin 1).
  { rewrite Hml; replace (Nat.max (List.length keywords) 1)
      with (List.length keywords) by lia.
    apply fdiv_self; unfold Qlt; cbn; lia. }
  assert (Hd : Binary64.densityScoreOf keywords matches = Fin 1).
  { unfold Binary64.densityScoreOf.
    destruct (@fsum_ones (map Binary64.densityTerm matches)) as [q [Eq Hq']].
    - apply Forall_forall; intros x Hx; apply in_map_iff in Hx.
      destruct Hx as [m [<- Hm]]; rewrite Forall_forall in Hone.
      exact (proj1 (Hone m Hm)).
    - rewrite length_map, Hml.
      assert (2 ^ 32 < 2 ^ 53)%Z by reflexivity; lia.
    - rewrite Eq; replace (Nat.max (List.length keywords) 1)
        with (List.length keywords) by lia.
      rewrite length_map, Hml in Hq'.
      unfold ofNat, ofZ; cbn [fdiv].
      assert (Hp : 0 < inject_Z (Z.of_nat (List.length keywords)))
        by (unfold Qlt; cbn; lia).
      rewrite (proj1 (Qgt_alt _ _) Hp).
      assert (E : q / inject_Z (Z.of_nat (List.length keywords)) == 1).
      { rewrite Hq'; apply Qmult_inv_r; intros E; rewrite E in Hp; discriminate. }
      rewrite (round64_comp E); reflexivity. }
  assert (Hb : Binary64.breadthScoreOf keywords matches = Fin 1) by exact Hq.
  rewrite Hc, Hd, Hb; reflexivity.
Qed.

(** ** Extraction and scoring together *)

Lemma statsRange_values (m : JsMap.t Binary64.KeywordStats)
    (stat : Binary64.KeywordStats) :
  statsRange m -> In stat (JsMap.values m) ->
  weightRange (Binary64.weightedOccurrences stat).
Proof.
  intros H Hin; unfold JsMap.values in Hin; apply in_map_iff in Hin.
  destruct Hin as [kv [<- Hin]]; unfold statsRange in H.
  rewrite Forall_forall in H; exact (H _ Hin).
Qed.

Lemma extractKeywords64_unit (text : jsstring) (limit : Z)
    (kw : Binary64.KeywordInsight) :
  In kw (Binary64.extractKeywords text limit) ->
  boundedBy 1 (Binary64.importance kw)
  /\ isNaN (Binary64.occurrences kw) = false.
Proof.
  intros H.
  destruct (extractKeywords64_from_stats _ _ _ H)
    as [s0 [rest [stat [E [Hs ->]]]]].
  cbn [Binary64.importance Binary64.occurrences Binary64.toInsight].
  split; [|reflexivity].
  pose proof (collectStats_inv64 text) as Hinv.
  pose proof (collectStats_range text) as Hrange.
  assert (Hgood : Forall (fun s => good (Binary64.weightedOccurrences s))
                    (s0 :: rest)).
  { apply Forall_forall; intros s Hs'.
    rewrite <- E in Hs'; apply (@stats64_entry _ _ Hinv Hs'). }
  destruct (mathMax64_isMaxWeighted Hgood) as [[s [Hin HM]] Hall].
  apply importanceOf64_unit.
  - rewrite <- HM; apply (@statsRange_values _ _ Hrange); rewrite E;
      exact Hin.
  - apply (@statsRange_values _ _ Hrange); rewrite E; exact Hs.
  - apply Hall; exact Hs.
Qed.

(** X27. In the arithmetic of the number format, too, the importance of
    every keyword returned by [extractKeywords] lies between 0 and 1, and
    it is a finite number; the occurrence count is a number. *)
Theorem extractKeywords_importance_unit64 (text : jsstring) (limit : Z)
    (kw : Binary64.KeywordInsight) :
  In kw (Binary64.extractKeywords text limit) ->
  fle (Fin 0) (Binary64.importance kw) = true
  /\ fle (Binary64.importance kw) (Fin 1) = true
  /\ isFinite (Binary64.importance kw) = true
  /\ isNaN (Binary64.occurrences kw) = false.
Proof.
  intros H; destruct (extractKeywords64_unit _ _ _ H) as [Hb Ho].
  destruct (boundedBy_fle Hb) as [H0 H1].
  destruct Hb as [q [Eq _]].
  repeat split; try assumption; rewrite Eq; reflexivity.
Qed.

(** X28. Extraction and scoring fit together: for the keywords that
    [extractKeywords] returns, whatever the job description, the limit and
    the resume, the score lies between 0 and 100. *)
Theorem extract_then_score_range (jd resume : jsstring) (limit : Z) :
  fle (Fin 0) (Binary64.scoreOf resume (Binary64.extractKeywords jd limit))
  = true
  /\ fle (Binary64.scoreOf resume (Binary64.extractKeywords jd limit))
       (Fin 100) = true.
Proof.
  assert (Himp : forall kw, In kw (Binary64.extractKeywords jd limit) ->
                            nonneg (Binary64.importance kw)).
  { intros kw Hkw; destruct (extractKeywords64_unit _ _ _ Hkw) as [Hb _].
    apply fle0_nonneg, (boundedBy_fle Hb). }
  assert (Hfin : isFinite
                   (fsum (map Binary64.importance
                            (Binary64.extractKeywords jd limit))) = true).
  { apply sum_unit_finite, Forall_forall; intros x Hx.
    apply in_map_iff in Hx; destruct Hx as [kw [<- Hkw]].
    apply (extractKeywords64_unit _ _ _ Hkw). }
  destruct (totalImportanceOf_positive _ Himp Hfin) as [Hpos Htot].
  apply scoreOf_range; [|exact Hpos | exact Htot].
  intros kw Hkw; split; [apply Himp; exact Hkw|].
  apply (extractKeywords64_unit _ _ _ Hkw).
Qed.

(** ** Instances *)

(** The importance of "testing" in [jdThreeLines] is the number 0.612: the
    quotient 0.7 / 0.8 is just below 0.875 in binary64 and its product with
    0.7 just below 0.6125, where exact arithmetic gives 0.6125, which
    rounds to 0.613. *)
Example extractKeywords_rounding :
  keywordOf (str "testing") jdThreeLines = Some kwTesting
  /\ Binary64.importance kwTesting = round64 (612 # 1000)
  /\ option_map importance
       (find (fun k => streqb (canonical k) (str "testing"))
          (extractKeywords jdThreeLines defaultLimit))
     = Some (613 # 1000).
Proof. vm_compute; repeat split. Qed.

(** In [jdTwoTiers] the preferred tier wins: 0.8 + 0.8 + 0.8 is
    2.4000000000000004 in binary64, above 1.2 + 1.2 = 2.4; in exact
    arithmetic the two sums tie and the first tier, core, wins. *)
Example getDominantSection_rounding :
  map (fun k => (Binary64.section k, Binary64.importance k))
    (Binary64.extractKeywords jdTwoTiers defaultLimit)
  = [(preferred, d0_8)]
  /\ map section (extractKeywords jdTwoTiers defaultLimit) = [core]
  /\ fsum [d0_8; d0_8; d0_8] = round64 (24000000000000004 # 10000000000000000)
  /\ fsum [d1_2; d1_2] = round64 (24 # 10)
  /\ flt (fsum [d1_2; d1_2]) (fsum [d0_8; d0_8; d0_8]) = true.
Proof. vm_compute; repeat split. Qed.

(** The score of a resume that names the only keyword is the number 100:
    the weighted sum 0.6 + 0.3 + 0.1 is 0.9999999999999999 in binary64, and
    a hundred times it, 99.99999999999999, rounds to 100. *)
Example analyzeResume_full_score_rounding :
  Binary64.scoreOf (str "React and more React") [kwReact64] = Fin 100
  /\ Binary64.finalScoreOf (Fin 1) (Fin 1) (Fin 1) = Fin 100
  /\ fadd (fadd d0_6 d0_3) d0_1 = round64 (9999999999999999 # 10000000000000000)
  /\ fmul (fadd (fadd d0_6 d0_3) d0_1) (Fin 100)
     = round64 (9999999999999999 # 100000000000000).
Proof. vm_compute; repeat split. Qed.

Lemma extractKeywords_importance_witness :
  In kwTesting (Binary64.extractKeywords jdThreeLines defaultLimit)
  /\ exists stat M,
       In stat (JsMap.values (Binary64.collectStats jdThreeLines))
       /\ isMaxWeighted64 M (JsMap.values (Binary64.collectStats jdThreeLines))
       /\ Binary64.canonical kwTesting = Binary64.stCanonical stat
       /\ Binary64.source kwTesting = Binary64.stSource stat
       /\ Binary64.weightedOccurrences stat
          = weightRecorded (Binary64.canonical kwTesting)
              (recordings jdThreeLines)
       /\ (forall tier,
             tierWeight64 (Binary64.sectionWeights stat) tier
             = tierWeightRecorded (Binary64.canonical kwTesting) tier
                 (recordings jdThreeLines))
       /\ (forall tier,
             fle (tierWeight64 (Binary64.sectionWeights stat) tier)
               (tierWeight64 (Binary64.sectionWeights stat)
                  (Binary64.section kwTesting))
             = true)
       /\ Binary64.importance kwTesting
          = ffixed3
              (fmin
                 (fmul
                    (fmul (fdiv (Binary64.weightedOccurrences stat) M)
                       match Binary64.section kwTesting with
                       | core => d1_2
                       | responsibility => Fin 1
                       | preferred => d0_8
                       | general => d0_7
                       end)
                    match Binary64.source kwTesting with
                    | phrase => d1_05
                    | term => Fin 1
                    end)
                 (Fin 1)).
Proof.
  assert (H : In kwTesting (Binary64.extractKeywords jdThreeLines defaultLimit))
    by (vm_compute; right; left; reflexivity).
  split; [exact H|].
  exact (@extractKeywords_importance jdThreeLines defaultLimit kwTesting H).
Defined.

Lemma analyzeResume_score_bound_witness :
  (forall kw, In kw [kwReact64] ->
              fle (Fin 0) (Binary64.importance kw) = true
              /\ isNaN (Binary64.occurrences kw) = false)
  /\ isFinite (fsum (map Binary64.importance [kwReact64])) = true
  /\ fle (Fin 0)
       (Binary64.scoreOf
          (str "I have 5 years of React and React Native experience")
          [kwReact64]) = true
  /\ fle (Binary64.scoreOf
            (str "I have 5 years of React and React Native experience")
            [kwReact64]) (Fin 100) = true.
Proof.
  assert (H1 : forall kw, In kw [kwReact64] ->
                 fle (Fin 0) (Binary64.importance kw) = true
                 /\ isNaN (Binary64.occurrences kw) = false)
    by (intros kw [<-|[]]; split; reflexivity).
  assert (H2 : isFinite (fsum (map Binary64.importance [kwReact64])) = true)
    by reflexivity.
  split; [exact H1 | split; [exact H2|]].
  exact (@analyzeResume_score_bound
           (str "I have 5 years of React and React Native experience")
           [kwReact64] H1 H2).
Defined.

Lemma analyzeResume_full_match_witness :
  (Z.of_nat (List.length [kwReact64]) < 2 ^ 32)%Z
  /\ (forall kw, In kw [kwReact64] -> boundedBy 1 (Binary64.importance kw))
  /\ aboveZero (fsum (map Binary64.importance [kwReact64]))
  /\ (forall kw, In kw [kwReact64] ->
        fle (fmax (Binary64.occurrences kw) (Fin 1))
          (ofZ (hitsIn (str "React and more React") kw)) = true)
  /\ filter Binary64.isMissing
       (Binary64.keywordMatchesOf (str "React and more React") [kwReact64])
     = []
  /\ Binary64.scoreOf (str "React and more React") [kwReact64] = Fin 100.
Proof.
  assert (H1 : (Z.of_nat (List.length [kwReact64]) < 2 ^ 32)%Z)
    by reflexivity.
  assert (H2 : forall kw, In kw [kwReact64] ->
                 boundedBy 1 (Binary64.importance kw)).
  { intros kw [<-|[]]; exists 1; repeat split; discriminate. }
  assert (H3 : aboveZero (fsum (map Binary64.importance [kwReact64])))
    by reflexivity.
  assert (H4 : forall kw, In kw [kwReact64] ->
                 fle (fmax (Binary64.occurrences kw) (Fin 1))
                   (ofZ (hitsIn (str "React and more React") kw)) = true)
    by (intros kw [<-|[]]; vm_compute; reflexivity).
  split; [exact H1 | split; [exact H2 | split; [exact H3 | split; [exact H4|]]]].
  exact (@analyzeResume_full_match (str "React and more React") [kwReact64]
           H1 H2 H3 H4).
Defined.

Lemma extractKeywords_importance_unit64_witness :
  In kwTesting (Binary64.extractKeywords jdThreeLines defaultLimit)
  /\ fle (Fin 0) (Binary64.importance kwTesting) = true
  /\ fle (Binary64.importance kwTesting) (Fin 1) = true.
Proof.
  assert (H : In kwTesting (Binary64.extractKeywords jdThreeLines defaultLimit))
    by (vm_compute; right; left; reflexivity).
  destruct (@extractKeywords_importance_unit64 jdThreeLines defaultLimit
              kwTesting H) as [H0 [H1 _]].
  split; [exact H | split; [exact H0 | exact H1]].
Defined.

(* ================================================================== *)
(** * The callers on binary64 numbers *)

(** ** Capability cards *)

Lemma allBuckets64_set (P : Binary64.Bucket -> Prop) (tr : Binary64.Tracker)
    (id : CapabilityId) (b : Binary64.Bucket) :
  allBuckets64 P tr -> P b -> allBuckets64 P (Binary64.setBucket tr id b).
Proof.
  intros [H1 [H2 H3]] Hb; destruct id; unfold allBuckets64; cbn; tauto.
Qed.

Lemma allBuckets64_get (P : Binary64.Bucket -> Prop) (tr : Binary64.Tracker)
    (id : CapabilityId) :
  allBuckets64 P tr -> P (Binary64.bucketOf tr id).
Proof. intros [H1 [H2 H3]]; destruct id; assumption. Qed.

Lemma round64_2_53 :
  round64 (inject_Z (2 ^ 53) + 1) = Fin (inject_Z (2 ^ 53)).
Proof. vm_compute; reflexivity. Qed.

(** Adding an importance to the total and to the matched weight. *)
Lemma trackMatched_numbers (tr : Binary64.Tracker) (m : Binary64.KeywordMatch) :
  boundedBy 1 (Binary64.mImportance m) ->
  allBuckets64 bucketNumbers tr ->
  allBuckets64 bucketNumbers (Binary64.trackMatched tr m).
Proof.
  intros [i [Ei [Hi0 Hi1]]] Htr; unfold Binary64.trackMatched.
  apply allBuckets64_set; [exact Htr|].
  destruct (allBuckets64_get (Binary64.mapMatchToCapability m) Htr)
    as [t [w [Et [Ew [Hw0 [Hwt [Ht Hrep]]]]]]].
  unfold bucketNumbers; cbn [Binary64.bTotal Binary64.bMatched].
  rewrite Et, Ew, Ei; cbn [fadd].
  assert (Ht0 : 0 <= t) by (eapply Qle_trans; eassumption).
  assert (Hb : boundedBy (inject_Z (2 ^ 53)) (round64 (t + i))).
  { apply (@fadd_bounded (inject_Z (2 ^ 53)) 1 (Fin t) (Fin i) round64_2_53);
      [exists t | exists i]; repeat split; assumption. }
  destruct Hb as [t' [Et' [Ht'0 Ht'1]]].
  assert (Hm : fle (round64 (w + i)) (round64 (t + i)) = true).
  { apply round64_mono; [|apply Qplus_le_l; exact Hwt].
    setoid_replace 0 with (0 + 0) by ring; apply Qplus_le_compat; assumption. }
  assert (Hn : nonneg (round64 (w + i))).
  { apply round64_nonneg.
    setoid_replace 0 with (0 + 0) by ring; apply Qplus_le_compat; assumption. }
  pose proof (@round64_idem _ _ Et') as Hrep'.
  rewrite Et' in Hm |- *.
  destruct (round64 (w + i)) as [| | |w']; try discriminate; try contradiction.
  exists t', w'; repeat split; try assumption.
  apply Qle_bool_iff; exact Hm.
Qed.

(** Adding an importance to the total only. *)
Lemma trackMissing_numbers (tr : Binary64.Tracker) (m : Binary64.KeywordMatch) :
  boundedBy 1 (Binary64.mImportance m) ->
  allBuckets64 bucketNumbers tr ->
  allBuckets64 bucketNumbers (Binary64.trackMissing tr m).
Proof.
  intros [i [Ei [Hi0 Hi1]]] Htr; unfold Binary64.trackMissing.
  apply allBuckets64_set; [exact Htr|].
  destruct (allBuckets64_get (Binary64.mapMatchToCapability m) Htr)
    as [t [w [Et [Ew [Hw0 [Hwt [Ht Hrep]]]]]]].
  unfold bucketNumbers; cbn [Binary64.bTotal Binary64.bMatched].
  rewrite Et, Ew, Ei; cbn [fadd].
  assert (Ht0 : 0 <= t) by (eapply Qle_trans; eassumption).
  assert (Hb : boundedBy (inject_Z (2 ^ 53)) (round64 (t + i))).
  { apply (@fadd_bounded (inject_Z (2 ^ 53)) 1 (Fin t) (Fin i) round64_2_53);
      [exists t | exists i]; repeat split; assumption. }
  destruct Hb as [t' [Et' [Ht'0 Ht'1]]].
  assert (Hle : t <= t + i).
  { setoid_replace t with (t + 0) at 1 by ring; apply Qplus_le_r; exact Hi0. }
  pose proof (round64_above Hrep Ht0 Hle) as Ha; rewrite Et' in Ha.
  pose proof (@round64_idem _ _ Et') as Hrep'.
  rewrite Et'; exists t', w; repeat split; try assumption.
  eapply Qle_trans; eassumption.
Qed.

Lemma trackAnalysis_numbers (matched missing : list Binary64.KeywordMatch) :
  (forall m, In m matched -> boundedBy 1 (Binary64.mImportance m)) ->
  (forall m, In m missing -> boundedBy 1 (Binary64.mImportance m)) ->
  allBuckets64 bucketNumbers (Binary64.trackAnalysis matched missing).
Proof.
  intros Hmat Hmis; unfold Binary64.trackAnalysis.
  apply fold_left_inv_in; [|apply fold_left_inv_in].
  - intros tr m Hm Htr; apply trackMissing_numbers;
      [apply Hmis; exact Hm | exact Htr].
  - intros tr m Hm Htr; apply trackMatched_numbers;
      [apply Hmat; exact Hm | exact Htr].
  - assert (H : bucketNumbers Binary64.emptyBucket).
    { exists 0, 0; repeat split; try reflexivity; discriminate. }
    unfold allBuckets64; cbn; tauto.
Qed.

Lemma fround_range (x : double) (c : Z) :
  boundedBy (inject_Z c) x ->
  fle (Fin 0) (fround x) = true /\ fle (fround x) (Fin (inject_Z c)) = true.
Proof.
  intros [q [-> [H0 H1]]]; cbn [fround ofZ fle].
  split; apply Qle_bool_iff.
  - change 0 with (inject_Z 0); rewrite <- Zle_Qle.
    change 0%Z with (Qfloor 0); apply Qfloor_resp_le; lra.
  - rewrite <- Zle_Qle.
    assert (H : inject_Z (Qfloor (q + (1 # 2))) < inject_Z (c + 1)).
    { eapply Qle_lt_trans; [apply Qfloor_le|].
      rewrite inject_Z_plus; change (inject_Z 1) with 1; lra. }
    rewrite <- Zlt_Qlt in H; lia.
Qed.

Lemma bucketScore_range (b : Binary64.Bucket) :
  bucketNumbers b -> scoreInRange (Binary64.bucketScore b).
Proof.
  intros [t [w [Et [Ew [Hw0 [Hwt [Ht Hrep]]]]]]].
  unfold Binary64.bucketScore, scoreInRange; rewrite Et, Ew; cbn [ftruthy].
  destruct (Qeq_bool t 0) eqn:E; cbn [negb]; [split; reflexivity|].
  apply Qeq_bool_neq in E.
  assert (Ht0 : 0 < t).
  { destruct (Qle_lt_or_eq 0 t) as [Hlt|Heq];
      [eapply Qle_trans; eassumption | exact Hlt|].
    exfalso; apply E; symmetry; exact Heq. }
  cbn [fdiv]; rewrite (proj1 (Qgt_alt _ _) Ht0).
  assert (Hr : boundedBy 1 (round64 (w / t))).
  { apply round64_bounded; [reflexivity | |].
    - apply Qle_shift_div_l; [exact Ht0 | rewrite Qmult_0_l; exact Hw0].
    - apply Qle_shift_div_r; [exact Ht0 | rewrite Qmult_1_l; exact Hwt]. }
  destruct Hr as [r [Er [Hr0 Hr1]]]; rewrite Er; cbn [fmul].
  apply (@fround_range _ 100).
  apply round64_bounded; [reflexivity | |].
  - apply Qmult_le_0_compat; [exact Hr0 | discriminate].
  - change (inject_Z 100) with (1 * 100).
    apply Qmult_le_compat_r; [exact Hr1 | discriminate].
Qed.

(** X21. When the importance of every matched and missing keyword is a
    number between 0 and 1, as [extractKeywords] returns them, the score
    of every card lies between 0 and 100. *)
Theorem buildFallbackCapabilities_scores
    (matched missing : list Binary64.KeywordMatch) :
  (forall m, In m matched -> boundedBy 1 (Binary64.mImportance m)) ->
  (forall m, In m missing -> boundedBy 1 (Binary64.mImportance m)) ->
  Forall (fun c => scoreInRange (Binary64.capScore c))
    (Binary64.buildFallbackCapabilities matched missing).
Proof.
  intros Hmat Hmis.
  unfold Binary64.buildFallbackCapabilities; apply Forall_forall; intros c Hc.
  apply in_map_iff in Hc; destruct Hc as [meta [<- _]].
  cbn [Binary64.capScore]; apply bucketScore_range.
  exact (allBuckets64_get (fst meta) (trackAnalysis_numbers _ _ Hmat Hmis)).
Qed.

Lemma buildFallbackCapabilities_scores_witness :
  (forall m, In m [matchReact64] -> boundedBy 1 (Binary64.mImportance m))
  /\ (forall m, In m [matchTeam64] -> boundedBy 1 (Binary64.mImportance m))
  /\ Forall (fun c => scoreInRange (Binary64.capScore c))
       (Binary64.buildFallbackCapabilities [matchReact64] [matchTeam64]).
Proof.
  assert (H1 : forall m, In m [matchReact64] ->
                 boundedBy 1 (Binary64.mImportance m)).
  { intros m [<-|[]]; eexists; split; [reflexivity|].
    split; apply Qle_bool_iff; reflexivity. }
  assert (H2 : forall m, In m [matchTeam64] ->
                 boundedBy 1 (Binary64.mImportance m)).
  { intros m [<-|[]]; eexists; split; [reflexivity|].
    split; apply Qle_bool_iff; reflexivity. }
  split; [exact H1 | split; [exact H2|]].
  exact (@buildFallbackCapabilities_scores [matchReact64] [matchTeam64] H1 H2).
Defined.

(** ** Blending *)

Lemma capEqb_eq (a b : CapabilityId) : capEqb a b = true <-> a = b.
Proof. destruct a, b; cbn; split; congruence. Qed.

Lemma capGet_In (m : Binary64.CapabilityMap) (id : CapabilityId)
    (c : Binary64.CapabilityInsight) :
  Binary64.capGet m id = Some c -> In (id, c) m.
Proof.
  induction m as [|[id' c'] m IH]; cbn [Binary64.capGet]; [discriminate|].
  destruct (capEqb id' id) eqn:E.
  - apply capEqb_eq in E; intros H; inversion H; subst; left; reflexivity.
  - intros H; right; exact (IH H).
Qed.

Lemma capGet_capSet (m : Binary64.CapabilityMap) (id id2 : CapabilityId)
    (c : Binary64.CapabilityInsight) :
  Binary64.capGet (Binary64.capSet m id c) id2
  = if capEqb id id2 then Some c else Binary64.capGet m id2.
Proof.
  induction m as [|[id' c'] m IH]; cbn [Binary64.capSet Binary64.capGet];
    [reflexivity|].
  destruct (capEqb id' id) eqn:E; cbn [Binary64.capGet].
  - apply capEqb_eq in E; subst id'; destruct (capEqb id id2); reflexivity.
  - rewrite IH; destruct (capEqb id' id2) eqn:E2; [|reflexivity].
    destruct (capEqb id id2) eqn:E3; [|reflexivity].
    apply capEqb_eq in E2, E3; subst.
    assert (capEqb id2 id2 = true) by (apply capEqb_eq; reflexivity).
    congruence.
Qed.

Lemma capSet_ok (ids : list CapabilityId) (m : Binary64.CapabilityMap)
    (id : CapabilityId) (c : Binary64.CapabilityInsight) :
  mapOk ids m -> Binary64.capId c = id -> cardInRange c ->
  mapOk ids (Binary64.capSet m id c).
Proof.
  intros [Hall Hkeys] Hid Hc; split.
  - clear Hkeys; induction Hall as [|[id' c'] m Hx Hm IH];
      cbn [Binary64.capSet].
    + constructor; [split; assumption | constructor].
    + destruct (capEqb id' id) eqn:E.
      * apply capEqb_eq in E; subst id'; constructor; [split; assumption|].
        assumption.
      * constructor; assumption.
  - intros k Hk; rewrite capGet_capSet.
    destruct (capEqb id k); [discriminate | apply Hkeys; exact Hk].
Qed.

Lemma mapOk_get (ids : list CapabilityId) (m : Binary64.CapabilityMap)
    (id : CapabilityId) (c : Binary64.CapabilityInsight) :
  mapOk ids m -> Binary64.capGet m id = Some c ->
  Binary64.capId c = id /\ cardInRange c.
Proof.
  intros [Hall _] H; apply capGet_In in H.
  rewrite Forall_forall in Hall; exact (Hall _ H).
Qed.

Lemma appendBullet_ok (ids : list CapabilityId) (bucket : CapabilityId)
    (type : Binary64.BulletType) (text : jsstring)
    (state : Binary64.CapabilityMap * Binary64.ThemeStats) :
  mapOk ids (fst state) ->
  mapOk ids (fst (Binary64.appendBullet bucket type text state)).
Proof.
  destruct state as [m stats]; cbn [fst]; intros Hm.
  unfold Binary64.appendBullet.
  destruct (Binary64.capGet m bucket) as [entry|] eqn:E; [|exact Hm].
  destruct (mapOk_get _ Hm E) as [Hid [Hs [H2 H3]]].
  cbn [fst]; apply capSet_ok; [exact Hm | destruct type; exact Hid|].
  destruct type; unfold cardInRange;
    cbn [Binary64.capScore Binary64.strengths Binary64.gaps].
  - split; [exact Hs | split; [|exact H3]].
    destruct (negb _); cbn [andb]; [|exact H2].
    destruct (Nat.ltb_spec (List.length (Binary64.strengths entry)) 4);
      [rewrite length_app; cbn; lia | exact H2].
  - split; [exact Hs | split; [exact H2|]].
    destruct (negb _); cbn [andb]; [|exact H3].
    destruct (Nat.ltb_spec (List.length (Binary64.gaps entry)) 4);
      [rewrite length_app; cbn; lia | exact H3].
Qed.

Lemma appendThemes_ok (ids : list CapabilityId) (type : Binary64.BulletType)
    (themes : option (list jsstring))
    (state : Binary64.CapabilityMap * Binary64.ThemeStats) :
  mapOk ids (fst state) ->
  mapOk ids (fst (Binary64.appendThemes type themes state)).
Proof.
  intros H; unfold Binary64.appendThemes.
  destruct themes as [items|]; [|exact H].
  apply (fold_left_inv (fun st => mapOk ids (fst st))); [|exact H].
  intros st item Hst; destruct (truthy item); [|exact Hst].
  apply appendBullet_ok; exact Hst.
Qed.

Lemma round64_number (q : Q) : isNaN (round64 q) = false.
Proof.
  unfold round64, roundPos.
  destruct (Qcompare q 0); [reflexivity | |];
    destruct (Qle_bool _ _); reflexivity.
Qed.

Lemma fmul_number (x y : double) :
  isFinite x = true -> isFinite y = true -> isNaN (fmul x y) = false.
Proof.
  destruct x, y; try discriminate; intros _ _; apply round64_number.
Qed.

Lemma fadd_number (x y : double) :
  isNaN x = false -> isFinite y = true -> isNaN (fadd x y) = false.
Proof.
  destruct x, y; try discriminate; intros _ _; try reflexivity.
  apply round64_number.
Qed.

Lemma fmax_number (x y : double) :
  isNaN x = false -> isNaN y = false -> isNaN (fmax x y) = false.
Proof.
  intros Hx Hy; destruct (@fmax_spec _ _ Hx Hy) as [[E|E] _]; rewrite E;
    assumption.
Qed.

Lemma fround_number (x : double) : isNaN x = false -> isNaN (fround x) = false.
Proof. destruct x; intros H; try discriminate; reflexivity. Qed.

(** [Math.min(Math.max(x, 0), 100)] is between 0 and 100 unless [x] is
    not-a-number. *)
Lemma clampScore_range (x : double) :
  isNaN x = false -> scoreInRange (Binary64.clampScore x).
Proof.
  unfold Binary64.clampScore, scoreInRange.
  destruct x as [| | |q]; intros H; try discriminate.
  - split; reflexivity.
  - split; reflexivity.
  - unfold fmax, flt; destruct (Qltb q 0) eqn:E; [split; reflexivity|].
    apply Qltb_ge in E.
    unfold fmin, flt; destruct (Qltb 100 q) eqn:E2; [split; reflexivity|].
    apply Qltb_ge in E2; cbn [fle]; split; apply Qle_bool_iff; assumption.
Qed.

(** The share of the strengths among the themes of a bucket. *)
Lemma ratio_unit (s g : nat) :
  boundedBy 1 (fdiv (ofNat s) (ofNat (Nat.max (s + g) 1))).
Proof.
  unfold ofNat, ofZ; cbn [fdiv].
  assert (Hd : 0 < inject_Z (Z.of_nat (Nat.max (s + g) 1)))
    by (change 0 with (inject_Z 0); rewrite <- Zlt_Qlt; lia).
  rewrite (proj1 (Qgt_alt _ _) Hd).
  apply round64_bounded; [reflexivity | |].
  - apply Qle_shift_div_l; [exact Hd | rewrite Qmult_0_l].
    change 0 with (inject_Z 0); rewrite <- Zle_Qle; lia.
  - apply Qle_shift_div_r; [exact Hd | rewrite Qmult_1_l].
    rewrite <- Zle_Qle; lia.
Qed.

Lemma rescore_ok (ids : list CapabilityId) (overallScore : double)
    (stats : Binary64.ThemeStats) (m : Binary64.CapabilityMap)
    (meta : CapabilityId * jsstring) :
  isFinite overallScore = true ->
  mapOk ids m -> mapOk ids (Binary64.rescore overallScore stats m meta).
Proof.
  intros Hfin Hm; unfold Binary64.rescore.
  destruct (Binary64.capGet m (fst meta)) as [entry|] eqn:E; [|exact Hm].
  destruct (mapOk_get _ Hm E) as [Hid [[H0 H1] [H2 H3]]].
  destruct (_ && _)%bool; [exact Hm|].
  apply capSet_ok; [exact Hm | exact Hid|].
  set (s := Binary64.strengthCount _); set (g := Binary64.gapCount _).
  destruct (ratio_unit s g) as [r [Er [Hr0 Hr1]]]; rewrite Er.
  destruct overallScore as [| | |o]; try discriminate.
  destruct (Binary64.capScore entry) as [| | |c] eqn:Ec; try discriminate.
  apply Qle_bool_iff in H0, H1.
  unfold cardInRange; cbn [Binary64.capScore Binary64.strengths Binary64.gaps].
  split; [|split; assumption].
  destruct (_ && _)%bool; apply clampScore_range, fround_number.
  - apply fmax_number; apply fmul_number; reflexivity.
  - apply fadd_number; [apply fmul_number; reflexivity|].
    unfold fsub; cbn [fneg fadd].
    assert (Hb : boundedBy 1 (round64 (1 + - r))).
    { apply round64_bounded; [reflexivity | lra | lra]. }
    destruct Hb as [b [Eb [Hb0 Hb1]]]; rewrite Eb; cbn [fmul].
    assert (Hp : boundedBy 100 (round64 (b * c))).
    { apply round64_bounded; [reflexivity | |].
      - apply Qmult_le_0_compat; assumption.
      - setoid_replace 100 with (1 * 100) by ring.
        apply Qmult_le_compat_nonneg; split; assumption. }
    destruct Hp as [p [Ep _]]; rewrite Ep; reflexivity.
Qed.

Lemma initial_map_ok (fallback : list Binary64.CapabilityInsight) :
  Forall cardInRange fallback ->
  mapOk (map Binary64.capId fallback)
    (fold_left
       (fun m capability =>
          Binary64.capSet m (Binary64.capId capability) capability)
       fallback []).
Proof.
  intros H.
  assert (G : forall l m seen,
            Forall cardInRange l -> mapOk seen m ->
            mapOk (seen ++ map Binary64.capId l)
              (fold_left (fun m capability =>
                            Binary64.capSet m (Binary64.capId capability)
                              capability) l m)).
  { induction l as [|c l IH]; intros m seen Hl Hm; cbn [fold_left map].
    - rewrite app_nil_r; exact Hm.
    - inversion Hl as [|? ? Hc Hl']; subst.
      replace (seen ++ Binary64.capId c :: map Binary64.capId l)
        with ((seen ++ [Binary64.capId c]) ++ map Binary64.capId l)
        by (rewrite <- app_assoc; reflexivity).
      apply IH; [exact Hl'|].
      destruct (@capSet_ok seen m (Binary64.capId c) c Hm eq_refl Hc)
        as [H1 H2].
      split; [exact H1|].
      intros id Hid; apply in_app_or in Hid; destruct Hid as [Hid|[<-|[]]];
        [apply H2; exact Hid|].
      rewrite capGet_capSet.
      assert (Er : capEqb (Binary64.capId c) (Binary64.capId c) = true)
        by (apply capEqb_eq; reflexivity).
      rewrite Er; discriminate. }
  apply (G fallback [] []); [exact H|].
  split; [constructor | intros id []].
Qed.

Lemma blend_map_ok (semanticResult : Binary64.SemanticAnalysisResponse)
    (fallback : list Binary64.CapabilityInsight) :
  finiteScore semanticResult ->
  Forall cardInRange fallback ->
  exists m,
    mapOk (map Binary64.capId fallback) m
    /\ Binary64.blendSemanticSignals semanticResult fallback
       = map (fun meta => Binary64.capGet m (fst meta)) CAPABILITY_METADATA.
Proof.
  intros Hfin H; unfold Binary64.blendSemanticSignals.
  pose proof (initial_map_ok H) as H0.
  set (m0 := fold_left (fun m capability =>
                          Binary64.capSet m (Binary64.capId capability)
                            capability)
               fallback []) in *.
  set (stats0 := Binary64.mkThemeStats (Binary64.mkThemeCount 0 0)
                   (Binary64.mkThemeCount 0 0) (Binary64.mkThemeCount 0 0)).
  destruct (Binary64.appendThemes Binary64.gap
              (Binary64.missingThemes semanticResult)
              (Binary64.appendThemes Binary64.strength
                 (Binary64.alignedThemes semanticResult) (m0, stats0)))
    as [m1 stats] eqn:E.
  assert (H1 : mapOk (map Binary64.capId fallback) m1).
  { change m1 with (fst (m1, stats)); rewrite <- E.
    apply appendThemes_ok, appendThemes_ok; cbn [fst]; exact H0. }
  eexists; split; [|reflexivity].
  apply fold_left_inv; [|exact H1].
  intros a meta Ha; apply rescore_ok; [|exact Ha].
  unfold finiteScore in Hfin.
  destruct (Binary64.semanticScore semanticResult); [exact Hfin | reflexivity].
Qed.

(** X22. Whatever finite score the semantic service reports, or none, and
    whatever themes, the blended cards stay within range when the fallback
    cards are: every score lies between 0 and 100 and no list grows beyond
    four entries.  When the fallback has a card for each capability, the
    result has the three cards in the order technical, delivery,
    communication. *)
Theorem blendSemanticSignals_range
    (semanticResult : Binary64.SemanticAnalysisResponse)
    (fallback : list Binary64.CapabilityInsight) :
  finiteScore semanticResult ->
  Forall cardInRange fallback ->
  (forall c,
     In (Some c) (Binary64.blendSemanticSignals semanticResult fallback) ->
     cardInRange c)
  /\ (incl [technical; delivery; communication]
        (map Binary64.capId fallback) ->
      map (option_map Binary64.capId)
        (Binary64.blendSemanticSignals semanticResult fallback)
      = [Some technical; Some delivery; Some communication]).
Proof.
  intros Hfin H.
  destruct (blend_map_ok semanticResult Hfin H) as [m [Hm ->]]; split.
  - intros c Hc; apply in_map_iff in Hc; destruct Hc as [meta [Hc _]].
    exact (proj2 (mapOk_get _ Hm Hc)).
  - intros Hincl.
    assert (G : forall id, In id [technical; delivery; communication] ->
                option_map Binary64.capId (Binary64.capGet m id) = Some id).
    { intros id Hid; destruct (Binary64.capGet m id) as [c|] eqn:E.
      - cbn; rewrite (proj1 (mapOk_get _ Hm E)); reflexivity.
      - exfalso; exact (proj2 Hm id (Hincl id Hid) E). }
    cbn [map CAPABILITY_METADATA fst].
    rewrite (G technical), (G delivery), (G communication); cbn; tauto.
Qed.

Lemma blendSemanticSignals_range_witness :
  finiteScore
    (Binary64.mkSemantic (Some (Fin 150)) (Some [str "Team leadership"]) None)
  /\ Forall cardInRange
       (Binary64.buildFallbackCapabilities [matchReact64] [matchTeam64])
  /\ incl [technical; delivery; communication]
       (map Binary64.capId
          (Binary64.buildFallbackCapabilities [matchReact64] [matchTeam64]))
  /\ map (option_map Binary64.capId)
       (Binary64.blendSemanticSignals
          (Binary64.mkSemantic (Some (Fin 150)) (Some [str "Team leadership"])
             None)
          (Binary64.buildFallbackCapabilities [matchReact64] [matchTeam64]))
     = [Some technical; Some delivery; Some communication].
Proof.
  assert (H0 : finiteScore
                 (Binary64.mkSemantic (Some (Fin 150))
                    (Some [str "Team leadership"]) None))
    by reflexivity.
  assert (H1 : Forall cardInRange
                 (Binary64.buildFallbackCapabilities [matchReact64]
                    [matchTeam64])).
  { vm_compute; repeat constructor. }
  assert (H2 : incl [technical; delivery; communication]
                 (map Binary64.capId
                    (Binary64.buildFallbackCapabilities [matchReact64]
                       [matchTeam64])))
    by (intros id Hid; exact Hid).
  split; [exact H0 | split; [exact H1 | split; [exact H2|]]].
  exact (proj2 (@blendSemanticSignals_range
                  (Binary64.mkSemantic (Some (Fin 150))
                     (Some [str "Team leadership"]) None)
                  _ H0 H1) H2).
Defined.

